(** * comphardware: unit normalisation, fuzzy model matching, score model

    A shallow embedding of the Python sources

    - [comphardware/helpers.py]       (module [Comphardware] below, and
                                       [ComphardwareUser] for the probing
                                       of the machine),
    - [database-scripts/helpers.py]   (module [DatabaseScripts]),
    - the three database scripts      (module [Scripts]),
    - [database-scripts/wiki_gpu_tables.py], [intel_ark.py] and
      [dogelog.py]                    (modules [WikiGpuTables], [IntelArk]
                                       and [Dogelog]),

    together with the part of CPython's [difflib.SequenceMatcher] that
    [_find_by_model] drives (module [Difflib]).

    Python values are modelled as follows.  A [str] is the list of its
    Unicode code points; an [int] is a [Z]; a [float] is a binary64
    primitive float; a number that may be either is a [number].  A [dict]
    whose iteration order is observable is an association list in
    insertion order ([PyDict]); a dict used as a plain map is a [gmap].
    Code that may raise returns an [outcome]. *)

From Stdlib Require Import ZArith NArith Bool List Lia DecimalString.
From Stdlib Require Import PrimFloat SpecFloat FloatOps.
From stdpp Require Import base option list gmap strings sorting.

#[local] Set Warnings "-inexact-float".

(** ** Exceptions and outcomes *)

Inductive exn : Set :=
| ValueError | KeyError | IndexError | TypeError | OverflowError | AttributeError.

Inductive outcome (A : Type) : Type :=
| Returned (a : A)
| Raised (e : exn).
Arguments Returned {A} a.
Arguments Raised {A} e.

#[global] Instance outcome_ret : MRet outcome := fun A a => Returned a.
#[global] Instance outcome_bind : MBind outcome := fun A B k m =>
  match m with
  | Returned a => k a
  | Raised e => Raised e
  end.

Definition returns {A} (m : outcome A) : Prop := exists a, m = Returned a.

(** ** Strings *)

Definition codepoint := N.
Definition str := list codepoint.

(** [py "GB"] is the Python string with the given (ASCII) characters. *)
Definition py (s : string) : str :=
  map Ascii.N_of_ascii (String.list_ascii_of_string s).
Arguments py s%_string.

(** Lexicographic order on code points: Python's [<] on [str]. *)
Fixpoint str_ltb (s t : str) : bool :=
  match s, t with
  | [], [] => false
  | [], _ :: _ => true
  | _ :: _, [] => false
  | c :: s', d :: t' => (c <? d)%N || ((c =? d)%N && str_ltb s' t')
  end.

(** ** Numbers *)

Inductive number : Set :=
| PyInt (z : Z)
| PyFloat (f : float).

(** [float(z)] for an [int]: the nearest binary64 value, ties to even;
    [OverflowError] when that is not finite. *)
Definition float_of_int (z : Z) : outcome float :=
  match binary_normalize prec emax z 0 false with
  | S754_infinity _ => Raised OverflowError
  | sf => Returned (SF2Prim sf)
  end.

(** The float a small integer literal denotes in mixed arithmetic. *)
Definition float_lit (z : Z) : float :=
  SF2Prim (binary_normalize prec emax z 0 false).

(** [value * k] for an integer constant [k] (one of the literal
    multipliers [1024 ** i], [10 ** j] of the converters, all exactly
    representable): integer product for an [int], binary64 product for a
    [float]. *)
Definition times (value : number) (k : Z) : number :=
  match value with
  | PyInt z => PyInt (z * k)
  | PyFloat f => PyFloat (f * float_lit k)
  end.

(** [float(x)] and the implicit conversion of [x / <float>]. *)
Definition to_float (x : number) : outcome float :=
  match x with
  | PyInt z => float_of_int z
  | PyFloat f => Returned f
  end.

(** ** Builtins that depend on the Unicode database

    [str.casefold], [str.isdigit], [int(str)] and [float(str)] are fixed
    here on plain ASCII text, where their behaviour is elementary.  What
    they do on other text is dictated by the Unicode character database and
    the interpreter version; that part is a parameter of the development,
    and every theorem below holds whatever it is. *)

Class Builtins : Type := {
  (** case folding of a code point above U+007F (may expand, e.g. U+00DF) *)
  casefold_other : codepoint -> str;
  (** whether a code point above U+007F is a digit for [str.isdigit] *)
  isdigit_other : codepoint -> bool;
  (** [int(s)] for [s] that is not a run of at most 4300 ASCII digits;
      [None] is [ValueError] *)
  int_other : str -> option Z;
  (** [float(s)] for [s] outside the short decimal notation of
      [short_decimal]; [None] is [ValueError] *)
  float_other : str -> option float
}.

(** The builtins of an interpreter fed ASCII text only. *)
Definition ascii_builtins : Builtins := {|
  casefold_other := fun c => [c];
  isdigit_other := fun _ => false;
  int_other := fun _ => None;
  float_other := fun _ => None
|}.

Section BuiltinFunctions.
Context {B : Builtins}.

Definition is_ascii (c : codepoint) : bool := (c <? 128)%N.

Definition casefold_cp (c : codepoint) : str :=
  if is_ascii c then
    [if (65 <=? c)%N && (c <=? 90)%N then (c + 32)%N else c]
  else casefold_other c.

(** [s.casefold()] *)
Definition casefold (s : str) : str := flat_map casefold_cp s.

Definition is_ascii_digit (c : codepoint) : bool :=
  (48 <=? c)%N && (c <=? 57)%N.

Definition isdigit_cp (c : codepoint) : bool :=
  if is_ascii c then is_ascii_digit c else isdigit_other c.

(** [s.isdigit()]: non-empty and every character a digit. *)
Definition isdigit (s : str) : bool :=
  match s with
  | [] => false
  | _ => forallb isdigit_cp s
  end.

(** Value of a run of ASCII digits, most significant first. *)
Definition decimal_value (s : str) : Z :=
  fold_left (fun acc c => (10 * acc + (Z.of_N c - 48))%Z) s 0%Z.

Definition is_ascii_digits (s : str) : bool :=
  match s with
  | [] => false
  | _ => forallb is_ascii_digit s
  end.

(** [sys.int_info.default_max_str_digits] *)
Definition max_str_digits : nat := 4300.

(** [int(s)] *)
Definition int_of_str (s : str) : outcome Z :=
  if is_ascii_digits s && bool_decide (length s <= max_str_digits) then
    Returned (decimal_value s)
  else match int_other s with
       | Some z => Returned z
       | None => Raised ValueError
       end.

(** [s.split(" ")]: cut at every single space; empty pieces are kept. *)
Fixpoint split_space_aux (cur : str) (s : str) : list str :=
  match s with
  | [] => [rev cur]
  | c :: s' =>
      if (c =? 32)%N then rev cur :: split_space_aux [] s'
      else split_space_aux (c :: cur) s'
  end.

Definition split_space (s : str) : list str := split_space_aux [] s.

(** The text before the first ["."] and, when there is one, after it. *)
Fixpoint cut_at_dot (s : str) : str * option str :=
  match s with
  | [] => ([], None)
  | c :: s' =>
      if (c =? 46)%N then ([], Some s')
      else let '(ip, fp) := cut_at_dot s' in (c :: ip, fp)
  end.

(** Decimal notation [ddd] or [ddd.ddd] with at most 15 ASCII digits:
    [Some (m, k)] stands for [m / 10 ** k]. *)
Definition short_decimal (s : str) : option (Z * nat) :=
  match cut_at_dot s with
  | (ip, None) =>
      if is_ascii_digits ip && bool_decide (length ip <= 15)
      then Some (decimal_value ip, 0) else None
  | (ip, Some fp) =>
      if is_ascii_digits ip && is_ascii_digits fp
         && bool_decide (length ip + length fp <= 15)
      then Some (decimal_value (ip ++ fp), length fp) else None
  end.

(** [float(s)]: the binary64 value nearest to the decimal.  For a short
    decimal both [m] and [10 ** k] are exact in binary64, so the nearest
    value is their binary64 quotient. *)
Definition float_of_str (s : str) : outcome float :=
  match short_decimal s with
  | Some (m, k) => Returned (float_lit m / float_lit (10 ^ Z.of_nat k))%float
  | None => match float_other s with
            | Some f => Returned f
            | None => Raised ValueError
            end
  end.

End BuiltinFunctions.

(** The decimal digits of an [int], with a minus sign for a negative
    one. *)
Definition decimal_of_int (z : Z) : str :=
  py (NilZero.string_of_int (Z.to_int z)).

(** An [int] of more than [max_str_digits] decimal digits: no conversion
    between it and text is carried out. *)
Definition exceeds_str_digits (z : Z) : bool :=
  (10 ^ Z.of_nat max_str_digits <=? Z.abs z)%Z.

(** [str(z)] for an [int], also inside an f-string. *)
Definition str_of_int (z : Z) : outcome str :=
  if exceeds_str_digits z then Raised ValueError
  else Returned (decimal_of_int z).

(** ** Insertion-ordered dictionaries

    A Python [dict] read through [keys()], [items()] and [d[k]], and built
    by a comprehension: the list of its items in insertion order.  Storing
    under a key that is present replaces the value where it stands. *)

Module PyDict.
Section Dict.
Context {K : Type} `{EqDecision K} {V : Type}.

Definition dict : Type := list (K * V).

(** [d[k]]; [None] is [KeyError]. *)
Fixpoint get (d : dict) (k : K) : option V :=
  match d with
  | [] => None
  | (k', v) :: d' => if decide (k' = k) then Some v else get d' k
  end.

(** [d[k] = v] *)
Fixpoint set (d : dict) (k : K) (v : V) : dict :=
  match d with
  | [] => [(k, v)]
  | (k', v') :: d' =>
      if decide (k' = k) then (k', v) :: d' else (k', v') :: set d' k v
  end.

Definition keys (d : dict) : list K := map fst d.
Definition items (d : dict) : list (K * V) := d.

(** [{key(x): value(x) for x in xs}] *)
Definition comprehension {X} (key : X -> K) (value : X -> V) (xs : list X)
  : dict :=
  fold_left (fun d x => set d (key x) (value x)) xs [].
End Dict.
Arguments dict : clear implicits.
End PyDict.

(** ** [difflib.SequenceMatcher]

    The part of CPython's [Lib/difflib.py] reached from [_find_by_model]:
    the constructor with its defaults ([isjunk=None], [a=''],
    [autojunk=True]), [set_seq1], [set_seq2] with [__chain_b], and
    [find_longest_match] called without arguments ([alo = blo = 0],
    [ahi = len(a)], [bhi = len(b)]). *)

Module Difflib.
Section Matcher.
Context {E : Type} `{Countable E}.

(** [Match(a, b, size)] *)
Record Match : Type := mkMatch { m_a : nat; m_b : nat; size : nat }.

Record SequenceMatcher : Type := mkSM {
  sm_a : list E;
  sm_b : list E;
  autojunk : bool;
  b2j : gmap E (list nat);
  bjunk : gset E;
  bpopular : gset E
}.

(** [indices = b2j.setdefault(elt, []); indices.append(i)] *)
Definition b2j_add (b2j : gmap E (list nat)) (ie : nat * E)
  : gmap E (list nat) :=
  <[ie.2 := default [] (b2j !! ie.2) ++ [ie.1]]> b2j.

(** [__chain_b]: index [b], then purge the "popular" elements when
    [autojunk] is set and [b] has at least 200 elements.  [isjunk] is
    [None], so the junk purge is skipped and [bjunk] stays empty. *)
Definition __chain_b (autojunk : bool) (b : list E)
  : gmap E (list nat) * gset E * gset E :=
  let b2j := fold_left b2j_add (imap pair b) ∅ in
  let junk : gset E := ∅ in
  let n := length b in
  if autojunk && (200 <=? n) then
    let ntest := n / 100 + 1 in
    let popular : gset E :=
      dom (filter (fun kv => ntest < length kv.2) b2j) in
    (filter (fun kv => kv.1 ∉ popular) b2j, junk, popular)
  else (b2j, junk, ∅).

(** [SequenceMatcher(isjunk=None, a, b, autojunk)] *)
Definition SequenceMatcher_init (a b : list E) (autojunk : bool)
  : SequenceMatcher :=
  let '(b2j, junk, popular) := __chain_b autojunk b in
  mkSM a b autojunk b2j junk popular.

(** [set_seq1(a)]: only [self.a] (and caches not modelled here) change. *)
Definition set_seq1 (sm : SequenceMatcher) (a : list E) : SequenceMatcher :=
  mkSM a (sm_b sm) (autojunk sm) (b2j sm) (bjunk sm) (bpopular sm).

Definition best : Type := nat * nat * nat.

(** The inner loop [for j in b2j.get(a[i], nothing)].  [i - k + 1] is
    written [i + 1 - k]: [k] never exceeds [i + 1] nor [j + 1]. *)
Fixpoint scan_row (blo bhi : nat) (j2len : gmap Z nat) (i : nat)
    (js : list nat) (newj2len : gmap Z nat) (bst : best)
  : gmap Z nat * best :=
  match js with
  | [] => (newj2len, bst)
  | j :: js' =>
      if j <? blo then scan_row blo bhi j2len i js' newj2len bst
      else if bhi <=? j then (newj2len, bst)
      else
        let k := default 0 (j2len !! (Z.of_nat j - 1)%Z) + 1 in
        let newj2len := <[Z.of_nat j := k]> newj2len in
        let bst := if bst.2 <? k then (i + 1 - k, j + 1 - k, k) else bst in
        scan_row blo bhi j2len i js' newj2len bst
  end.

(** One iteration of [for i in range(alo, ahi)]. *)
Definition row (a : list E) (b2j : gmap E (list nat)) (blo bhi : nat)
    (st : gmap Z nat * best) (i : nat) : gmap Z nat * best :=
  match a !! i with
  | Some x => scan_row blo bhi st.1 i (default [] (b2j !! x)) ∅ st.2
  | None => st
  end.

(** [while besti > alo and bestj > blo and ok(b[bestj-1]) and
    a[besti-1] == b[bestj-1]], with [alo = blo = 0]. *)
Fixpoint extend_down (ok : E -> bool) (a b : list E)
    (besti bestj bestsize : nat) {struct besti} : best :=
  match besti, bestj with
  | S i', S j' =>
      match a !! i', b !! j' with
      | Some x, Some y =>
          if ok y && bool_decide (x = y)
          then extend_down ok a b i' j' (S bestsize)
          else (besti, bestj, bestsize)
      | _, _ => (besti, bestj, bestsize)
      end
  | _, _ => (besti, bestj, bestsize)
  end.

(** [while besti+bestsize < ahi and bestj+bestsize < bhi and
    ok(b[bestj+bestsize]) and a[besti+bestsize] == b[bestj+bestsize]];
    each turn increases [besti+bestsize], so [ahi] turns suffice. *)
Fixpoint extend_up (ok : E -> bool) (a b : list E) (ahi bhi : nat)
    (fuel besti bestj bestsize : nat) : nat :=
  match fuel with
  | 0 => bestsize
  | S fuel' =>
      if (besti + bestsize <? ahi) && (bestj + bestsize <? bhi) then
        match a !! (besti + bestsize), b !! (bestj + bestsize) with
        | Some x, Some y =>
            if ok y && bool_decide (x = y)
            then extend_up ok a b ahi bhi fuel' besti bestj (S bestsize)
            else bestsize
        | _, _ => bestsize
        end
      else bestsize
  end.

Definition extend (ok : E -> bool) (a b : list E) (ahi bhi : nat)
    (bst : best) : best :=
  let '(besti, bestj, bestsize) := extend_down ok a b bst.1.1 bst.1.2 bst.2 in
  (besti, bestj, extend_up ok a b ahi bhi ahi besti bestj bestsize).

(** [find_longest_match()] *)
Definition find_longest_match (sm : SequenceMatcher) : Match :=
  let a := sm_a sm in
  let b := sm_b sm in
  let isbjunk := fun y => bool_decide (y ∈ bjunk sm) in
  let alo := 0 in
  let blo := 0 in
  let ahi := length a in
  let bhi := length b in
  let st := fold_left (row a (b2j sm) blo bhi) (seq alo (ahi - alo))
              (∅, (alo, blo, 0)) in
  let bst := extend (fun y => negb (isbjunk y)) a b ahi bhi st.2 in
  let bst := extend isbjunk a b ahi bhi bst in
  mkMatch bst.1.1 bst.1.2 bst.2.
End Matcher.
Arguments Match : clear implicits.
Arguments SequenceMatcher E {_ _}.
End Difflib.

(** ** [comphardware/helpers.py] *)

Module Comphardware.
Section Helpers.
Context {B : Builtins}.

Definition human_readable_to_bytes (value : number) (unit : str) : number :=
  let unit := casefold unit in
  if bool_decide (unit = py "b") then value
  else if bool_decide (unit = py "kb") || bool_decide (unit = py "kib")
  then times value 1024
  else if bool_decide (unit = py "mb") || bool_decide (unit = py "mib")
  then times value (1024 ^ 2)
  else if bool_decide (unit = py "gb") || bool_decide (unit = py "gib")
  then times value (1024 ^ 3)
  else if bool_decide (unit = py "tb") || bool_decide (unit = py "tib")
  then times value (1024 ^ 4)
  else value.

Definition human_readable_to_hertz (value : number) (unit : str) : number :=
  let unit := casefold unit in
  if bool_decide (unit = py "khz") then times value (10 ^ 3)
  else if bool_decide (unit = py "mhz") then times value (10 ^ 6)
  else if bool_decide (unit = py "ghz") then times value (10 ^ 9)
  else if bool_decide (unit = py "thz") then times value (10 ^ 12)
  else value.

(** The loop state of [_find_by_model]: [current_score], [exact_model]
    and the matcher object that [set_seq1] updates. *)
Definition search_state : Type :=
  nat * option str * Difflib.SequenceMatcher codepoint.

Definition search_step (st : search_state) (model : str) : search_state :=
  let '(current_score, exact_model, sequence_matcher) := st in
  let sequence_matcher := Difflib.set_seq1 sequence_matcher model in
  let match_ := Difflib.find_longest_match sequence_matcher in
  if current_score <? Difflib.size match_
  then (Difflib.size match_, Some model, sequence_matcher)
  else (current_score, exact_model, sequence_matcher).

Definition _find_by_model {C R : Type} (cls : C)
    (database : PyDict.dict str R) (unexact_model : str)
  : outcome (option R) :=
  let sequence_matcher :=
    Difflib.SequenceMatcher_init [] unexact_model true in
  let '(current_score, exact_model, _) :=
    fold_left search_step (PyDict.keys database)
      (0, None, sequence_matcher) in
  match exact_model with
  | None => Returned None
  | Some exact_model =>
      match PyDict.get database exact_model with
      | Some component => Returned (Some component)
      | None => Raised KeyError
      end
  end.

(** The [try] block of [setup_from_clutter], up to the [break]: the
    values of [value] and [unit] when the loop is left ([None] when both
    are still [None]). *)
Fixpoint find_value_unit (ram_clutter : list str) (i : nat)
    (parts : list str) : outcome (option (Z * str)) :=
  match parts with
  | [] => Returned None
  | part :: parts' =>
      if isdigit part then
        value ← int_of_str part;
        if bool_decide (i = length ram_clutter - 1)
        then Returned (Some (value, py "b"))
        else match ram_clutter !! (i + 1) with
             | Some unit => Returned (Some (value, unit))
             | None => Raised IndexError
             end
      else find_value_unit ram_clutter (S i) parts'
  end.

Definition extract (ram_clutter : str) : outcome (option (Z * str)) :=
  let ram_clutter := split_space (casefold ram_clutter) in
  find_value_unit ram_clutter 0 ram_clutter.

(** The whole [try]/[except] of [setup_from_clutter]: the value of
    [ram].  With [value] and [unit] still [None], the call
    [human_readable_to_bytes(None, None)] raises [AttributeError] at
    [unit.casefold()]; the bare [except] turns every exception into
    [None]. *)
Definition ram_from_clutter (ram_clutter : str) : option number :=
  let attempt : outcome number :=
    vu ← extract ram_clutter;
    match vu with
    | Some (value, unit) =>
        Returned (human_readable_to_bytes (PyInt value) unit)
    | None => Raised AttributeError
    end in
  match attempt with
  | Returned ram => Some ram
  | Raised _ => None
  end.

Section Setup.
(** [MODEL_TO_CPU] and [MODEL_TO_GPU] come from [comphardware/data.py]
    and [SystemSetup] from [comphardware/_models.py]; they are
    parameters here. *)
Context {CPU GPU Setup : Type}.
Variable MODEL_TO_CPU : PyDict.dict str CPU.
Variable MODEL_TO_GPU : PyDict.dict str GPU.
Variable SystemSetup : option CPU -> option GPU -> option number -> Setup.

Definition find_cpu_by_model (model : str) : outcome (option CPU) :=
  _find_by_model CPU MODEL_TO_CPU model.

Definition find_gpu_by_model (model : str) : outcome (option GPU) :=
  _find_by_model GPU MODEL_TO_GPU model.

Definition setup_from_clutter (cpu_clutter gpu_clutter ram_clutter : str)
  : outcome Setup :=
  cpu ← find_cpu_by_model cpu_clutter;
  gpu ← find_gpu_by_model gpu_clutter;
  let ram := ram_from_clutter ram_clutter in
  Returned (SystemSetup cpu gpu ram).
End Setup.
End Helpers.
End Comphardware.

(** ** [database-scripts/helpers.py] *)

Module DatabaseScripts.

(** [list.sort(key=...)]: a stable sort that compares keys with [<].
    Insertion after the last element whose key is not greater is stable,
    and a stable sort has only one possible result. *)
Section Sort.
Context {A K : Type} (ltb : K -> K -> bool) (key : A -> K).

Fixpoint insert_sorted (x : A) (l : list A) : list A :=
  match l with
  | [] => [x]
  | y :: l' =>
      if ltb (key x) (key y) then x :: y :: l' else y :: insert_sorted x l'
  end.

Definition sort (l : list A) : list A :=
  fold_left (fun acc x => insert_sorted x acc) l [].
End Sort.

Module CPU.
Record t : Set := mk {
  model : str;
  product_id : Z;
  vendor : str;
  corecount : number;
  corespeed : number;
  score : float
}.

Definition __init__ (model : str) (product_id : Z) (vendor : str)
    (corecount corespeed : number) : outcome t :=
  c ← to_float corecount;
  let corescore := (c / 8.0)%float in
  s ← to_float corespeed;
  let speedscore := (s / (5.30 * float_lit (10 ^ 9)))%float in
  Returned (mk model product_id vendor corecount corespeed
              ((corescore + speedscore) * 100.0 / 2.0)%float).
End CPU.

Module GPU.
Record t : Set := mk {
  model : str;
  vendor : str;
  vram : number;
  corespeed : number;
  codename : str;
  score : float
}.

Definition __init__ (model vendor : str) (vram corespeed : number)
    (codename : str) : outcome t :=
  v ← to_float vram;
  let vramscore := (v / (10.0 * float_lit (1024 ^ 3)))%float in
  s ← to_float corespeed;
  let corespeedscore := (s / (1440.0 * float_lit (10 ^ 6)))%float in
  Returned (mk model vendor vram corespeed codename
              ((vramscore + corespeedscore) * 100.0 / 2.0)%float).
End GPU.

(** The database files.  A file holds the JSON object that [json.dump]
    wrote; [json.load] gives that object back, so a file is modelled by
    the object: model name to the entry's fields, in the order written. *)
Record cpu_specs : Set := mk_cpu_specs {
  cs_product_id : Z;
  cs_vendor : str;
  cs_corecount : number;
  cs_corespeed : number;
  cs_score : float
}.

Record gpu_specs : Set := mk_gpu_specs {
  gs_vendor : str;
  gs_vram : number;
  gs_corespeed : number;
  gs_codename : str;
  gs_score : float
}.

Definition cpu_file : Type := PyDict.dict str cpu_specs.
Definition gpu_file : Type := PyDict.dict str gpu_specs.

(** [load_cpus]; the argument is the content of [targetfile], [None] when
    the file does not exist. *)
Definition load_cpus (targetfile : option cpu_file) : outcome (list CPU.t) :=
  match targetfile with
  | Some raw_cpus =>
      mapM (fun '(model, specs) =>
              CPU.__init__ model (cs_product_id specs) (cs_vendor specs)
                (cs_corecount specs) (cs_corespeed specs))
           (PyDict.items raw_cpus)
  | None => Returned []
  end.

(** [save_cpus]; the result is the new content of [targetfile]. *)
Definition save_cpus (cpus : list CPU.t) : cpu_file :=
  PyDict.comprehension CPU.model
    (fun cpu => mk_cpu_specs (CPU.product_id cpu) (CPU.vendor cpu)
                  (CPU.corecount cpu) (CPU.corespeed cpu) (CPU.score cpu))
    cpus.

Definition load_gpus (targetfile : option gpu_file) : outcome (list GPU.t) :=
  match targetfile with
  | Some raw_gpus =>
      mapM (fun '(model, specs) =>
              GPU.__init__ model (gs_vendor specs) (gs_vram specs)
                (gs_corespeed specs) (gs_codename specs))
           (PyDict.items raw_gpus)
  | None => Returned []
  end.

Definition save_gpus (gpus : list GPU.t) : gpu_file :=
  PyDict.comprehension GPU.model
    (fun gpu => mk_gpu_specs (GPU.vendor gpu) (GPU.vram gpu)
                  (GPU.corespeed gpu) (GPU.codename gpu) (GPU.score gpu))
    gpus.

Section Converters.
Context {B : Builtins}.

Definition human_readable_to_bytes (value : number) (unit : str) : number :=
  let unit := casefold unit in
  if bool_decide (unit = py "b") then value
  else if bool_decide (unit = py "kb") || bool_decide (unit = py "kib")
  then times value 1024
  else if bool_decide (unit = py "mb") || bool_decide (unit = py "mib")
  then times value (1024 ^ 2)
  else if bool_decide (unit = py "gb") || bool_decide (unit = py "gib")
  then times value (1024 ^ 3)
  else if bool_decide (unit = py "tb") || bool_decide (unit = py "tib")
  then times value (1024 ^ 4)
  else value.

Definition human_readable_to_hertz (value : number) (unit : str) : number :=
  let unit := casefold unit in
  if bool_decide (unit = py "khz") then times value (10 ^ 3)
  else if bool_decide (unit = py "mhz") then times value (10 ^ 6)
  else if bool_decide (unit = py "ghz") then times value (10 ^ 9)
  else if bool_decide (unit = py "thz") then times value (10 ^ 12)
  else value.
End Converters.

End DatabaseScripts.

(** Left-to-right loop with early exit on an exception. *)
Fixpoint foldlM {A X} (f : A -> X -> outcome A) (acc : A) (xs : list X)
  : outcome A :=
  match xs with
  | [] => Returned acc
  | x :: xs' => acc' ← f acc x; foldlM f acc' xs'
  end.

(** ** The database scripts *)

Module Scripts.
Import DatabaseScripts.

(** *** [update-cpu-database.py]

    [intel_ark.parse] queries Intel's site; what it returns (or raises) for
    a given list of known CPUs is a parameter.  The result of the script is
    what it writes to [CPU_DATABASE]. *)
Section UpdateCpu.
Variable intel_ark_parse : list CPU.t -> outcome (list CPU.t).

Definition update_cpu_database (CPU_DATABASE : option cpu_file)
  : outcome cpu_file :=
  old_cpus ← load_cpus CPU_DATABASE;
  let old_cpus := sort Z.ltb CPU.product_id old_cpus in
  cpus ← intel_ark_parse old_cpus;
  let cpus := cpus ++ old_cpus in
  let cpus := sort str_ltb CPU.model cpus in
  Returned (save_cpus cpus).
End UpdateCpu.

(** *** [update-gpu-database.py] *)
Section UpdateGpu.
Variable wiki_gpu_tables_parse :
  str -> list GPU.t -> str -> outcome (list GPU.t).

Definition GPU_NVIDIA_URL : str :=
  py "https://en.wikipedia.org/wiki/List_of_Nvidia_graphics_processing_units".
Definition GPU_AMD_URL : str :=
  py "https://en.wikipedia.org/wiki/List_of_AMD_graphics_processing_units".
Definition GPU_INTEL_URL : str :=
  py "https://en.wikipedia.org/wiki/List_of_Intel_graphics_processing_units".

Definition gpu_vendors : list (str * str) :=
  [(py "nvidia", GPU_NVIDIA_URL); (py "amd", GPU_AMD_URL);
   (py "intel", GPU_INTEL_URL)].

Definition update_gpu_database (GPU_DATABASE : option gpu_file)
  : outcome gpu_file :=
  old_gpus ← load_gpus GPU_DATABASE;
  let old_gpus := sort str_ltb GPU.model old_gpus in
  parsed ← mapM (fun '(vendor, url) =>
                   wiki_gpu_tables_parse url old_gpus vendor) gpu_vendors;
  let gpus := concat parsed in
  let gpus := gpus ++ old_gpus in
  let gpus := sort str_ltb GPU.model gpus in
  Returned (save_gpus gpus).
End UpdateGpu.

(** *** [convert-divinity76s-database.py]

    An entry of the downloaded database, in the shape of the excerpt
    quoted in [convert]; every section and every field may be missing. *)
Record ark_performance : Set := mk_perf {
  number_of_cores : option str;            (* "# of Cores" *)
  processor_base_frequency : option str    (* "Processor Base Frequency" *)
}.

Record ark_specs : Set := mk_ark {
  essentials : option (option str);        (* "Essentials", "Processor Number" *)
  performance : option ark_performance     (* "Performance" *)
}.

Section Convert.
Context {B : Builtins}.

(** [d[key]] on a JSON object *)
Definition subscript {A} (field : option A) : outcome A :=
  match field with
  | Some x => Returned x
  | None => Raised KeyError
  end.

(** [raw[i]] on a list *)
Definition item {A} (l : list A) (i : nat) : outcome A :=
  match l !! i with
  | Some x => Returned x
  | None => Raised IndexError
  end.

(** The body of the [try] in [convert]: [Some cpu] when a CPU is
    appended, [None] at the [continue]. *)
Definition convert_entry (key : str) (specs : ark_specs)
  : outcome (option CPU.t) :=
  product_id ← int_of_str key;
  ess ← subscript (essentials specs);
  match ess with
  | None => Returned None
  | Some model =>
      perf ← subscript (performance specs);
      cores ← subscript (number_of_cores perf);
      corecount ← int_of_str cores;
      perf ← subscript (performance specs);
      freq ← subscript (processor_base_frequency perf);
      let raw := split_space freq in
      raw0 ← item raw 0;
      value ← float_of_str raw0;
      unit ← item raw 1;
      let corespeed := human_readable_to_hertz (PyFloat value) unit in
      cpu ← CPU.__init__ model product_id (py "intel")
              (PyInt corecount) corespeed;
      Returned (Some cpu)
  end.

(** One turn of the loop: [ValueError] and [KeyError] are caught. *)
Definition convert_step (cpus : list CPU.t) (entry : str * ark_specs)
  : outcome (list CPU.t) :=
  match convert_entry entry.1 entry.2 with
  | Returned (Some cpu) => Returned (cpus ++ [cpu])
  | Returned None => Returned cpus
  | Raised ValueError | Raised KeyError => Returned cpus
  | Raised e => Raised e
  end.

Definition convert (source : PyDict.dict str ark_specs)
  : outcome (list CPU.t) :=
  foldlM convert_step [] (PyDict.items source).

(** The script: [download], [convert], [save_cpus]. *)
Definition convert_divinity76s_database
    (source : PyDict.dict str ark_specs) : outcome cpu_file :=
  conv ← convert source;
  Returned (save_cpus conv).
End Convert.

End Scripts.

(** ** More string builtins

    [str.isspace] and [str.strip] follow the Unicode database like the
    builtins above: fixed on ASCII, a parameter beyond. *)

Class Whitespace : Type := {
  (** whether a code point above U+007F is white space *)
  isspace_other : codepoint -> bool
}.

Definition ascii_whitespace : Whitespace := {|
  isspace_other := fun _ => false
|}.

Section MoreBuiltins.
Context {W : Whitespace}.

(** [c.isspace()]; the ASCII white space is U+0009..U+000D,
    U+001C..U+001F and the space. *)
Definition isspace_cp (c : codepoint) : bool :=
  if is_ascii c then
    ((9 <=? c)%N && (c <=? 13)%N) || ((28 <=? c)%N && (c <=? 32)%N)
  else isspace_other c.

Fixpoint lstrip (s : str) : str :=
  match s with
  | [] => []
  | c :: s' => if isspace_cp c then lstrip s' else s
  end.

Definition rstrip (s : str) : str := rev (lstrip (rev s)).

(** [s.strip()] *)
Definition strip (s : str) : str := rstrip (lstrip s).

End MoreBuiltins.

(** [s.split(sep)] for a separator of one character. *)
Fixpoint split_char_aux (sep : codepoint) (cur : str) (s : str) : list str :=
  match s with
  | [] => [rev cur]
  | c :: s' =>
      if (c =? sep)%N then rev cur :: split_char_aux sep [] s'
      else split_char_aux sep (c :: cur) s'
  end.

Definition split_char (sep : codepoint) (s : str) : list str :=
  split_char_aux sep [] s.
Arguments split_char sep%_N s.

(** [s.split("\r\n")]; [skip] is set while the line feed of a separator
    just found is passed over. *)
Fixpoint split_crlf_aux (skip : bool) (cur : str) (s : str) : list str :=
  match s with
  | [] => [rev cur]
  | c :: s' =>
      if skip then split_crlf_aux false cur s'
      else if (c =? 13)%N && bool_decide (head s' = Some 10%N)
      then rev cur :: split_crlf_aux true [] s'
      else split_crlf_aux false (c :: cur) s'
  end.

Definition split_crlf (s : str) : list str := split_crlf_aux false [] s.

(** [p] is a prefix of [s]: [s.startswith(p)] *)
Fixpoint starts_with (p s : str) : bool :=
  match p, s with
  | [], _ => true
  | _ :: _, [] => false
  | c :: p', d :: s' => (c =? d)%N && starts_with p' s'
  end.

(** [needle in hay] *)
Fixpoint contains (needle hay : str) : bool :=
  starts_with needle hay
  || match hay with
     | [] => false
     | _ :: hay' => contains needle hay'
     end.

(** ** [comphardware/helpers.py]: the current machine

    What the operating system and the probing libraries report is a
    [machine]; the module globals [_cached_cpu] and [_cached_gpu] are
    the [caches], threaded through the calls. *)

Module ComphardwareUser.

Record machine : Type := mk_machine {
  (** [cpuinfo.get_cpu_info().get("brand_raw", None)] *)
  brand_raw : option str;
  (** what [_user_gpu_by_opengl()] returns; [None] when it raises or
      returns [None], which [user_gpu] treats alike *)
  opengl_renderer : option str;
  (** [platform.system()] *)
  system : str;
  (** [subprocess.check_output("lspci", text=True)]; [None] when it
      raises *)
  lspci : option str;
  (** the decoded output of the WMIC query; [None] when the call or the
      decoding raises *)
  wmic : option str;
  (** [psutil.virtual_memory().total] *)
  total_ram : Z
}.

(** What [_user_gpu_by_platform] can raise. *)
Inductive platform_error : Set :=
| ProbeFailed        (* the exception of the subprocess call or of decode *)
| NoSecondLine       (* IndexError at [split("
")[1]] *)
| NameNotDefined.    (* NameError: the name [NotImplented] is not defined *)

Section Linux.
Context {W : Whitespace}.

(** The loop over the characters of [raw_model]; [i] is the index of the
    first character of [rest], [gpu_model] the text gathered so far. *)
Fixpoint scan_model (raw_model : str) (i : nat) (gpu_model : str)
    (rest : str) : str :=
  match rest with
  | [] => gpu_model
  | char :: rest' =>
      if (char =? 40)%N then gpu_model
      else if (char =? 93)%N then
        let before_closing_bracket := take i raw_model in
        List.last (split_char 91 before_closing_bracket) []
      else scan_model raw_model (S i) (gpu_model ++ [char]) rest'
  end.

(** One turn of [for line in lspci_output]. *)
Definition lspci_line (gpu_model : option str) (line : str) : option str :=
  if bool_decide (strip line = []) then gpu_model
  else if contains (py "VGA compatible controller") line then
    let colon_splitted := split_char 58 line in
    let raw_model := List.last colon_splitted [] in
    Some (scan_model raw_model 0 [] raw_model)
  else gpu_model.

Definition _user_gpu_by_platform (m : machine)
  : platform_error + option str :=
  if bool_decide (system m = py "Linux") then
    match lspci m with
    | Some output =>
        inr (fold_left lspci_line (split_char 10 output) None)
    | None => inl ProbeFailed
    end
  else if bool_decide (system m = py "Windows") then
    match wmic m with
    | Some wmic_query_output =>
        match split_crlf wmic_query_output !! 1 with
        | Some gpu_model => inr (Some gpu_model)
        | None => inl NoSecondLine
        end
    | None => inl ProbeFailed
    end
  else inl NameNotDefined.
End Linux.

Section User.
Context {W : Whitespace} {CPU GPU Setup : Type}.
Variable MODEL_TO_CPU : PyDict.dict str CPU.
Variable MODEL_TO_GPU : PyDict.dict str GPU.
Variable SystemSetup : option CPU -> option GPU -> option number -> Setup.

(** The two globals; [None] is the initial [0], "nothing cached". *)
Record caches : Type := mk_caches {
  _cached_cpu : option (option CPU);
  _cached_gpu : option (option GPU)
}.

Definition user_cpu (m : machine) (st : caches)
  : outcome (option CPU) * caches :=
  match _cached_cpu st with
  | Some cached => (Returned cached, st)
  | None =>
      match brand_raw m with
      | None | Some [] => (Returned None, st)
      | Some cluttered_cpu =>
          match Comphardware.find_cpu_by_model MODEL_TO_CPU cluttered_cpu with
          | Returned actual_cpu =>
              (Returned actual_cpu,
               mk_caches (Some actual_cpu) (_cached_gpu st))
          | Raised e => (Raised e, st)
          end
      end
  end.

(** [user_gpu(force_no_window)].  An exception of
    [_user_gpu_by_platform] meets [except NotImplemented:], and matching
    against something that is not an exception class raises
    [TypeError]. *)
Definition user_gpu (force_no_window : bool) (m : machine) (st : caches)
  : outcome (option GPU) * caches :=
  match _cached_gpu st with
  | Some cached => (Returned cached, st)
  | None =>
      let gpu_model := if force_no_window then None else opengl_renderer m in
      let gpu_model : outcome (option str) :=
        match gpu_model with
        | Some _ => Returned gpu_model
        | None =>
            match _user_gpu_by_platform m with
            | inr gpu_model => Returned gpu_model
            | inl _ => Raised TypeError
            end
        end in
      match gpu_model with
      | Raised e => (Raised e, st)
      | Returned None => (Returned None, st)
      | Returned (Some gpu_model) =>
          match Comphardware.find_gpu_by_model MODEL_TO_GPU gpu_model with
          | Returned actual_gpu =>
              (Returned actual_gpu,
               mk_caches (_cached_cpu st) (Some actual_gpu))
          | Raised e => (Raised e, st)
          end
      end
  end.

(** [user_setup()] *)
Definition user_setup (m : machine) (st : caches) : outcome Setup * caches :=
  match user_cpu m st with
  | (Raised e, st) => (Raised e, st)
  | (Returned cpu, st) =>
      match user_gpu false m st with
      | (Raised e, st) => (Raised e, st)
      | (Returned gpu, st) =>
          (Returned (SystemSetup cpu gpu (Some (PyInt (total_ram m)))), st)
      end
  end.
End User.
Arguments caches : clear implicits.
End ComphardwareUser.

(** ** [database-scripts/wiki_gpu_tables.py] *)

Module WikiGpuTables.
Section Tables.
Context {B : Builtins} {W : Whitespace}.

(** The loop of [strip_unimportant]: [stripped] is the text gathered so
    far. *)
Fixpoint strip_unimportant_loop (stripped : str) (source : str) : str :=
  match source with
  | [] => stripped
  | char :: source' =>
      if (char =? 91)%N || (char =? 40)%N then stripped
      else
        let char := if isspace_cp char then 32%N else char in
        strip_unimportant_loop (stripped ++ [char]) source'
  end.

Definition strip_unimportant (source : str) : str :=
  strip (strip_unimportant_loop [] source).

(** First loop of [guess_newline]: the index of the first digit, if any. *)
Fixpoint first_digit (i : nat) (value : str) : option nat :=
  match value with
  | [] => None
  | char :: value' =>
      if isdigit_cp char then Some i else first_digit (S i) value'
  end.

(** Second loop: the index of the first character that is not a digit. *)
Fixpoint first_non_digit (i : nat) (value : str) : option nat :=
  match value with
  | [] => None
  | char :: value' =>
      if negb (isdigit_cp char) then Some i else first_non_digit (S i) value'
  end.

(** [value[-1]] *)
Definition last_char (value : str) : outcome codepoint :=
  match List.last (map Some value) None with
  | Some c => Returned c
  | None => Raised IndexError
  end.

Definition guess_newline (value unit : str) : outcome float :=
  let number_begin := default 0 (first_digit 0 value) in
  let value := drop number_begin value in
  let value :=
    match first_non_digit 0 value with
    | Some i => take i value
    | None => value
    end in
  last ← last_char value;
  let value := if (last =? 55)%N then removelast value else value in
  if bool_decide (unit = py "gb") || bool_decide (unit = py "gib")
     || bool_decide (unit = py "ghz") then
    if negb (length value mod 2 =? 0) then float_of_str (take 2 value)
    else float_of_str value
  else if bool_decide (unit = py "mb") || bool_decide (unit = py "mib")
          || bool_decide (unit = py "mhz") then
    if length value =? 7 then float_of_str (take 3 value)
    else if length value mod 4 =? 0 then float_of_str (take 4 value)
    else if length value =? 10 then float_of_str (take 3 value)
    else if length value =? 11 then float_of_str (take 3 value)
    else if length value mod 3 =? 0 then float_of_str (take 3 value)
    else float_of_str value
  else float_of_str value.

(** A cell of a table row: a string, or some other object (a number, a
    missing value) of which only the text [str(cell)] is used. *)
Inductive cell : Type :=
| Text (s : str)
| Other (rendered : str).

(** [str(raw)] *)
Definition str_of_cell (raw : cell) : str :=
  match raw with
  | Text s => s
  | Other rendered => rendered
  end.

(** [strip_unimportant(raw)] on a cell: only a string can be walked
    through. *)
Definition strip_unimportant_cell (raw : cell) : outcome str :=
  match raw with
  | Text s => Returned (strip_unimportant s)
  | Other _ => Raised TypeError
  end.

(** [row[i]] *)
Definition row_item (row : list cell) (i : nat) : outcome cell :=
  match row !! i with
  | Some raw => Returned raw
  | None => Raised IndexError
  end.

(** The [indices] of a table that [extract_gpus] does not skip: the
    columns of the core speed and of the code name are known, the one of
    the memory may be missing. *)
Record indices : Type := mk_indices {
  vram : option (nat * str);
  corespeed : nat * str;
  codename : nat
}.

Definition parse_gpu (row : list cell) (indices : indices) (vendor : str)
  : outcome DatabaseScripts.GPU.t :=
  raw ← row_item row 0;
  model ← strip_unimportant_cell raw;
  let model := casefold model in
  vram ← match vram indices with
         | Some (i, unit) =>
             raw ← row_item row i;
             let raw := strip_unimportant (str_of_cell raw) in
             raw ← guess_newline raw unit;
             Returned (DatabaseScripts.human_readable_to_bytes (PyFloat raw) unit)
         | None =>
             Returned (DatabaseScripts.human_readable_to_bytes
                         (PyInt 3000) (py "mib"))
         end;
  raw ← row_item row (corespeed indices).1;
  let raw := strip_unimportant (str_of_cell raw) in
  raw ← guess_newline raw (corespeed indices).2;
  let corespeed :=
    DatabaseScripts.human_readable_to_hertz (PyFloat raw) (corespeed indices).2 in
  raw ← row_item row (codename indices);
  codename ← strip_unimportant_cell raw;
  DatabaseScripts.GPU.__init__ model vendor vram corespeed codename.

(** The loop [for row in table.to_numpy()] of [extract_gpus]:
    [ValueError] and [IndexError] end the table. *)
Fixpoint parse_rows (gpus : list DatabaseScripts.GPU.t)
    (rows : list (list cell)) (indices : indices) (vendor : str)
  : outcome (list DatabaseScripts.GPU.t) :=
  match rows with
  | [] => Returned gpus
  | row :: rows' =>
      match parse_gpu row indices vendor with
      | Returned gpu => parse_rows (gpus ++ [gpu]) rows' indices vendor
      | Raised ValueError | Raised IndexError => Returned gpus
      | Raised e => Raised e
      end
  end.
End Tables.
End WikiGpuTables.

(** ** [database-scripts/intel_ark.py]

    The module talks to Intel's site through [requests] and reads the
    pages with [BeautifulSoup].  Both are outside of the repository: a
    request is answered by a parameter that sees everything the scan did
    before, and a page is given by the values of the four expressions
    the code evaluates on it.  Log entries and the progress bar are left
    out. *)

Module IntelArk.
Definition STARTID : Z := 27994.
Definition ENDID : Z := 215570.
Definition RATE_LIMIT_DELAY : Z := 55.

(** A page as the code reads it. *)
Record website : Type := mk_website {
  (** [website.head.title.string]; [None] when the expression raises or
      gives [None], in which case the membership test raises *)
  title : option str;
  (** [website.find(attrs={"data-key": "ProcessorNumber"})], and its
      [.string] when the tag is found *)
  ProcessorNumber : option (option str);
  (** the same for "CoreCount" *)
  CoreCount : option (option str);
  (** the same for "ClockSpeed" *)
  ClockSpeed : option (option str)
}.

(** How [requests.get] ends. *)
Inductive response : Type :=
| Timeout                  (* requests.Timeout *)
| ConnectionError          (* requests.exceptions.ConnectionError *)
| KeyboardInterrupt
| OtherException           (* anything else [requests.get] raises *)
| Response (status_code : Z) (page : website).

(** What the scan did to the outside. *)
Inductive event : Set :=
| Get (product_id : Z)     (* requests.get(TARGETURL.format(product_id)) *)
| Sleep (seconds : Z).     (* time.sleep(seconds) *)

(** An exception that leaves [parse]. *)
Inductive failure : Set :=
| RequestFailed
| Uncaught (e : exn).

Section Parse.
Context {B : Builtins} {W : Whitespace}.

(** [s.split()]: the pieces between runs of white space. *)
Fixpoint split_aux (cur : str) (s : str) : list str :=
  match s with
  | [] => match cur with [] => [] | _ => [rev cur] end
  | c :: s' =>
      if isspace_cp c then
        match cur with
        | [] => split_aux [] s'
        | _ => rev cur :: split_aux [] s'
        end
      else split_aux (c :: cur) s'
  end.

Definition split (s : str) : list str := split_aux [] s.

(** [tag.string] for the result of [find]: [None] has no such
    attribute. *)
Definition string_of (tag : option (option str)) : outcome (option str) :=
  match tag with
  | Some string => Returned string
  | None => Raised AttributeError
  end.

(** [raw.strip()], where [raw] may be [None] *)
Definition strip_of (raw : option str) : outcome str :=
  match raw with
  | Some s => Returned (strip s)
  | None => Raised AttributeError
  end.

Definition parse_cpu (website : website) (product_id : Z)
  : outcome (option DatabaseScripts.CPU.t) :=
  match ProcessorNumber website with
  | None => Returned None
  | Some raw =>
      model ← strip_of raw;
      let model := casefold model in
      raw ← string_of (CoreCount website);
      corecount ← match raw with
                  | Some raw => int_of_str raw
                  | None => Raised TypeError
                  end;
      raw ← string_of (ClockSpeed website);
      raw ← strip_of raw;
      let raw := split raw in
      raw0 ← Scripts.item raw 0;
      value ← float_of_str raw0;
      unit ← Scripts.item raw 1;
      let corespeed :=
        DatabaseScripts.human_readable_to_hertz (PyFloat value) unit in
      cpu ← DatabaseScripts.CPU.__init__ model product_id (py "intel")
              (PyInt corecount) corespeed;
      Returned (Some cpu)
  end.

Variable requests_get : list event -> Z -> response.

(** The loop of [parse] over the product IDs still to come; [old_cpus]
    is the list of known product IDs, [events] what happened so far. *)
Fixpoint scan (old_cpus : list Z) (product_ids : list Z)
    (cpus : list DatabaseScripts.CPU.t) (events : list event)
  : (failure + list DatabaseScripts.CPU.t) * list event :=
  match product_ids with
  | [] => (inr cpus, events)
  | product_id :: rest =>
      if bool_decide (product_id ∈ old_cpus) then
        scan old_cpus rest cpus events
      else
        match requests_get events product_id with
        | Timeout | ConnectionError =>
            scan old_cpus rest cpus (events ++ [Get product_id])
        | KeyboardInterrupt => (inr cpus, events ++ [Get product_id])
        | OtherException => (inl RequestFailed, events ++ [Get product_id])
        | Response status_code website =>
            let events := events ++ [Get product_id] in
            if (status_code =? 404)%Z then scan old_cpus rest cpus events
            else
              let events :=
                if (status_code =? 200)%Z then events
                else events ++ [Sleep RATE_LIMIT_DELAY] in
              match title website with
              | None => scan old_cpus rest cpus events
              | Some title =>
                  if negb (contains (py "Processor") title)
                  then scan old_cpus rest cpus events
                  else
                    match parse_cpu website product_id with
                    | Raised e => (inl (Uncaught e), events)
                    | Returned None => scan old_cpus rest cpus events
                    | Returned (Some cpu) =>
                        scan old_cpus rest (cpus ++ [cpu]) events
                    end
              end
        end
  end.

Definition parse (old_cpus : list DatabaseScripts.CPU.t)
  : (failure + list DatabaseScripts.CPU.t) * list event :=
  let old_cpus := map DatabaseScripts.CPU.product_id old_cpus in
  scan old_cpus (seqZ STARTID (ENDID + 1 - STARTID)) [] [].
End Parse.
End IntelArk.

(** ** [database-scripts/dogelog.py]

    The module keeps its settings, the open log file and the active
    progress bar in globals and writes to the two standard streams; all
    of that is the [world] below.  A [Progress] object is reached through
    references (the global [progress] and the caller's variable), so the
    objects live in a store and are named by their position in it.  The
    clock is a parameter: [now n] is what [get_formatted_datetime]
    returns when it is called for the [n]-th time. *)

Module Dogelog.

(** [COLOR_START.format(r, g, b)], for the colour components the module
    formats at import: numbers below 256. *)
Definition COLOR_START (r g b : Z) : str :=
  [27%N] ++ py "[38;2;" ++ decimal_of_int r ++ py ";" ++ decimal_of_int g
  ++ py ";" ++ decimal_of_int b ++ py "m".
Definition RESET : str := [27%N] ++ py "[0m".

(** [getrgb] of PIL turns "#rrggbb" into the three numbers. *)
Definition CYAN : str := COLOR_START 0 255 255.      (* "#00ffff" *)
Definition VIOLET : str := COLOR_START 95 0 255.     (* "#5f00ff" *)
Definition ORANGE : str := COLOR_START 255 75 0.     (* "#ff4b00" *)

Inductive Mode : Set := NONE | NORMAL | EXTENSIVE.
Inductive Level : Set := DEBUG | INFO | ERROR.

(** [level.value] *)
Definition value (level : Level) : Z :=
  match level with
  | DEBUG => 1
  | INFO => 2
  | ERROR => 3
  end.

(** The fields of a [Progress] object. *)
Record Progress : Set := mk_progress {
  message : str;
  end_ : Z;
  current : Z;
  last_print_len : nat
}.

Record world : Set := mk_world {
  mode : Mode;
  filterlevel : Level;
  (** what was written to the open log file; [None] when there is none *)
  logfile : option str;
  (** the global [progress]: the place of the active bar in [objects] *)
  progress : option nat;
  objects : list Progress;
  stdout : str;
  stderr : str;
  (** how often the clock was read *)
  ticks : nat
}.

(** The module as it is after import. *)
Definition initial : world := mk_world NORMAL INFO None None [] [] [] 0.

(** An exception that leaves a function of the module. *)
Inductive failure : Set :=
| ZeroDivisionError
| Other (e : exn).

Definition set_settings (mode : Mode) (filterlevel : Level) (w : world)
  : world :=
  mk_world mode filterlevel (logfile w) (progress w) (objects w) (stdout w)
    (stderr w) (ticks w).

Definition set_logfile (logfile : option str) (w : world) : world :=
  mk_world (mode w) (filterlevel w) logfile (progress w) (objects w)
    (stdout w) (stderr w) (ticks w).

Definition set_progress (progress : option nat) (w : world) : world :=
  mk_world (mode w) (filterlevel w) (logfile w) progress (objects w)
    (stdout w) (stderr w) (ticks w).

Definition set_objects (objects : list Progress) (w : world) : world :=
  mk_world (mode w) (filterlevel w) (logfile w) (progress w) objects
    (stdout w) (stderr w) (ticks w).

(** [sys.stdout.write(text)] *)
Definition write_stdout (text : str) (w : world) : world :=
  mk_world (mode w) (filterlevel w) (logfile w) (progress w) (objects w)
    (stdout w ++ text) (stderr w) (ticks w).

Definition write_stderr (text : str) (w : world) : world :=
  mk_world (mode w) (filterlevel w) (logfile w) (progress w) (objects w)
    (stdout w) (stderr w ++ text) (ticks w).

(** [logfile.write(text)]; only called with a log file open. *)
Definition write_logfile (text : str) (w : world) : world :=
  set_logfile (Some (default [] (logfile w) ++ text)) w.

(** The object a reference stands for; every reference handed out by
    [Progress] is in the store. *)
Definition deref (self : nat) (w : world) : Progress :=
  default (mk_progress [] 0 0 0) (objects w !! self).

(** Assignment to the fields of [self]. *)
Definition assign (self : nat) (p : Progress) (w : world) : world :=
  set_objects (<[self := p]> (objects w)) w.

(** [a / b] on two [int]s: the quotient rounded to the nearest
    binary64 value. *)
Definition int_as_spec_float (z : Z) : spec_float :=
  match z with
  | Z0 => S754_zero false
  | Zpos p => S754_finite false p 0
  | Zneg p => S754_finite true p 0
  end.

Definition true_divide (a b : Z) : failure + float :=
  if (b =? 0)%Z then inl ZeroDivisionError
  else match SFdiv prec emax (int_as_spec_float a) (int_as_spec_float b) with
       | S754_infinity _ => inl (Other OverflowError)
       | quotient => inr (SF2Prim quotient)
       end.

(** [int(x)] for a [float]: towards zero. *)
Definition int_of_float (x : float) : failure + Z :=
  match Prim2SF x with
  | S754_zero _ => inr 0%Z
  | S754_finite s m e =>
      let magnitude :=
        match e with
        | Zneg k => Z.shiftr (Zpos m) (Zpos k)
        | _ => Z.shiftl (Zpos m) e
        end in
      inr (if s then - magnitude else magnitude)%Z
  | S754_infinity _ => inl (Other OverflowError)
  | S754_nan => inl (Other ValueError)
  end.

(** [_map_range] as [_redraw] calls it: all five arguments are [int]s. *)
Definition _map_range (value instart instop outstart outstop : Z)
  : failure + float :=
  match true_divide (value - instart) (instop - instart) with
  | inl e => inl e
  | inr quotient =>
      inr (float_lit outstart + float_lit (outstop - outstart) * quotient)%float
  end.

(** [char * count], empty for a negative count *)
Definition times_char (char : codepoint) (count : Z) : str :=
  repeat char (Z.to_nat count).
Arguments times_char char%_N count%_Z.

(** [s.rjust(width)] *)
Definition rjust (s : str) (width : nat) : str :=
  repeat 32%N (width - length s) ++ s.

(** The bar of [_redraw] for a progress below its end. *)
Definition partial_bar (current end_ : Z) : failure + str :=
  match _map_range current 0 end_ 0 23 with
  | inl e => inl e
  | inr x =>
      match int_of_float x with
      | inl e => inl e
      | inr filled_count =>
          let empty_count := (23 - filled_count)%Z in
          inr (py "[" ++ times_char 47 filled_count
               ++ times_char 8212 empty_count ++ py "]")
      end
  end.

(** The fraction of [_redraw]: [str(self.current)], right-justified to
    the width of [str(self.end)], a slash and [self.end]. *)
Definition fraction_text (current end_ : Z) : outcome str :=
  current_text ← str_of_int current;
  end_text ← str_of_int end_;
  let current_text := rjust current_text (length end_text) in
  Returned (current_text ++ py "/" ++ end_text).

(** ["\n".join(parts)] *)
Fixpoint join_lines (parts : list str) : str :=
  match parts with
  | [] => []
  | [part] => part
  | part :: parts' => part ++ [10%N] ++ join_lines parts'
  end.

Section Clock.
Variable now : nat -> str.

Definition get_formatted_datetime (w : world) : str * world :=
  (now (ticks w),
   mk_world (mode w) (filterlevel w) (logfile w) (progress w) (objects w)
     (stdout w) (stderr w) (S (ticks w))).

Definition format_level (level : Level) (w : world) : str * world :=
  match mode w with
  | NONE =>
      (match level with
       | DEBUG => py "//"
       | INFO => py "::"
       | ERROR => py "##"
       end, w)
  | NORMAL =>
      (match level with
       | DEBUG => VIOLET ++ py "//" ++ RESET
       | INFO => CYAN ++ py "::" ++ RESET
       | ERROR => ORANGE ++ py "##" ++ RESET
       end, w)
  | EXTENSIVE =>
      let '(now, w) := get_formatted_datetime w in
      (match level with
       | DEBUG => py "[" ++ now ++ py "] [DEBUG //]"
       | INFO => py "[" ++ now ++ py "] [INFO  ::]"
       | ERROR => py "[" ++ now ++ py "] [ERROR ##]"
       end, w)
  end.

Definition close_if_needed (w : world) : world :=
  match logfile w with
  | Some _ => set_logfile None w
  | None => w
  end.

Definition init (w : world) : world :=
  set_settings NORMAL INFO (close_if_needed w).

Definition init_debug (w : world) : world :=
  set_settings NORMAL DEBUG (close_if_needed w).

Definition init_colorless (w : world) : world :=
  set_settings NONE INFO (close_if_needed w).

(** [init_file]; the file is opened for appending, which is taken to
    succeed. *)
Definition init_file (w : world) : world :=
  let w := close_if_needed w in
  let w := set_settings EXTENSIVE DEBUG w in
  let w := set_logfile (Some []) w in
  let '(now, w) := get_formatted_datetime w in
  write_logfile (py "   >>> NEW LOG BEGINS AT " ++ now ++ py " <<<" ++ [10%N])
    w.

Definition _delete_on_stdout (self : nat) (w : world) : world :=
  let n := last_print_len (deref self w) in
  if (n =? 0) || bool_decide (logfile w <> None) then w
  else
    let w := write_stdout (repeat 8%N n) w in
    let w := write_stdout (repeat 32%N n) w in
    write_stdout (repeat 8%N n) w.

(** The functions below that can raise return the exception, if any,
    together with the world as it is then. *)
Definition _redraw (self : nat) (w : world) : option failure * world :=
  let w := _delete_on_stdout self w in
  let '(prefix, w) := format_level INFO w in
  let p := deref self w in
  match fraction_text (current p) (end_ p) with
  | Raised e => (Some (Other e), w)
  | Returned fraction =>
      let bar : failure + str :=
        if (end_ p <=? current p)%Z then
          inr (py "[" ++ times_char 47 23 ++ py "]")
        else partial_bar (current p) (end_ p) in
      match bar with
      | inl e => (Some e, w)
      | inr bar =>
          match logfile w with
          | Some _ =>
              let status :=
                prefix ++ py " " ++ message p ++ py " " ++ fraction in
              (None, write_logfile (status ++ [10%N]) w)
          | None =>
              let status :=
                prefix ++ py " " ++ message p ++ py " " ++ fraction ++ py " "
                ++ bar in
              let w := write_stdout status w in
              (None,
               assign self
                 (mk_progress (message p) (end_ p) (current p)
                    (length status)) w)
          end
      end
  end.

Definition log (message : str) (level : Level) (w : world)
  : option failure * world :=
  if (value level <? value (filterlevel w))%Z then (None, w)
  else
    let '(formatted_info, w) := format_level level w in
    let splitted_message := split_char 10 message in
    let indent :=
      match mode w with
      | NORMAL => 2
      | _ => length formatted_info
      end in
    let indent := repeat 32%N indent in
    let logentry :=
      (formatted_info ++ py " " ++ hd [] splitted_message)
      :: map (fun part => indent ++ py " " ++ part) (tl splitted_message) in
    let logentry := join_lines logentry in
    match logfile w with
    | None =>
        match progress w with
        | None =>
            match level with
            | ERROR => (None, write_stderr (logentry ++ [10%N]) w)
            | _ => (None, write_stdout (logentry ++ [10%N]) w)
            end
        | Some self =>
            let w := _delete_on_stdout self w in
            let p := deref self w in
            let w :=
              assign self
                (mk_progress (Dogelog.message p) (end_ p) (current p) 0) w in
            let w := write_stdout (logentry ++ [10%N]) w in
            _redraw self w
        end
    | Some _ => (None, write_logfile (logentry ++ [10%N]) w)
    end.

Definition debug (message : str) (w : world) : option failure * world :=
  log message DEBUG w.

Definition info (message : str) (w : world) : option failure * world :=
  log message INFO w.

Definition error (message : str) (w : world) : option failure * world :=
  log message ERROR w.

(** [Progress(message, end)]: the reference to the new object and the
    world with it. *)
Definition Progress__init__ (message : str) (end_ : Z) (w : world)
  : nat * world :=
  let self := length (objects w) in
  let w := set_objects (objects w ++ [mk_progress message end_ 0 0]) w in
  (self, set_progress (Some self) w).

Definition stack (self : nat) (w : world) : option failure * world :=
  let p := deref self w in
  let w :=
    assign self
      (mk_progress (message p) (end_ p) (current p + 1) (last_print_len p))
      w in
  _redraw self w.

Definition increase (self : nat) (amount : Z) (w : world)
  : option failure * world :=
  let p := deref self w in
  let w :=
    assign self
      (mk_progress (message p) (end_ p) (current p + amount)
         (last_print_len p)) w in
  _redraw self w.

Definition is_done (self : nat) (w : world) : bool :=
  (end_ (deref self w) <=? current (deref self w))%Z.

Definition finish (self : nat) (w : world) : world :=
  let w := set_progress None w in
  match logfile w with
  | None =>
      let w := write_stdout [10%N] w in
      let p := deref self w in
      assign self (mk_progress (message p) (end_ p) (current p) 0) w
  | Some _ => w
  end.
End Clock.
End Dogelog.

(** * Definitions used in the statements *)

Import Difflib.

(** ** Units and scores *)

(** The unit vocabulary, each spelling with its factor. *)
Definition byte_units : list (str * Z) :=
  [(py "b", 1); (py "kb", 1024); (py "kib", 1024);
   (py "mb", 1024 ^ 2); (py "mib", 1024 ^ 2);
   (py "gb", 1024 ^ 3); (py "gib", 1024 ^ 3);
   (py "tb", 1024 ^ 4); (py "tib", 1024 ^ 4)]%Z.

Definition hertz_units : list (str * Z) :=
  [(py "khz", 10 ^ 3); (py "mhz", 10 ^ 6);
   (py "ghz", 10 ^ 9); (py "thz", 10 ^ 12)]%Z.

(** The score formulas as the specification writes them, on the float
    values of the specs. *)
Definition spec_cpu_score (corecount corespeed : float) : float :=
  (((corecount / 8.0) + (corespeed / 5.30e9)) * 100.0 / 2.0)%float.

Definition spec_gpu_score (vram corespeed : float) : float :=
  (((vram / float_lit (10 * 1024 ^ 3)) + (corespeed / 1.440e9))
   * 100.0 / 2.0)%float.

(** A converter, at a fixed unit, acts on integers as multiplication by a
    positive constant: its value at 1. *)
Definition linear_in_value (f : number -> number) : Prop :=
  exists k : Z,
    (0 < k)%Z /\
    f (PyInt 1) = PyInt k /\
    (forall v : Z, f (PyInt v) = PyInt (v * k)) /\
    f (PyInt 0) = PyInt 0 /\
    (forall v w r s : Z,
        (v <= w)%Z -> f (PyInt v) = PyInt r -> f (PyInt w) = PyInt s ->
        (r <= s)%Z).

(** ** Common substrings *)

Section CommonSubstrings.
Context {E : Type} `{EqDecision E}.

(** [w] occurs in [s] as a contiguous block. *)
Definition substring (w s : list E) : Prop := exists p q, s = p ++ w ++ q.

Definition common_substring (w a b : list E) : Prop :=
  substring w a /\ substring w b.

(** [n] is the length of a longest common substring of [a] and [b]. *)
Definition longest_common_length (a b : list E) (n : nat) : Prop :=
  (exists w, length w = n /\ common_substring w a b) /\
  (forall w, common_substring w a b -> length w <= n).

Fixpoint common_prefix_length (a b : list E) : nat :=
  match a, b with
  | x :: a', y :: b' =>
      if decide (x = y) then S (common_prefix_length a' b') else 0
  | _, _ => 0
  end.

Fixpoint tails (l : list E) : list (list E) :=
  match l with
  | [] => [[]]
  | _ :: l' => l :: tails l'
  end.

(** The length of a longest common substring, computed naively: the
    longest common prefix over all pairs of suffixes. *)
Definition lcs_length (a b : list E) : nat :=
  max_list (ta ← tails a; tb ← tails b; [common_prefix_length ta tb]).

(** [a[i : i + k]] and [b[j : j + k]] exist and are equal: what a
    [Match(i, j, k)] asserts. *)
Definition matched (a b : list E) (i j k : nat) : Prop :=
  forall t, t < k -> exists x, a !! (i + t) = Some x /\ b !! (j + t) = Some x.

End CommonSubstrings.

(** ** Quantities of the matcher's row loop *)

Section Run.
Context {E : Type} `{Countable E}.
Variables (a b : list E) (b2j : gmap E (list nat)).

(** Length of the longest block of equal, indexed elements that ends at
    [a[i]] and [b[j]]. *)
Fixpoint run (i j : nat) {struct i} : nat :=
  match a !! i, b !! j with
  | Some x, Some y =>
      if decide (x = y /\ is_Some (b2j !! x)) then
        S (match i, j with
           | S i', S j' => run i' j'
           | _, _ => 0
           end)
      else 0
  | _, _ => 0
  end.

(** The run ending one step earlier on both sides. *)
Definition prev (i j : nat) : nat :=
  match i, j with
  | S i', S j' => run i' j'
  | _, _ => 0
  end.

(** What the row loop has established after [n] rows. *)
Definition rows_inv (n : nat) (st : gmap Z nat * best) : Prop :=
  (forall z : Z,
      default 0 (st.1 !! z) =
      if decide (z < 0)%Z then 0
      else match n with
           | 0 => 0
           | S n' => run n' (Z.to_nat z)
           end) /\
  (forall i j, i < n -> run i j <= st.2.2) /\
  (st.2 = (0, 0, 0) \/
   exists i j, 0 < run i j /\
               st.2 = (i + 1 - run i j, j + 1 - run i j, run i j)).
End Run.

(** [j2len.get(j - 1, 0)] *)
Definition prev_len (j2len : gmap Z nat) (j : nat) : nat :=
  default 0 (j2len !! (Z.of_nat j - 1)%Z).

Section MatcherSpec.
Context {E : Type} `{Countable E}.
Implicit Types a b : list E.

(** An index lists, for each element it knows, exactly the positions of
    that element in [b]; it is complete when it knows every element. *)
Definition b2j_sound b (b2j : gmap E (list nat)) : Prop :=
  forall x js, b2j !! x = Some js -> forall j, j ∈ js <-> b !! j = Some x.

Definition b2j_complete b (b2j : gmap E (list nat)) : Prop :=
  forall x, x ∈ b -> is_Some (b2j !! x).

(** The matcher [_find_by_model] holds while it looks at the key [a]. *)
Definition matcher_for (b a : list E) : SequenceMatcher E :=
  set_seq1 (SequenceMatcher_init [] b true) a.
End MatcherSpec.

(** The score [_find_by_model] gives a key: the size of the match
    [find_longest_match] reports for it. *)
Definition match_size (unexact_model model : str) : nat :=
  size (find_longest_match (matcher_for unexact_model model)).

(** The loop of [_find_by_model] without the matcher object. *)
Definition track (f : str -> nat) (st : nat * option str) (model : str)
  : nat * option str :=
  if st.1 <? f model then (f model, Some model) else st.

(** The choice of key as the specification states it: the result is the
    record stored under the first key among those whose longest common
    substring with the query is longest. *)
Definition returns_first_longest {R : Type} (database : PyDict.dict str R)
    (unexact_model : str) (result : outcome (option R)) : Prop :=
  exists pre k post r,
    PyDict.keys database = pre ++ k :: post /\
    (forall k', k' ∈ pre ->
        lcs_length k' unexact_model < lcs_length k unexact_model) /\
    (forall k', k' ∈ post ->
        lcs_length k' unexact_model <= lcs_length k unexact_model) /\
    PyDict.get database k = Some r /\
    result = Returned (Some r).

(** A query of 200 characters: "ab" a hundred times. *)
Definition query200 : str := concat (replicate 100 (py "ab")).

(** ** RAM extraction, in the words of the specification *)




Section SpecExtract.
Context {B : Builtins}.



End SpecExtract.

(** ** Order of model names *)

(** [s < t] and [s <= t] on strings. *)
Definition str_lt (s t : str) : Prop := str_ltb s t = true.
Definition str_le (s t : str) : Prop := str_ltb t s = false.

(** ** Records rebuilt from a file *)

Section Reload.
Import DatabaseScripts.






End Reload.

(** Two CPUs and a GPU whose stored scores are stale. *)
Definition stale_cpus : list DatabaseScripts.CPU.t :=
  [DatabaseScripts.CPU.mk (py "i5-750") 42915 (py "intel")
     (PyInt 4) (PyFloat 2660000000) 0%float;
   DatabaseScripts.CPU.mk (py "i5-650") 43546 (py "intel")
     (PyInt 2) (PyInt 3200000000) 1%float].

Definition stale_gpus : list DatabaseScripts.GPU.t :=
  [DatabaseScripts.GPU.mk (py "geforce gtx 760") (py "nvidia")
     (PyInt (2 * 1024 ^ 3)) (PyFloat 980000000) (py "gk104") 7%float].

(** Two entries of the downloaded database, in the order of the file. *)
Definition ark_source : PyDict.dict str Scripts.ark_specs :=
  [(py "42915",
    Scripts.mk_ark (Some (Some (py "i5-750")))
      (Some (Scripts.mk_perf (Some (py "4")) (Some (py "2.66 GHz")))));
   (py "43546",
    Scripts.mk_ark (Some (Some (py "i5-650")))
      (Some (Scripts.mk_perf (Some (py "2")) (Some (py "3.20 GHz")))))].

(** ** Definitions used in the further properties *)

(** The entry [save_cpus] writes for a record. *)
Definition cpu_entry (cpu : DatabaseScripts.CPU.t) : DatabaseScripts.cpu_specs :=
  DatabaseScripts.mk_cpu_specs
    (DatabaseScripts.CPU.product_id cpu) (DatabaseScripts.CPU.vendor cpu)
    (DatabaseScripts.CPU.corecount cpu) (DatabaseScripts.CPU.corespeed cpu)
    (DatabaseScripts.CPU.score cpu).

Definition gpu_entry (gpu : DatabaseScripts.GPU.t) : DatabaseScripts.gpu_specs :=
  DatabaseScripts.mk_gpu_specs
    (DatabaseScripts.GPU.vendor gpu) (DatabaseScripts.GPU.vram gpu)
    (DatabaseScripts.GPU.corespeed gpu) (DatabaseScripts.GPU.codename gpu)
    (DatabaseScripts.GPU.score gpu).

(** The last record of a list that carries the model name [m]. *)
Definition last_named {A} (model : A -> str) (m : str) (l : list A) : option A :=
  last (filter (fun x => model x = m) l).

(** An entry with its score computed from its specs. *)
Definition fresh_cpu_entry (e e' : DatabaseScripts.cpu_specs) : Prop :=
  exists fc fs,
    to_float (DatabaseScripts.cs_corecount e) = Returned fc /\
    to_float (DatabaseScripts.cs_corespeed e) = Returned fs /\
    e' = DatabaseScripts.mk_cpu_specs
           (DatabaseScripts.cs_product_id e) (DatabaseScripts.cs_vendor e)
           (DatabaseScripts.cs_corecount e) (DatabaseScripts.cs_corespeed e)
           (spec_cpu_score fc fs).

Definition fresh_gpu_entry (e e' : DatabaseScripts.gpu_specs) : Prop :=
  exists fv fs,
    to_float (DatabaseScripts.gs_vram e) = Returned fv /\
    to_float (DatabaseScripts.gs_corespeed e) = Returned fs /\
    e' = DatabaseScripts.mk_gpu_specs
           (DatabaseScripts.gs_vendor e) (DatabaseScripts.gs_vram e)
           (DatabaseScripts.gs_corespeed e) (DatabaseScripts.gs_codename e)
           (spec_gpu_score fv fs).

(** The keys of a database file that may be missing. *)
Definition known_models {V} (file : option (PyDict.dict str V)) : list str :=
  match file with
  | Some d => PyDict.keys d
  | None => []
  end.

(** The entry stored under [m] in a database file that may be missing. *)
Definition stored {V} (file : option (PyDict.dict str V)) (m : str) : option V :=
  match file with
  | Some d => PyDict.get d m
  | None => None
  end.

Section ConvertSpec.
Context {B : Builtins}.
Import DatabaseScripts Scripts.

(** What [convert] reads from an entry that has everything it looks for:
    the key is an integer, there is a processor number, the core count is
    an integer and the base frequency is a decimal number, a space and a
    unit. *)
Definition parsed_entry (entry : str * ark_specs)
    (product_id : Z) (model : str) (corecount : Z) (value : float)
    (unit : str) : Prop :=
  int_of_str entry.1 = Returned product_id /\
  essentials entry.2 = Some (Some model) /\
  exists perf cores freq raw0 rest,
    performance entry.2 = Some perf /\
    number_of_cores perf = Some cores /\
    int_of_str cores = Returned corecount /\
    processor_base_frequency perf = Some freq /\
    split_space freq = raw0 :: unit :: rest /\
    float_of_str raw0 = Returned value.

(** [cpu] is the record the constructor builds from such an entry. *)
Definition converted (entry : str * ark_specs) (cpu : CPU.t) : Prop :=
  exists product_id model corecount value unit,
    parsed_entry entry product_id model corecount value unit /\
    CPU.__init__ model product_id (py "intel") (PyInt corecount)
      (human_readable_to_hertz (PyFloat value) unit) = Returned cpu.
End ConvertSpec.

(** [c] does not occur in [s]. *)
Definition free_of (c : codepoint) (s : str) : Prop := c ∉ s.
Arguments free_of c%_N s.

(** The line of the [lspci] output names a graphics card. *)
Definition vga_line (line : str) : Prop :=
  contains (py "VGA compatible controller") line = true.

#[global] Instance vga_line_dec line : Decision (vga_line line).
Proof. unfold vga_line. apply _. Defined.

(** What the loop of [_user_gpu_by_platform] makes of one such line. *)
Definition lspci_model (line : str) : str :=
  let raw_model := List.last (split_char 58 line) [] in
  ComphardwareUser.scan_model raw_model 0 [] raw_model.

Section FirstNumber.
Context {B : Builtins}.

(** The text from its first digit on (empty when it has none). *)
Fixpoint skip_non_digits (s : str) : str :=
  match s with
  | [] => []
  | c :: s' => if isdigit_cp c then s else skip_non_digits s'
  end.

(** The digits a text begins with. *)
Fixpoint leading_digits (s : str) : str :=
  match s with
  | [] => []
  | c :: s' => if isdigit_cp c then c :: leading_digits s' else []
  end.

(** The first run of digits of a text. *)
Definition first_number (s : str) : str := leading_digits (skip_non_digits s).
End FirstNumber.

(** A cell that holds a string. *)
Definition is_text (raw : WikiGpuTables.cell) : Prop :=
  match raw with
  | WikiGpuTables.Text _ => True
  | WikiGpuTables.Other _ => False
  end.

(** A database file with two CPUs, and a scraper result that names one
    of them again, with other specs, and a CPU that is new. *)
Definition known_cpus : DatabaseScripts.cpu_file :=
  DatabaseScripts.save_cpus stale_cpus.

Definition scraped_cpus : list DatabaseScripts.CPU.t :=
  [DatabaseScripts.CPU.mk (py "i5-750") 1 (py "amd")
     (PyInt 64) (PyInt 1) 0%float;
   DatabaseScripts.CPU.mk (py "i3-530") 46472 (py "intel")
     (PyInt 2) (PyFloat 2930000000) 5%float].

Definition known_gpus : DatabaseScripts.gpu_file :=
  DatabaseScripts.save_gpus stale_gpus.

(** The scraper finds one new card on the first page and nothing on the
    others. *)
Definition scraped_gpus (url : str) (old_gpus : list DatabaseScripts.GPU.t)
    (vendor : str) : outcome (list DatabaseScripts.GPU.t) :=
  if bool_decide (vendor = py "nvidia") then
    Returned [DatabaseScripts.GPU.mk (py "geforce gt 650m") vendor
                (PyFloat 1073741824) (PyFloat 835000000) (py "gk107") 0%float]
  else Returned [].

(** A line of [lspci] as quoted in [_user_gpu_by_platform], cut at its
    last colon and at the brackets. *)
Definition lspci_before : str := py "01:00.0 VGA compatible controller".
Definition lspci_pre : str := py " NVIDIA Corporation GF119M ".
Definition lspci_name : str := py "NVS 4200M".
Definition lspci_post : str := py " (rev a1)".

(** A Linux machine with two graphics cards and no OpenGL window, and a
    Windows machine; on a third platform nothing can be asked. *)
Definition linux_machine : ComphardwareUser.machine :=
  ComphardwareUser.mk_machine
    (Some (py "Intel(R) Core(TM) i5-750 CPU @ 2.67GHz")) None (py "Linux")
    (Some (py "00:02.0 VGA compatible controller: Intel Corporation HD Graphics 620 (rev 02)"
           ++ [10%N]
           ++ py "00:1f.3 Audio device: Intel Corporation Sunrise Point-LP HD Audio (rev 21)"
           ++ [10%N]
           ++ lspci_before ++ [58%N] ++ lspci_pre ++ [91%N] ++ lspci_name
           ++ [93%N] ++ lspci_post ++ [10%N]))
    None 8589934592.

Definition windows_machine : ComphardwareUser.machine :=
  ComphardwareUser.mk_machine
    (Some (py "Intel(R) Core(TM) i5-750 CPU @ 2.67GHz")) None (py "Windows")
    None
    (Some (py "Name                    " ++ [13%N; 10%N]
           ++ py "NVIDIA GeForce GTX 470  " ++ [13%N; 10%N]))
    17179869184.

Definition other_machine : ComphardwareUser.machine :=
  ComphardwareUser.mk_machine None None (py "Darwin") None None 0.

(** A GPU database whose records are numbers. *)
Definition two_gpus : PyDict.dict str nat :=
  [(py "geforce gtx 470", 1); (py "nvs 4200m", 2)].

(** The product IDs asked for, in the order of the requests. *)
Definition requested (events : list IntelArk.event) : list Z :=
  omap (fun ev => match ev with
                  | IntelArk.Get product_id => Some product_id
                  | IntelArk.Sleep _ => None
                  end) events.

(** The product IDs of the range that are not known yet, ascending. *)
Definition unknown_ids (old_cpus : list DatabaseScripts.CPU.t) : list Z :=
  filter (fun product_id =>
            product_id ∉ map DatabaseScripts.CPU.product_id old_cpus)
    (seqZ IntelArk.STARTID (IntelArk.ENDID + 1 - IntelArk.STARTID)).

Section Answered.
Context {B : Builtins} {W : Whitespace}.
Import IntelArk.

(** The page is read as the page of a processor: its title holds
    "Processor". *)
Definition processor_page (website : website) : bool :=
  match title website with
  | Some title => contains (py "Processor") title
  | None => false
  end.

(** What the scan does after the request for [product_id] was answered
    by [r].  It sleeps once after a status other than 200 and 404; *)
Definition sleeps (r : response) : list event :=
  match r with
  | Response status_code _ =>
      if (status_code =? 404)%Z || (status_code =? 200)%Z then []
      else [Sleep RATE_LIMIT_DELAY]
  | _ => []
  end.

(** it takes the record [parse_cpu] reads from a processor page; *)
Definition taken (r : response) (product_id : Z)
  : list DatabaseScripts.CPU.t :=
  match r with
  | Response status_code website =>
      if (status_code =? 404)%Z then []
      else if processor_page website then
        match parse_cpu website product_id with
        | Returned (Some cpu) => [cpu]
        | _ => []
        end
      else []
  | _ => []
  end.

(** and it ends, normally ([Some None]) at a keyboard interrupt, with an
    exception at any other failure of the request and at a failure of
    [parse_cpu]; [None]: the scan goes on. *)
Definition ends (r : response) (product_id : Z) : option (option failure) :=
  match r with
  | KeyboardInterrupt => Some None
  | OtherException => Some (Some RequestFailed)
  | Response status_code website =>
      if (status_code =? 404)%Z then None
      else if processor_page website then
        match parse_cpu website product_id with
        | Raised e => Some (Some (Uncaught e))
        | Returned _ => None
        end
      else None
  | _ => None
  end.

Variable requests_get : list event -> Z -> response.

(** The records taken from the answers to the requests among [events],
    which follow [history]. *)
Fixpoint gathered (history events : list event)
  : list DatabaseScripts.CPU.t :=
  match events with
  | [] => []
  | Get product_id :: events' =>
      taken (requests_get history product_id) product_id
      ++ gathered (history ++ [Get product_id]) events'
  | Sleep seconds :: events' => gathered (history ++ [Sleep seconds]) events'
  end.

(** The scan goes on with the unknown IDs [todo], holding [cpus]: it asks
    for the first of them, or, when none is left, returns [cpus] without
    doing anything more. *)
Definition goes_on (todo : list Z) (cpus : list DatabaseScripts.CPU.t)
    (res : failure + list DatabaseScripts.CPU.t) (after : list event)
  : Prop :=
  match todo with
  | [] => after = [] /\ res = inr cpus
  | product_id :: _ => head after = Some (Get product_id)
  end.

(** How the scan, holding [cpus] and with the unknown IDs [todo] still
    to come, goes on after the request for [product_id] was answered by
    [r]: [res] is the result of the whole scan, [after] what it did
    after the request. *)
Definition answered (r : response) (product_id : Z)
    (cpus : list DatabaseScripts.CPU.t) (todo : list Z)
    (res : failure + list DatabaseScripts.CPU.t) (after : list event)
  : Prop :=
  match ends r product_id with
  | Some None => after = sleeps r /\ res = inr cpus
  | Some (Some e) => after = sleeps r /\ res = inl e
  | None =>
      exists after',
        after = sleeps r ++ after' /\
        goes_on todo (cpus ++ taken r product_id) res after'
  end.
End Answered.

(** A server that limits the rate and sends a processor page without
    core count. *)
Definition ark_page : IntelArk.website :=
  IntelArk.mk_website (Some (py "Intel Core i5-750 Processor"))
    (Some (Some (py " i5-750 "))) None (Some (Some (py "2.66 GHz"))).

Definition ark_server (events : list IntelArk.event) (product_id : Z)
  : IntelArk.response :=
  IntelArk.Response 429 ark_page.

Section LogEntry.
Variable now : nat -> str.

(** The text [log] prints for a message on a terminal with no progress
    bar, in the given mode and with the clock read [ticks] times before:
    the log entry with its final line feed. *)
Definition entry_of (mode : Dogelog.Mode) (ticks : nat)
    (level : Dogelog.Level) (message : str) : str :=
  let w :=
    (Dogelog.log now message level
       (Dogelog.mk_world mode Dogelog.DEBUG None None [] [] [] ticks)).2 in
  Dogelog.stdout w ++ Dogelog.stderr w.

(** The prefix of the first line of an entry. *)
Definition info_of (mode : Dogelog.Mode) (ticks : nat)
    (level : Dogelog.Level) : str :=
  (Dogelog.format_level now level
     (Dogelog.mk_world mode Dogelog.DEBUG None None [] [] [] ticks)).1.
End LogEntry.

(** The characters that wipe [n] characters off the terminal line. *)
Definition wipe (n : nat) : str := repeat 8%N n ++ repeat 32%N n ++ repeat 8%N n.

(** The width on the terminal of the prefix of an entry: the colour codes
    of the normal mode take no room. *)
Definition visible_width (mode : Dogelog.Mode) (formatted_info : str) : nat :=
  match mode with
  | Dogelog.NORMAL => 2
  | _ => length formatted_info
  end.

(** The lines of an entry without what [log] put in front of them. *)
Definition unindent (first rest : nat) (lines : list str) : list str :=
  match lines with
  | [] => []
  | line :: lines' => drop first line :: map (drop rest) lines'
  end.

(** A reference that the store holds. *)
Definition valid (self : nat) (w : Dogelog.world) : Prop :=
  self < length (Dogelog.objects w).

(** A clock that stands still. *)
Definition still_clock (n : nat) : str := py "2021.06.02 21:56:29".

(** The terminal with a bar of ten steps drawn once, and with an empty
    bar that was moved backwards. *)
Definition bar_drawn : Dogelog.world :=
  let '(self, w) := Dogelog.Progress__init__ (py "Baking") 10 Dogelog.initial in
  (Dogelog.stack still_clock self w).2.

Definition bar_broken : Dogelog.world :=
  let '(self, w) := Dogelog.Progress__init__ (py "Baking") 0 Dogelog.initial in
  (Dogelog.increase still_clock self (-1) w).2.

(** * Theorems *)

Import Comphardware.

(** * Unit normaliser *)

Section UnitNormaliser.
Context {B : Builtins}.

Ltac unit_case H :=
  apply pair_equal_spec in H as [Hu Hk];
  rewrite <- Hu, <- Hk;
  first [ reflexivity | simpl; f_equal; lia ].

Lemma bytes_known_unit (v : Z) (unit : str) (k : Z) :
  In (casefold unit, k) byte_units ->
  Comphardware.human_readable_to_bytes (PyInt v) unit = PyInt (v * k).
Proof.
  unfold Comphardware.human_readable_to_bytes, byte_units.
  intros Hin. simpl in Hin.
  repeat (destruct Hin as [Hin | Hin]; [ unit_case Hin | ]).
  destruct Hin.
Qed.

Lemma hertz_known_unit (v : Z) (unit : str) (k : Z) :
  In (casefold unit, k) hertz_units ->
  Comphardware.human_readable_to_hertz (PyInt v) unit = PyInt (v * k).
Proof.
  unfold Comphardware.human_readable_to_hertz, hertz_units.
  intros Hin. simpl in Hin.
  repeat (destruct Hin as [Hin | Hin]; [ unit_case Hin | ]).
  destruct Hin.
Qed.

Lemma bytes_unknown_unit (value : number) (unit : str) :
  ~ In (casefold unit) (map fst byte_units) ->
  Comphardware.human_readable_to_bytes value unit = value.
Proof.
  unfold Comphardware.human_readable_to_bytes, byte_units.
  intros Hn. simpl in Hn.
  rewrite !bool_decide_eq_false_2; [ reflexivity | .. ];
    intros E; apply Hn; rewrite E; tauto.
Qed.

Lemma hertz_unknown_unit (value : number) (unit : str) :
  ~ In (casefold unit) (map fst hertz_units) ->
  Comphardware.human_readable_to_hertz value unit = value.
Proof.
  unfold Comphardware.human_readable_to_hertz, hertz_units.
  intros Hn. simpl in Hn.
  rewrite !bool_decide_eq_false_2; [ reflexivity | .. ];
    intros E; apply Hn; rewrite E; tauto.
Qed.

(** The two copies of the converters are the same functions. *)
Lemma bytes_copies :
  DatabaseScripts.human_readable_to_bytes =
  Comphardware.human_readable_to_bytes.
Proof. reflexivity. Qed.

Lemma hertz_copies :
  DatabaseScripts.human_readable_to_hertz =
  Comphardware.human_readable_to_hertz.
Proof. reflexivity. Qed.

Lemma linear_of_factor (f : number -> number) (k : Z) :
  (0 < k)%Z -> (forall v, f (PyInt v) = PyInt (v * k)) ->
  linear_in_value f.
Proof.
  intros Hk Hf. exists k. repeat split; try assumption.
  - rewrite Hf. f_equal. lia.
  - rewrite Hf. reflexivity.
  - intros v w r s Hvw Hr Hs. rewrite Hf in Hr, Hs.
    injection Hr as <-. injection Hs as <-. nia.
Qed.

Lemma bytes_linear (unit : str) :
  linear_in_value (fun v => Comphardware.human_readable_to_bytes v unit).
Proof.
  destruct (decide (In (casefold unit) (map fst byte_units))) as [Hin | Hn].
  - apply in_map_iff in Hin as [[w k] [Hw Hin]]. simpl in Hw. subst w.
    apply (linear_of_factor _ k).
    + unfold byte_units in Hin. simpl in Hin.
      repeat (destruct Hin as [Hin | Hin];
              [ apply pair_equal_spec in Hin as [_ <-]; reflexivity | ]).
      destruct Hin.
    + intros v. by apply bytes_known_unit.
  - apply (linear_of_factor _ 1); [ reflexivity | ].
    intros v. rewrite bytes_unknown_unit by assumption. f_equal. lia.
Qed.

Lemma hertz_linear (unit : str) :
  linear_in_value (fun v => Comphardware.human_readable_to_hertz v unit).
Proof.
  destruct (decide (In (casefold unit) (map fst hertz_units))) as [Hin | Hn].
  - apply in_map_iff in Hin as [[w k] [Hw Hin]]. simpl in Hw. subst w.
    apply (linear_of_factor _ k).
    + unfold hertz_units in Hin. simpl in Hin.
      repeat (destruct Hin as [Hin | Hin];
              [ apply pair_equal_spec in Hin as [_ <-]; reflexivity | ]).
      destruct Hin.
    + intros v. by apply hertz_known_unit.
  - apply (linear_of_factor _ 1); [ reflexivity | ].
    intros v. rewrite hertz_unknown_unit by assumption. f_equal. lia.
Qed.

(** C3.  On integers each converter multiplies by the factor the
    vocabulary gives for the case-folded unit: 1 for "b", 1024 for
    "kb"/"kib", 1024^2 for "mb"/"mib", 1024^3 for "gb"/"gib", 1024^4 for
    "tb"/"tib"; 10^3, 10^6, 10^9, 10^12 for "khz", "mhz", "ghz", "thz".
    In particular to_bytes(8, "GB") = 8 * 1024^3 = to_bytes(8, "gib"). *)
Theorem converters_known_units (v : Z) (unit : str) (k : Z) :
  (In (casefold unit, k) byte_units ->
   Comphardware.human_readable_to_bytes (PyInt v) unit = PyInt (v * k)) /\
  (In (casefold unit, k) hertz_units ->
   Comphardware.human_readable_to_hertz (PyInt v) unit = PyInt (v * k)) /\
  Comphardware.human_readable_to_bytes (PyInt 8) (py "GB")
    = PyInt (8 * 1024 ^ 3) /\
  Comphardware.human_readable_to_bytes (PyInt 8) (py "gib")
    = Comphardware.human_readable_to_bytes (PyInt 8) (py "GB").
Proof.
  split; [ apply bytes_known_unit | ].
  split; [ apply hertz_known_unit | ].
  split; reflexivity.
Qed.

(** C4.  A unit whose case-folded form is not in the vocabulary leaves
    the value as it is, whatever the value; both converters are total
    functions, so nothing is raised on that path. *)
Theorem converters_unknown_unit (value : number) (unit : str) :
  (~ In (casefold unit) (map fst byte_units) ->
   Comphardware.human_readable_to_bytes value unit = value) /\
  (~ In (casefold unit) (map fst hertz_units) ->
   Comphardware.human_readable_to_hertz value unit = value).
Proof.
  split; [ apply bytes_unknown_unit | apply hertz_unknown_unit ].
Qed.

(** C10.  For every unit, recognised or not, each converter (in both
    copies of the helpers) sends an integer v to v times its value at 1,
    which is positive; hence 0 goes to 0 and the converter is monotone
    in v. *)
Theorem converters_linear (unit : str) :
  linear_in_value (fun v => Comphardware.human_readable_to_bytes v unit) /\
  linear_in_value (fun v => Comphardware.human_readable_to_hertz v unit) /\
  linear_in_value (fun v => DatabaseScripts.human_readable_to_bytes v unit) /\
  linear_in_value (fun v => DatabaseScripts.human_readable_to_hertz v unit).
Proof.
  rewrite bytes_copies, hertz_copies.
  auto using bytes_linear, hertz_linear.
Qed.

End UnitNormaliser.

(** Witness: "MiB" folds to "mib" (factor 1024^2) and "GHz" to "ghz". *)
Lemma converters_known_units_witness :
  Comphardware.human_readable_to_bytes (B := ascii_builtins) (PyInt 16) (py "MiB")
    = PyInt (16 * 1024 ^ 2) /\
  Comphardware.human_readable_to_hertz (B := ascii_builtins) (PyInt 4) (py "GHz")
    = PyInt (4 * 10 ^ 9).
Proof.
  split.
  - apply (proj1 (converters_known_units (B := ascii_builtins)
                    16 (py "MiB") (1024 ^ 2))).
    vm_compute. tauto.
  - apply (proj1 (proj2 (converters_known_units (B := ascii_builtins)
                           4 (py "GHz") (10 ^ 9)))).
    vm_compute. tauto.
Defined.

(** Witness: "unknown-unit" is outside both vocabularies. *)
Lemma converters_unknown_unit_witness :
  Comphardware.human_readable_to_bytes (B := ascii_builtins)
    (PyInt 5) (py "unknown-unit") = PyInt 5 /\
  Comphardware.human_readable_to_hertz (B := ascii_builtins)
    (PyFloat 4.2) (py "unknown-unit") = PyFloat 4.2.
Proof.
  split.
  - apply (proj1 (converters_unknown_unit (B := ascii_builtins) _ _)).
    vm_compute. intuition discriminate.
  - apply (proj2 (converters_unknown_unit (B := ascii_builtins) _ _)).
    vm_compute. intuition discriminate.
Defined.

(** * Score model *)

Section Scores.
Import DatabaseScripts.

(** The divisors the constructors compute are the constants of the
    formulas: [5.30 * (10 ** 9)] rounds to 5.3e9, the other two products
    are exact. *)
Lemma cpu_speed_divisor : (5.30 * float_lit (10 ^ 9))%float = 5.30e9%float.
Proof. vm_compute. reflexivity. Qed.

Lemma gpu_vram_divisor :
  (10.0 * float_lit (1024 ^ 3))%float = float_lit (10 * 1024 ^ 3).
Proof. vm_compute. reflexivity. Qed.

Lemma gpu_speed_divisor : (1440.0 * float_lit (10 ^ 6))%float = 1.440e9%float.
Proof. vm_compute. reflexivity. Qed.

Lemma cpu_init_eq model product_id vendor corecount corespeed :
  CPU.__init__ model product_id vendor corecount corespeed =
  c ← to_float corecount;
  s ← to_float corespeed;
  Returned (CPU.mk model product_id vendor corecount corespeed
              (spec_cpu_score c s)).
Proof.
  unfold CPU.__init__, spec_cpu_score. rewrite cpu_speed_divisor. reflexivity.
Qed.

Lemma gpu_init_eq model vendor vram corespeed codename :
  GPU.__init__ model vendor vram corespeed codename =
  v ← to_float vram;
  s ← to_float corespeed;
  Returned (GPU.mk model vendor vram corespeed codename
              (spec_gpu_score v s)).
Proof.
  unfold GPU.__init__, spec_gpu_score.
  rewrite gpu_vram_divisor, gpu_speed_divisor. reflexivity.
Qed.

Lemma to_float_raises x e : to_float x = Raised e -> e = OverflowError.
Proof.
  destruct x as [z | f]; simpl; [ | discriminate ].
  unfold float_of_int. destruct (binary_normalize _ _ _ _ _); congruence.
Qed.

Lemma bind_returned {A C} (m : outcome A) (k : A -> outcome C) (c : C) :
  m ≫= k = Returned c -> exists a, m = Returned a /\ k a = Returned c.
Proof. destruct m as [a | e]; [ eauto | discriminate ]. Qed.

(** C6.  The constructors compute the score from the specs alone.  When
    both numeric specs have a float value, [CPU.__init__] returns the
    record with the arguments stored unchanged and the score
    ((corecount / 8.0) + (corespeed / 5.30e9)) * 100.0 / 2.0, and
    [GPU.__init__] the record with the score
    ((vram / (10 * 1024^3)) + (corespeed / 1.440e9)) * 100.0 / 2.0, in
    binary64 arithmetic on those float values; a float spec always has
    one.  Every record a constructor returns is of that form, and the
    only way a constructor fails is the [OverflowError] of an [int] spec
    too large for a float. *)
Theorem scores_follow_formulas :
  (forall model product_id vendor corecount corespeed,
      (forall c s,
          to_float corecount = Returned c -> to_float corespeed = Returned s ->
          CPU.__init__ model product_id vendor corecount corespeed =
          Returned (CPU.mk model product_id vendor corecount corespeed
                      (spec_cpu_score c s))) /\
      (forall cpu,
          CPU.__init__ model product_id vendor corecount corespeed
            = Returned cpu ->
          exists c s,
            to_float corecount = Returned c /\
            to_float corespeed = Returned s /\
            cpu = CPU.mk model product_id vendor corecount corespeed
                    (spec_cpu_score c s)) /\
      (forall e,
          CPU.__init__ model product_id vendor corecount corespeed = Raised e ->
          e = OverflowError /\
          (to_float corecount = Raised OverflowError \/
           to_float corespeed = Raised OverflowError))) /\
  (forall model vendor vram corespeed codename,
      (forall v s,
          to_float vram = Returned v -> to_float corespeed = Returned s ->
          GPU.__init__ model vendor vram corespeed codename =
          Returned (GPU.mk model vendor vram corespeed codename
                      (spec_gpu_score v s))) /\
      (forall gpu,
          GPU.__init__ model vendor vram corespeed codename = Returned gpu ->
          exists v s,
            to_float vram = Returned v /\
            to_float corespeed = Returned s /\
            gpu = GPU.mk model vendor vram corespeed codename
                    (spec_gpu_score v s)) /\
      (forall e,
          GPU.__init__ model vendor vram corespeed codename = Raised e ->
          e = OverflowError /\
          (to_float vram = Raised OverflowError \/
           to_float corespeed = Raised OverflowError))) /\
  (forall f, to_float (PyFloat f) = Returned f).
Proof.
  split; [ | split; [ | reflexivity ] ].
  - intros model product_id vendor corecount corespeed.
    rewrite cpu_init_eq. split; [ | split ].
    + intros c s -> ->. reflexivity.
    + intros cpu Hinit.
      apply bind_returned in Hinit as (c & Hc & Hinit).
      apply bind_returned in Hinit as (s & Hs & Hinit).
      exists c, s. injection Hinit as <-. auto.
    + intros e Hinit.
      destruct (to_float corecount) as [c | e1] eqn:Hc; simpl in Hinit.
      * destruct (to_float corespeed) as [s | e2] eqn:Hs; simpl in Hinit;
          [ discriminate | ].
        injection Hinit as ->.
        apply to_float_raises in Hs as Hs'. subst e. auto.
      * injection Hinit as ->.
        apply to_float_raises in Hc as Hc'. subst e. auto.
  - intros model vendor vram corespeed codename.
    rewrite gpu_init_eq. split; [ | split ].
    + intros v s -> ->. reflexivity.
    + intros gpu Hinit.
      apply bind_returned in Hinit as (v & Hv & Hinit).
      apply bind_returned in Hinit as (s & Hs & Hinit).
      exists v, s. injection Hinit as <-. auto.
    + intros e Hinit.
      destruct (to_float vram) as [v | e1] eqn:Hv; simpl in Hinit.
      * destruct (to_float corespeed) as [s | e2] eqn:Hs; simpl in Hinit;
          [ discriminate | ].
        injection Hinit as ->.
        apply to_float_raises in Hs as Hs'. subst e. auto.
      * injection Hinit as ->.
        apply to_float_raises in Hv as Hv'. subst e. auto.
Qed.

End Scores.

(** Witness: the reference parts of the two scales, an 8-core 5.3 GHz CPU
    and a 10 GiB 1440 MHz GPU, are built with the score 100. *)
Lemma scores_follow_formulas_witness :
  DatabaseScripts.CPU.__init__ (py "i9-11900k") 212325 (py "intel") (PyInt 8)
    (PyInt 5300000000) =
  Returned (DatabaseScripts.CPU.mk (py "i9-11900k") 212325 (py "intel")
              (PyInt 8) (PyInt 5300000000) 100%float) /\
  DatabaseScripts.GPU.__init__ (py "geforce rtx 3080") (py "nvidia")
    (PyInt (10 * 1024 ^ 3)) (PyFloat 1440000000) (py "ga102") =
  Returned (DatabaseScripts.GPU.mk (py "geforce rtx 3080") (py "nvidia")
              (PyInt (10 * 1024 ^ 3)) (PyFloat 1440000000) (py "ga102")
              100%float).
Proof.
  split.
  - exact (proj1 (proj1 scores_follow_formulas (py "i9-11900k") 212325%Z
                    (py "intel") (PyInt 8) (PyInt 5300000000))
             8%float 5300000000%float eq_refl eq_refl).
  - exact (proj1 (proj1 (proj2 scores_follow_formulas) (py "geforce rtx 3080")
                    (py "nvidia") (PyInt (10 * 1024 ^ 3)) (PyFloat 1440000000)
                    (py "ga102"))
             10737418240%float 1440000000%float eq_refl eq_refl).
Defined.

(** * Saving and loading the database *)

Section DictFacts.
Context {K : Type} `{EqDecision K} {V : Type}.

Lemma dict_set_fresh (d : PyDict.dict K V) (k : K) (v : V) :
  k ∉ PyDict.keys d -> PyDict.set d k v = d ++ [(k, v)].
Proof.
  induction d as [| [k' v'] d IH]; intros Hk; simpl in *; [ reflexivity | ].
  apply not_elem_of_cons in Hk as [Hne Hk].
  rewrite decide_False by congruence. by rewrite IH.
Qed.

Lemma dict_set_present (d : PyDict.dict K V) (k : K) (v : V) :
  k ∈ PyDict.keys d -> PyDict.keys (PyDict.set d k v) = PyDict.keys d.
Proof.
  induction d as [| [k' v'] d IH]; intros Hk; simpl in *.
  - by apply elem_of_nil in Hk.
  - destruct (decide (k' = k)) as [-> | Hne]; [ reflexivity | ].
    simpl. f_equal. apply IH.
    apply elem_of_cons in Hk as [-> | Hk]; [ done | assumption ].
Qed.


End DictFacts.




Section RoundTrip.
Import DatabaseScripts.








End RoundTrip.


(** * Common substrings *)

Section MatchedFacts.
Context {E : Type} `{EqDecision E}.
Implicit Types a b w : list E.

Lemma matched_bound_l a b i j k :
  matched a b i j k -> 0 < k -> i + k <= length a.
Proof.
  intros Hm Hk. destruct k as [| k]; [ lia | ].
  destruct (Hm k) as (x & Ha & _); [ lia | ].
  apply lookup_lt_Some in Ha. lia.
Qed.

Lemma matched_bound_r a b i j k :
  matched a b i j k -> 0 < k -> j + k <= length b.
Proof.
  intros Hm Hk. destruct k as [| k]; [ lia | ].
  destruct (Hm k) as (x & _ & Hb); [ lia | ].
  apply lookup_lt_Some in Hb. lia.
Qed.

Lemma substring_take_drop a i k : substring (take k (drop i a)) a.
Proof.
  exists (take i a), (drop k (drop i a)).
  by rewrite take_drop, take_drop.
Qed.

Lemma matched_take_drop a b i j k :
  matched a b i j k -> take k (drop i a) = take k (drop j b).
Proof.
  intros Hm. apply list_eq. intros t.
  destruct (decide (t < k)) as [Hlt | Hge].
  - rewrite !lookup_take_lt, !lookup_drop by assumption.
    destruct (Hm t Hlt) as (x & -> & ->). reflexivity.
  - rewrite !lookup_take_ge by lia. reflexivity.
Qed.

Lemma matched_common a b i j k :
  matched a b i j k -> exists w, length w = k /\ common_substring w a b.
Proof.
  intros Hm. exists (take k (drop i a)). split; [ | split ].
  - rewrite length_take, length_drop.
    destruct k as [| k]; [ reflexivity | ].
    apply matched_bound_l in Hm; lia.
  - apply substring_take_drop.
  - rewrite (matched_take_drop _ _ _ _ _ Hm). apply substring_take_drop.
Qed.

Lemma substring_lookup w s :
  substring w s ->
  exists i, forall t, t < length w -> s !! (i + t) = w !! t.
Proof.
  intros (p & q & ->). exists (length p). intros t Ht.
  rewrite lookup_app_r by lia.
  replace (length p + t - length p) with t by lia.
  by rewrite lookup_app_l.
Qed.

Lemma common_matched w a b :
  common_substring w a b -> exists i j, matched a b i j (length w).
Proof.
  intros [Ha Hb].
  apply substring_lookup in Ha as [i Hi].
  apply substring_lookup in Hb as [j Hj].
  exists i, j. intros t Ht.
  destruct (lookup_lt_is_Some_2 w t Ht) as [x Hx].
  exists x. by rewrite Hi, Hj.
Qed.

End MatchedFacts.

Section LcsLength.
Context {E : Type} `{EqDecision E}.
Implicit Types a b w : list E.

Lemma matched_drop a b i j k :
  matched a b i j k <-> matched (drop i a) (drop j b) 0 0 k.
Proof.
  unfold matched. split; intros Hm t Ht; destruct (Hm t Ht) as (x & Ha & Hb);
    exists x; rewrite ?lookup_drop in *; simpl in *; auto.
Qed.

Lemma common_prefix_matched a b : matched a b 0 0 (common_prefix_length a b).
Proof.
  revert b. induction a as [| x a IH]; intros [| y b]; simpl;
    try (intros t Ht; lia).
  destruct (decide (x = y)) as [-> | Hne]; [ | intros t Ht; lia ].
  intros [| t] Ht; simpl; [ eauto | ].
  apply (IH b t). lia.
Qed.

Lemma matched_common_prefix a b k :
  matched a b 0 0 k -> k <= common_prefix_length a b.
Proof.
  revert a b. induction k as [| k IH]; intros a b Hm; [ lia | ].
  destruct (Hm 0) as (x & Ha & Hb); [ lia | ].
  destruct a as [| x' a]; [ discriminate | ].
  destruct b as [| y' b]; [ discriminate | ].
  simpl in Ha, Hb. injection Ha as ->. injection Hb as ->. simpl.
  rewrite decide_True by reflexivity.
  apply le_n_S, IH. intros t Ht. apply (Hm (S t)). lia.
Qed.

Lemma elem_of_tails (l t : list E) :
  t ∈ tails l <-> exists i, i <= length l /\ t = drop i l.
Proof.
  induction l as [| x l IH]; simpl.
  - rewrite list_elem_of_singleton. split.
    + intros ->. exists 0. auto.
    + intros (i & _ & ->). by destruct i.
  - rewrite elem_of_cons, IH. split.
    + intros [-> | (i & Hi & ->)]; [ exists 0 | exists (S i) ];
        simpl; split; auto; lia.
    + intros ([| i] & Hi & ->); simpl; [ by left | right ].
      exists i. split; [ lia | reflexivity ].
Qed.

Lemma max_list_attained (l : list nat) : max_list l = 0 \/ max_list l ∈ l.
Proof.
  induction l as [| n l IH]; simpl; [ by left | ].
  destruct (Nat.max_spec n (max_list l)) as [[_ ->] | [_ ->]].
  - destruct IH as [-> | IH]; [ by left | right; by right ].
  - right. by left.
Qed.

Lemma elem_of_prefix_lengths a b n :
  n ∈ (ta ← tails a; tb ← tails b; [common_prefix_length ta tb]) <->
  exists i j, i <= length a /\ j <= length b /\
              n = common_prefix_length (drop i a) (drop j b).
Proof.
  rewrite list_elem_of_bind. split.
  - intros (ta & Hn & Ha). apply list_elem_of_bind in Hn as (tb & Hn & Hb).
    apply list_elem_of_singleton in Hn.
    apply elem_of_tails in Ha as (i & Hi & ->).
    apply elem_of_tails in Hb as (j & Hj & ->). eauto 6.
  - intros (i & j & Hi & Hj & ->). exists (drop i a). split.
    + apply list_elem_of_bind. exists (drop j b). split.
      * by apply list_elem_of_singleton.
      * apply elem_of_tails. eauto.
    + apply elem_of_tails. eauto.
Qed.

Lemma lcs_length_matched a b : exists i j, matched a b i j (lcs_length a b).
Proof.
  unfold lcs_length.
  destruct (max_list_attained
              (ta ← tails a; tb ← tails b; [common_prefix_length ta tb]))
    as [-> | Hin].
  - exists 0, 0. intros t Ht. lia.
  - apply elem_of_prefix_lengths in Hin as (i & j & _ & _ & ->).
    exists i, j. apply matched_drop, common_prefix_matched.
Qed.

Lemma matched_le_lcs_length a b i j k :
  matched a b i j k -> k <= lcs_length a b.
Proof.
  intros Hm. destruct k as [| k]; [ lia | ].
  pose proof (matched_bound_l _ _ _ _ _ Hm) as Hi.
  pose proof (matched_bound_r _ _ _ _ _ Hm) as Hj.
  apply matched_drop, matched_common_prefix in Hm.
  etrans; [ exact Hm | ].
  apply max_list_elem_of_le, elem_of_prefix_lengths.
  exists i, j. repeat split; lia.
Qed.

(** [lcs_length] computes the length of a longest common substring. *)
Lemma lcs_length_spec a b : longest_common_length a b (lcs_length a b).
Proof.
  split.
  - destruct (lcs_length_matched a b) as (i & j & Hm).
    by apply matched_common in Hm.
  - intros w Hw. apply common_matched in Hw as (i & j & Hm).
    by apply matched_le_lcs_length in Hm.
Qed.

Lemma longest_common_length_unique a b n m :
  longest_common_length a b n -> longest_common_length a b m -> n = m.
Proof.
  intros [(w & <- & Hw) Hn] [(w' & <- & Hw') Hm].
  apply Nat.le_antisymm; auto.
Qed.

End LcsLength.

(** * The row loop of [find_longest_match] *)

Section RowLoop.
Context {E : Type} `{Countable E}.
Variables (a b : list E) (b2j : gmap E (list nat)).
Hypothesis Hindex : b2j_sound b b2j.

#[local] Abbreviation run := (run a b b2j).
#[local] Abbreviation prev := (prev a b b2j).

Lemma run_unfold i j :
  run i j =
  match a !! i, b !! j with
  | Some x, Some y =>
      if decide (x = y /\ is_Some (b2j !! x)) then S (prev i j) else 0
  | _, _ => 0
  end.
Proof. destruct i; reflexivity. Qed.

Lemma run_indexed i j x :
  a !! i = Some x -> b !! j = Some x -> is_Some (b2j !! x) ->
  run i j = S (prev i j).
Proof.
  intros Ha Hb Hx. rewrite run_unfold, Ha, Hb.
  by rewrite decide_True.
Qed.

Lemma run_zero i j x :
  a !! i = Some x -> ~ (b !! j = Some x /\ is_Some (b2j !! x)) ->
  run i j = 0.
Proof.
  intros Ha Hn. rewrite run_unfold, Ha.
  destruct (b !! j) as [y |]; [ | reflexivity ].
  rewrite decide_False; [ reflexivity | ].
  intros [-> Hx]. by apply Hn.
Qed.

(** The indices the inner loop visits for the element [x]. *)
Lemma indices_spec x j :
  j ∈ default [] (b2j !! x) <-> b !! j = Some x /\ is_Some (b2j !! x).
Proof.
  destruct (b2j !! x) as [js |] eqn:Hx; simpl.
  - rewrite (Hindex _ _ Hx). split; [ eauto | tauto ].
  - split; [ by intros ?%elem_of_nil | by intros [_ [? ?]] ].
Qed.

Lemma scan_row_spec bhi j2len i js nm bst :
  (forall j, j ∈ js -> j < bhi) ->
  let r := scan_row 0 bhi j2len i js nm bst in
  (forall j, j ∈ js -> r.1 !! Z.of_nat j = Some (prev_len j2len j + 1)) /\
  (forall z, (forall j, j ∈ js -> z <> Z.of_nat j) -> r.1 !! z = nm !! z) /\
  bst.2 <= r.2.2 /\
  (forall j, j ∈ js -> prev_len j2len j + 1 <= r.2.2) /\
  (r.2 = bst \/
   exists j, j ∈ js /\
     r.2 = (i + 1 - (prev_len j2len j + 1), j + 1 - (prev_len j2len j + 1),
            prev_len j2len j + 1)).
Proof.
  revert nm bst. induction js as [| j js IH]; intros nm bst Hlt; simpl.
  - repeat split; auto; try (intros j Hj; by apply elem_of_nil in Hj).
  - assert (Hj : j < bhi) by (apply Hlt; left).
    replace (bhi <=? j) with false by (symmetry; apply Nat.leb_gt; lia).
    fold (prev_len j2len j).
    set (k := prev_len j2len j + 1).
    set (nm1 := <[Z.of_nat j := k]> nm).
    set (bst1 := if bst.2 <? k then (i + 1 - k, j + 1 - k, k) else bst).
    destruct (IH nm1 bst1) as (Ha & Hb & Hc & Hd & He).
    { intros j' Hj'. apply Hlt. by right. }
    assert (Hbst1 : bst.2 <= bst1.2 /\ k <= bst1.2).
    { subst bst1. destruct (Nat.ltb_spec bst.2 k); simpl; lia. }
    split; [ | split; [ | split; [ | split ] ] ].
    + intros j' Hj'. destruct (decide (j' ∈ js)) as [Hin | Hnin].
      * by apply Ha.
      * apply elem_of_cons in Hj' as [-> | Hj']; [ | done ].
        rewrite Hb.
        -- subst nm1. apply lookup_insert_eq.
        -- intros j'' Hj'' Heq. apply Nat2Z.inj in Heq. by subst.
    + intros z Hz. rewrite Hb.
      * subst nm1. apply lookup_insert_ne. intros Heq.
        apply (Hz j); [ by left | done ].
      * intros j' Hj'. apply Hz. by right.
    + lia.
    + intros j' Hj'. apply elem_of_cons in Hj' as [-> | Hj'].
      * fold k. lia.
      * by apply Hd.
    + destruct He as [He | (j' & Hj' & He)].
      * rewrite He. subst bst1.
        destruct (Nat.ltb_spec bst.2 k); [ right | by left ].
        exists j. split; [ by left | reflexivity ].
      * right. exists j'. split; [ by right | assumption ].
Qed.

Lemma prev_len_inv n st j :
  rows_inv a b b2j n st -> prev_len st.1 j = prev n j.
Proof.
  intros (HJ & _). unfold prev_len. rewrite HJ.
  destruct j as [| j].
  - rewrite decide_True by lia. by destruct n.
  - rewrite decide_False by lia.
    replace (Z.to_nat (Z.of_nat (S j) - 1)) with j by lia.
    by destruct n.
Qed.

Lemma row_inv n st :
  n < length a ->
  rows_inv a b b2j n st ->
  rows_inv a b b2j (S n) (row a b2j 0 (length b) st n).
Proof.
  intros Hn Hinv. unfold row.
  destruct (lookup_lt_is_Some_2 a n Hn) as [x Hx]. rewrite Hx.
  pose proof (indices_spec x) as Hjs.
  set (js := default [] (b2j !! x)) in *.
  destruct (scan_row_spec (length b) st.1 n js ∅ st.2)
    as (Ha & Hb & Hc & Hd & He).
  { intros j Hj. apply Hjs in Hj as [Hj _]. by apply lookup_lt_Some in Hj. }
  set (r := scan_row 0 (length b) st.1 n js ∅ st.2) in *.
  assert (Hk : forall j, j ∈ js -> prev_len st.1 j + 1 = run n j).
  { intros j Hj. apply Hjs in Hj as [Hj Hx'].
    rewrite (run_indexed n j x) by assumption.
    rewrite (prev_len_inv n st j Hinv). lia. }
  destruct Hinv as (HJ & Hmax & Hbest).
  split; [ | split ].
  - intros z. destruct (decide (z < 0)%Z) as [Hz | Hz].
    + rewrite Hb; [ by rewrite lookup_empty | ]. intros j _. lia.
    + destruct (decide (Z.to_nat z ∈ js)) as [Hin | Hnin].
      * replace z with (Z.of_nat (Z.to_nat z)) at 1 by lia.
        rewrite Ha by assumption. simpl. by apply Hk.
      * rewrite Hb.
        -- rewrite lookup_empty. simpl. symmetry.
           apply (run_zero n _ x Hx). intros Hj. by apply Hnin, Hjs.
        -- intros j Hj ->. apply Hnin. by rewrite Nat2Z.id.
  - intros i j Hi. destruct (decide (i = n)) as [-> | Hne].
    + destruct (decide (j ∈ js)) as [Hin | Hnin].
      * rewrite <- (Hk j Hin). by apply Hd.
      * rewrite (run_zero n j x Hx); [ lia | ].
        intros Hj. by apply Hnin, Hjs.
    + etrans; [ apply Hmax; lia | exact Hc ].
  - destruct He as [-> | (j & Hj & ->)]; [ assumption | ].
    right. exists n, j. rewrite (Hk j Hj).
    split; [ | reflexivity ]. rewrite <- (Hk j Hj). lia.
Qed.

Lemma rows_inv_fold n :
  n <= length a ->
  rows_inv a b b2j n
    (fold_left (row a b2j 0 (length b)) (seq 0 n) (∅, (0, 0, 0))).
Proof.
  induction n as [| n IH]; intros Hn.
  - split; [ | split ].
    + intros z. cbn [seq fold_left fst]. rewrite lookup_empty.
      simpl. by destruct (decide _).
    + intros i j Hi. lia.
    + by left.
  - rewrite seq_S, fold_left_app. simpl. apply row_inv; [ lia | ].
    apply IH. lia.
Qed.

End RowLoop.

Section RunFacts.
Context {E : Type} `{Countable E}.
Variables (a b : list E) (b2j : gmap E (list nat)).

#[local] Abbreviation run := (run a b b2j).
#[local] Abbreviation prev := (prev a b b2j).

Lemma run_Some i j :
  0 < run i j ->
  exists x, a !! i = Some x /\ b !! j = Some x /\ run i j = S (prev i j).
Proof.
  rewrite (run_unfold a b b2j).
  destruct (a !! i) as [x |]; [ | lia ].
  destruct (b !! j) as [y |]; [ | lia ].
  destruct (decide _) as [[-> _] | _]; [ eauto | lia ].
Qed.

(** A run is a match, and it does not reach before the start of either
    sequence. *)
Lemma run_matched i j :
  run i j <= i + 1 /\ run i j <= j + 1 /\
  matched a b (i + 1 - run i j) (j + 1 - run i j) (run i j).
Proof.
  revert j. induction i as [| i IH]; intros j.
  - destruct (Nat.eq_0_gt_0_cases (run 0 j)) as [-> | Hpos].
    { repeat split; try lia. intros t Ht. lia. }
    destruct (run_Some _ _ Hpos) as (x & Ha & Hb & ->). simpl.
    repeat split; try lia.
    intros t Ht. assert (t = 0) as -> by lia.
    exists x. replace (j + 1 - 1 + 0) with j by lia. auto.
  - destruct (Nat.eq_0_gt_0_cases (run (S i) j)) as [-> | Hpos].
    { repeat split; try lia. intros t Ht. lia. }
    destruct (run_Some _ _ Hpos) as (x & Ha & Hb & ->).
    destruct j as [| j]; simpl.
    + repeat split; try lia.
      intros t Ht. assert (t = 0) as -> by lia.
      exists x. replace (i + 1 - 0 + 0) with (S i) by lia. auto.
    + destruct (IH j) as (Hi & Hj & Hm).
      set (r := run i j) in *.
      repeat split; try lia.
      intros t Ht. destruct (decide (t < r)) as [Hlt | Hge].
      * destruct (Hm t Hlt) as (y & Hy1 & Hy2). exists y.
        split; [ rewrite <- Hy1 | rewrite <- Hy2 ]; f_equal; lia.
      * assert (t = r) as -> by lia. exists x.
        split; [ rewrite <- Ha | rewrite <- Hb ]; f_equal; lia.
Qed.

(** When every element of [b] is indexed, a match of length [n] is
    covered by the run ending at its last position. *)
Lemma run_complete p q n :
  (forall x, x ∈ b -> is_Some (b2j !! x)) ->
  matched a b p q (S n) -> S n <= run (p + n) (q + n).
Proof.
  intros Hall. induction n as [| n IH]; intros Hm.
  - destruct (Hm 0) as (x & Ha & Hb); [ lia | ].
    rewrite (run_indexed a b b2j _ _ x); auto; [ lia | ].
    apply Hall. by apply list_elem_of_lookup_2 in Hb.
  - destruct (Hm (S n)) as (x & Ha & Hb); [ lia | ].
    rewrite (run_indexed a b b2j _ _ x); auto.
    + apply le_n_S.
      replace (p + S n) with (S (p + n)) by lia.
      replace (q + S n) with (S (q + n)) by lia. simpl.
      apply IH. intros t Ht. apply Hm. lia.
    + apply Hall. by apply list_elem_of_lookup_2 in Hb.
Qed.

End RunFacts.

Section Extension.
Context {E : Type} `{Countable E}.
Variables (ok : E -> bool) (a b : list E).

Lemma extend_down_spec i j k :
  matched a b i j k ->
  let r := extend_down ok a b i j k in
  matched a b r.1.1 r.1.2 r.2 /\ k <= r.2.
Proof.
  revert j k. induction i as [| i IH]; intros j k Hm; simpl; [ auto | ].
  destruct j as [| j]; [ auto | ].
  destruct (a !! i) as [x |] eqn:Ha; [ | auto ].
  destruct (b !! j) as [y |] eqn:Hb; [ | auto ].
  destruct (ok y && bool_decide (x = y)) eqn:Hc; [ | auto ].
  apply andb_true_iff in Hc as [_ Hxy]. apply bool_decide_eq_true in Hxy.
  subst y.
  destruct (IH j (S k)) as [Hm' Hk'].
  - intros [| t] Ht.
    + exists x. by rewrite !Nat.add_0_r.
    + destruct (Hm t) as (y & Hy1 & Hy2); [ lia | ]. exists y.
      split; [ rewrite <- Hy1 | rewrite <- Hy2 ]; f_equal; lia.
  - split; [ assumption | lia ].
Qed.

Lemma extend_up_spec fuel i j k :
  matched a b i j k ->
  let n := extend_up ok a b (length a) (length b) fuel i j k in
  matched a b i j n /\ k <= n.
Proof.
  revert k. induction fuel as [| fuel IH]; intros k Hm; simpl; [ auto | ].
  destruct (_ && _) eqn:Hlt; [ | auto ].
  destruct (a !! (i + k)) as [x |] eqn:Ha; [ | auto ].
  destruct (b !! (j + k)) as [y |] eqn:Hb; [ | auto ].
  destruct (ok y && bool_decide (x = y)) eqn:Hc; [ | auto ].
  apply andb_true_iff in Hc as [_ Hxy]. apply bool_decide_eq_true in Hxy.
  subst y.
  destruct (IH (S k)) as [Hm' Hk'].
  - intros t Ht. destruct (decide (t < k)) as [Hlt' | Hge].
    + by apply Hm.
    + assert (t = k) as -> by lia. eauto.
  - split; [ assumption | lia ].
Qed.

(** The forward loop leaves by its own test, not for want of fuel. *)
Lemma extend_up_exit fuel i j k :
  length a <= fuel + (i + k) ->
  let n := extend_up ok a b (length a) (length b) fuel i j k in
  ~ (i + n < length a /\ j + n < length b /\
     exists x y, a !! (i + n) = Some x /\ b !! (j + n) = Some y /\
                 ok y = true /\ x = y).
Proof.
  revert k. induction fuel as [| fuel IH]; intros k Hfuel; simpl.
  - intros (Hlt & _). lia.
  - destruct (_ && _) eqn:Hlt.
    + destruct (a !! (i + k)) as [x |] eqn:Ha.
      * destruct (b !! (j + k)) as [y |] eqn:Hb.
        -- destruct (ok y && bool_decide (x = y)) eqn:Hc.
           ++ apply IH. lia.
           ++ intros (_ & _ & x' & y' & Hx' & Hy' & Hok & <-).
              rewrite Ha in Hx'. rewrite Hb in Hy'.
              injection Hx' as <-. injection Hy' as <-.
              rewrite Hok, bool_decide_eq_true_2 in Hc; done.
        -- intros (_ & _ & x' & y' & _ & Hy' & _). congruence.
      * intros (_ & _ & x' & y' & Hx' & _). congruence.
    + intros (H1 & H2 & _).
      apply andb_false_iff in Hlt as [Hlt | Hlt];
        apply Nat.ltb_ge in Hlt; lia.
Qed.

Lemma extend_spec bst :
  matched a b bst.1.1 bst.1.2 bst.2 ->
  let r := extend ok a b (length a) (length b) bst in
  matched a b r.1.1 r.1.2 r.2 /\ bst.2 <= r.2.
Proof.
  intros Hm. unfold extend.
  destruct (extend_down_spec _ _ _ Hm) as [Hd Hk].
  destruct (extend_down ok a b bst.1.1 bst.1.2 bst.2) as [[i j] k].
  simpl in *.
  destruct (extend_up_spec (length a) _ _ _ Hd) as [Hu Hk'].
  split; [ assumption | lia ].
Qed.

End Extension.

(** * [__chain_b] and [find_longest_match] *)

Section ChainB.
Context {E : Type} `{Countable E}.
Implicit Types b : list E.

Lemma b2j_index_spec b :
  let m := fold_left b2j_add (imap pair b) ∅ in
  b2j_sound b m /\ b2j_complete b m.
Proof.
  induction b as [| y b IH] using rev_ind; simpl.
  - split.
    + intros x js Hx. by rewrite lookup_empty in Hx.
    + intros x Hx. by apply elem_of_nil in Hx.
  - rewrite imap_app, fold_left_app. simpl. rewrite Nat.add_0_r.
    destruct IH as [Hs Hc].
    set (m := fold_left b2j_add (imap pair b) ∅) in *.
    unfold b2j_add. simpl. split.
    + intros x js Hx j. destruct (decide (y = x)) as [-> | Hne].
      * rewrite lookup_insert_eq in Hx. injection Hx as <-.
        rewrite elem_of_app, list_elem_of_singleton.
        destruct (decide (j = length b)) as [-> | Hj].
        -- rewrite list_lookup_middle by reflexivity. tauto.
        -- rewrite lookup_app, lookup_cons.
           destruct (m !! x) as [js |] eqn:Hm; simpl.
           ++ rewrite (Hs _ _ Hm).
              destruct (b !! j) eqn:Hb; [ tauto | ].
              apply lookup_ge_None in Hb.
              destruct (j - length b) eqn:Hd; [ lia | ].
              rewrite lookup_nil. split; [ tauto | discriminate ].
           ++ destruct (b !! j) as [z |] eqn:Hb.
              ** split; [ intros [[]%elem_of_nil | ?]; done | ].
                 intros [= ->]. apply list_elem_of_lookup_2, Hc in Hb.
                 rewrite Hm in Hb. by destruct Hb.
              ** apply lookup_ge_None in Hb.
                 destruct (j - length b) eqn:Hd; [ lia | ].
                 rewrite lookup_nil.
                 split; [ intros [[]%elem_of_nil | ?]; done | discriminate ].
      * rewrite lookup_insert_ne in Hx by assumption.
        rewrite (Hs _ _ Hx). rewrite lookup_app.
        destruct (b !! j) eqn:Hb; [ tauto | ].
        split; [ discriminate | ].
        destruct (j - length b); simpl; [ congruence | ].
        by rewrite lookup_nil.
    + intros x Hx. destruct (decide (y = x)) as [-> | Hne].
      * rewrite lookup_insert_eq. eauto.
      * rewrite lookup_insert_ne by assumption. apply Hc.
        apply elem_of_app in Hx as [Hx | Hx]; [ assumption | ].
        apply list_elem_of_singleton in Hx. congruence.
Qed.

Lemma chain_b_sound autojunk b : b2j_sound b (__chain_b autojunk b).1.1.
Proof.
  unfold __chain_b. destruct (b2j_index_spec b) as [Hs _].
  destruct (autojunk && (200 <=? length b)); simpl; [ | exact Hs ].
  intros x js Hx. apply map_lookup_filter_Some in Hx as [Hx _].
  by apply Hs.
Qed.

Lemma chain_b_complete autojunk b :
  length b < 200 -> b2j_complete b (__chain_b autojunk b).1.1.
Proof.
  intros Hlen. unfold __chain_b. destruct (b2j_index_spec b) as [_ Hc].
  replace (200 <=? length b) with false
    by (symmetry; apply Nat.leb_gt; lia).
  rewrite andb_false_r. exact Hc.
Qed.

Lemma chain_b_junk autojunk b : (__chain_b autojunk b).1.2 = ∅.
Proof. unfold __chain_b. by destruct (_ && _). Qed.

End ChainB.

Section LongestMatch.
Context {E : Type} `{Countable E}.
Implicit Types a b : list E.

Lemma matcher_for_fields b a :
  sm_a (matcher_for b a) = a /\ sm_b (matcher_for b a) = b /\
  b2j (matcher_for b a) = (__chain_b true b).1.1 /\
  bjunk (matcher_for b a) = ∅.
Proof.
  unfold matcher_for, SequenceMatcher_init.
  pose proof (chain_b_junk true b) as Hj.
  destruct (__chain_b true b) as [[m junk] pop]. simpl in *. by subst.
Qed.

Lemma set_seq1_matcher_for b a a' :
  set_seq1 (matcher_for b a) a' = matcher_for b a'.
Proof. reflexivity. Qed.

Lemma init_matcher_for b :
  SequenceMatcher_init [] b true = matcher_for b [].
Proof.
  unfold matcher_for, SequenceMatcher_init.
  by destruct (__chain_b true b) as [[m junk] pop].
Qed.

Lemma find_longest_match_rows (sm : SequenceMatcher E) :
  b2j_sound (sm_b sm) (b2j sm) ->
  let m := find_longest_match sm in
  matched (sm_a sm) (sm_b sm) (m_a m) (m_b m) (size m) /\
  (forall i j, run (sm_a sm) (sm_b sm) (b2j sm) i j <= size m).
Proof.
  intros Hs. unfold find_longest_match.
  rewrite Nat.sub_0_r.
  destruct (rows_inv_fold (sm_a sm) (sm_b sm) (b2j sm) Hs (length (sm_a sm)))
    as (_ & Hmax & Hbest); [ lia | ].
  set (st := fold_left _ _ _) in *.
  assert (Hm0 : matched (sm_a sm) (sm_b sm) st.2.1.1 st.2.1.2 st.2.2).
  { destruct Hbest as [-> | (i & j & _ & ->)]; simpl.
    - intros t Ht. lia.
    - apply run_matched. }
  destruct (extend_spec (fun y => negb (bool_decide (y ∈ bjunk sm)))
              _ _ _ Hm0) as [Hm1 Hk1].
  set (bst1 := extend _ _ _ _ _ st.2) in *.
  destruct (extend_spec (fun y => bool_decide (y ∈ bjunk sm))
              _ _ _ Hm1) as [Hm2 Hk2].
  set (bst2 := extend _ _ _ _ _ bst1) in *.
  simpl. split; [ assumption | ].
  intros i j. destruct (decide (i < length (sm_a sm))) as [Hi | Hi].
  - specialize (Hmax i j Hi). lia.
  - rewrite run_unfold. rewrite lookup_ge_None_2 by lia. lia.
Qed.

(** The example of the library's documentation. *)
Example find_longest_match_doc :
  find_longest_match (matcher_for (py "abcd abcd") (py " abcd"))
  = mkMatch 0 4 5.
Proof. vm_compute. reflexivity. Qed.

(** What [find_longest_match] returns is a common block of both
    sequences, whatever [autojunk] purged. *)
Theorem find_longest_match_sound b a :
  let m := find_longest_match (matcher_for b a) in
  matched a b (m_a m) (m_b m) (size m).
Proof.
  destruct (matcher_for_fields b a) as (Ha & Hb & Hj & _).
  destruct (find_longest_match_rows (matcher_for b a)) as [Hm _].
  - rewrite Hb, Hj. apply chain_b_sound.
  - simpl. by rewrite Ha, Hb in Hm.
Qed.

Corollary find_longest_match_le b a :
  size (find_longest_match (matcher_for b a)) <= lcs_length a b.
Proof.
  eapply matched_le_lcs_length, find_longest_match_sound.
Qed.

(** For a second sequence shorter than 200 elements nothing is purged and
    the size returned is the length of a longest common substring. *)
Theorem find_longest_match_short b a :
  length b < 200 ->
  size (find_longest_match (matcher_for b a)) = lcs_length a b.
Proof.
  intros Hlen. apply Nat.le_antisymm; [ apply find_longest_match_le | ].
  destruct (lcs_length_matched a b) as (p & q & Hm).
  destruct (lcs_length a b) as [| n]; [ lia | ].
  destruct (matcher_for_fields b a) as (Ha & Hb & Hj & _).
  destruct (find_longest_match_rows (matcher_for b a)) as [_ Hmax].
  { rewrite Hb, Hj. apply chain_b_sound. }
  etrans; [ | apply (Hmax (p + n) (q + n)) ].
  rewrite Ha, Hb, Hj. apply run_complete; [ | assumption ].
  by apply chain_b_complete.
Qed.

End LongestMatch.

(** * The search loop of [_find_by_model] *)

Section Search.
Variable unexact_model : str.

Lemma search_step_track cs em a model :
  search_step (cs, em, matcher_for unexact_model a) model =
  (track (match_size unexact_model) (cs, em) model,
   matcher_for unexact_model model).
Proof.
  unfold search_step, track, match_size. simpl.
  rewrite set_seq1_matcher_for.
  by destruct (cs <? _).
Qed.

Lemma search_fold_track keys cs em a :
  (fold_left search_step keys (cs, em, matcher_for unexact_model a)).1 =
  fold_left (track (match_size unexact_model)) keys (cs, em).
Proof.
  revert cs em a.
  induction keys as [| k keys IH]; intros cs em a; cbn [fold_left].
  - reflexivity.
  - rewrite search_step_track.
    destruct (track _ (cs, em) k) as [cs' em']. apply IH.
Qed.
End Search.

Section Track.
Variable f : str -> nat.

(** After the loop: the score is a bound for every key, and the tracked
    key, if any, is the first one that reaches it. *)
Lemma track_fold keys :
  let st := fold_left (track f) keys (0, None) in
  (forall k, k ∈ keys -> f k <= st.1) /\
  match st.2 with
  | None => st.1 = 0
  | Some k =>
      0 < st.1 /\ f k = st.1 /\
      exists pre post, keys = pre ++ k :: post /\
                       forall k', k' ∈ pre -> f k' < st.1
  end.
Proof.
  induction keys as [| m keys IH] using rev_ind; simpl.
  - split; [ intros k Hk; by apply elem_of_nil in Hk | reflexivity ].
  - rewrite fold_left_app. simpl.
    destruct (fold_left (track f) keys (0, None)) as [cs em].
    simpl in IH. destruct IH as [Hle Hem]. unfold track. simpl.
    destruct (Nat.ltb_spec cs (f m)) as [Hlt | Hge]; simpl.
    + split.
      * intros k Hk. apply elem_of_app in Hk as [Hk | Hk].
        -- specialize (Hle k Hk). lia.
        -- apply list_elem_of_singleton in Hk as ->. lia.
      * repeat split; [ lia | ].
        exists keys, []. split; [ reflexivity | ].
        intros k' Hk'. specialize (Hle k' Hk'). lia.
    + split.
      * intros k Hk. apply elem_of_app in Hk as [Hk | Hk]; [ auto | ].
        by apply list_elem_of_singleton in Hk as ->.
      * destruct em as [k |]; [ | assumption ].
        destruct Hem as (Hpos & Hfk & pre & post & -> & Hpre).
        repeat split; try assumption.
        exists pre, (post ++ [m]). split; [ | assumption ].
        by rewrite <- app_assoc.
Qed.
End Track.

Section FindByModel.
Context {C R : Type}.
Implicit Types (cls : C) (database : PyDict.dict str R).

Lemma dict_get_key database k :
  k ∈ PyDict.keys database -> is_Some (PyDict.get database k).
Proof.
  induction database as [| [k' r] d IH]; simpl; intros Hk.
  - by apply elem_of_nil in Hk.
  - destruct (decide (k' = k)); [ eauto | ].
    apply IH. apply elem_of_cons in Hk as [-> | Hk]; [ done | assumption ].
Qed.

Lemma dict_get_elem database k r :
  PyDict.get database k = Some r -> (k, r) ∈ database.
Proof.
  induction database as [| [k' r'] d IH]; simpl; [ discriminate | ].
  destruct (decide (k' = k)) as [-> | Hne].
  - intros [= ->]. left.
  - intros Hget. right. by apply IH.
Qed.

(** [_find_by_model] in terms of the tracked key. *)
Lemma find_by_model_track cls database unexact_model :
  _find_by_model cls database unexact_model =
  match (fold_left (track (match_size unexact_model))
           (PyDict.keys database) (0, None)).2 with
  | None => Returned None
  | Some exact_model =>
      match PyDict.get database exact_model with
      | Some component => Returned (Some component)
      | None => Raised KeyError
      end
  end.
Proof.
  unfold _find_by_model. rewrite init_matcher_for.
  pose proof (search_fold_track unexact_model (PyDict.keys database)
                0 None []) as Hfold.
  destruct (fold_left search_step _ _) as [[cs em] sm].
  simpl in Hfold. by rewrite <- Hfold.
Qed.

(** The function returns: the key it tracks is a key of the database. *)
Lemma find_by_model_returns cls database unexact_model :
  _find_by_model cls database unexact_model = Returned None \/
  exists k r, k ∈ PyDict.keys database /\
              PyDict.get database k = Some r /\
              0 < match_size unexact_model k /\
              _find_by_model cls database unexact_model = Returned (Some r).
Proof.
  rewrite find_by_model_track.
  destruct (track_fold (match_size unexact_model) (PyDict.keys database))
    as [_ Hem].
  destruct (fold_left _ _ _) as [cs [k |]]; simpl in *; [ | by left ].
  destruct Hem as (Hpos & Hfk & pre & post & Hkeys & _).
  assert (Hin : k ∈ PyDict.keys database).
  { rewrite Hkeys. apply elem_of_app. right. left. }
  destruct (dict_get_key _ _ Hin) as [r Hr].
  right. exists k, r. rewrite Hr. repeat split; auto. lia.
Qed.

(** No key with a positive score: [None]. *)
Lemma find_by_model_none cls database unexact_model :
  (forall k, k ∈ PyDict.keys database -> match_size unexact_model k = 0) ->
  _find_by_model cls database unexact_model = Returned None.
Proof.
  intros Hzero.
  destruct (find_by_model_returns cls database unexact_model)
    as [Hnone | (k & r & Hin & _ & Hpos & _)]; [ assumption | ].
  rewrite (Hzero k Hin) in Hpos. lia.
Qed.

(** Some key with a positive score: the record of the first key with the
    greatest score. *)
Lemma find_by_model_positive cls database unexact_model :
  (exists k, k ∈ PyDict.keys database /\ 0 < match_size unexact_model k) ->
  exists pre k post r,
    PyDict.keys database = pre ++ k :: post /\
    (forall k', k' ∈ pre ->
        match_size unexact_model k' < match_size unexact_model k) /\
    (forall k', k' ∈ post ->
        match_size unexact_model k' <= match_size unexact_model k) /\
    PyDict.get database k = Some r /\
    _find_by_model cls database unexact_model = Returned (Some r).
Proof.
  intros (k1 & Hin1 & Hpos1). rewrite find_by_model_track.
  destruct (track_fold (match_size unexact_model) (PyDict.keys database))
    as [Hle Hem].
  destruct (fold_left _ _ _) as [cs [k |]]; simpl in *.
  - destruct Hem as (_ & Hfk & pre & post & Hkeys & Hpre).
    assert (Hin : k ∈ PyDict.keys database).
    { rewrite Hkeys. apply elem_of_app. right. left. }
    destruct (dict_get_key _ _ Hin) as [r Hr].
    exists pre, k, post, r. rewrite Hr, Hfk.
    repeat split; try assumption.
    intros k' Hk'. apply Hle. rewrite Hkeys.
    apply elem_of_app. right. by right.
  - specialize (Hle k1 Hin1). lia.
Qed.

(** The first key with the greatest score, when that score is positive,
    decides the result. *)
Lemma find_by_model_first_max cls database unexact_model pre k post :
  PyDict.keys database = pre ++ k :: post ->
  0 < match_size unexact_model k ->
  (forall k', k' ∈ pre ->
              match_size unexact_model k' < match_size unexact_model k) ->
  (forall k', k' ∈ post ->
              match_size unexact_model k' <= match_size unexact_model k) ->
  exists r, PyDict.get database k = Some r /\
            _find_by_model cls database unexact_model = Returned (Some r).
Proof.
  intros Hkeys Hpos Hpre Hpost.
  rewrite find_by_model_track.
  destruct (track_fold (match_size unexact_model) (PyDict.keys database))
    as [Hle Hem].
  assert (Hin : k ∈ PyDict.keys database).
  { rewrite Hkeys. apply elem_of_app. right. left. }
  destruct (fold_left _ _ _) as [cs [k0 |]]; simpl in *.
  - destruct Hem as (_ & Hfk & pre0 & post0 & Hkeys0 & Hpre0).
    assert (Hk0 : k0 = k).
    { specialize (Hle k Hin).
      assert (Hcs : cs = match_size unexact_model k).
      { apply Nat.le_antisymm; [ | assumption ].
        rewrite <- Hfk.
        assert (Hk0in : k0 ∈ pre ++ k :: post).
        { rewrite <- Hkeys, Hkeys0. apply elem_of_app. right. left. }
        apply elem_of_app in Hk0in as [Hk0in | Hk0in].
        - specialize (Hpre _ Hk0in). lia.
        - apply elem_of_cons in Hk0in as [-> | Hk0in]; [ lia | auto ]. }
      (* both [k0] and [k] are first occurrences of the maximum *)
      rewrite Hkeys in Hkeys0.
      destruct (decide (length pre < length pre0)) as [Hlt | Hge].
      { assert (Hkin : k ∈ pre0).
        { apply (f_equal (fun l => l !! length pre)) in Hkeys0.
          rewrite list_lookup_middle in Hkeys0 by reflexivity.
          rewrite lookup_app_l in Hkeys0 by assumption.
          symmetry in Hkeys0. by apply list_elem_of_lookup_2 in Hkeys0. }
        specialize (Hpre0 _ Hkin). lia. }
      destruct (decide (length pre0 < length pre)) as [Hlt | Hge'].
      { assert (Hkin : k0 ∈ pre).
        { apply (f_equal (fun l => l !! length pre0)) in Hkeys0.
          rewrite (list_lookup_middle pre0) in Hkeys0 by reflexivity.
          rewrite lookup_app_l in Hkeys0 by assumption.
          by apply list_elem_of_lookup_2 in Hkeys0. }
        specialize (Hpre _ Hkin). lia. }
      apply (f_equal (fun l => l !! length pre)) in Hkeys0.
      rewrite list_lookup_middle in Hkeys0 by reflexivity.
      rewrite list_lookup_middle in Hkeys0 by lia.
      congruence. }
    subst k0. destruct (dict_get_key _ _ Hin) as [r Hr].
    exists r. by rewrite Hr.
  - specialize (Hle k Hin). lia.
Qed.

End FindByModel.

Section FindByModelResults.
Context {C R : Type}.

Lemma dict_keys_map {R'} (f : R -> R') (d : PyDict.dict str R) :
  PyDict.keys (map (prod_map id f) d) = PyDict.keys d.
Proof.
  unfold PyDict.keys. rewrite map_map. apply map_ext. by intros [k r].
Qed.

Lemma dict_get_map {R'} (f : R -> R') (d : PyDict.dict str R) k :
  PyDict.get (map (prod_map id f) d) k = f <$> PyDict.get d k.
Proof.
  induction d as [| [k' r] d IH]; simpl; [ reflexivity | ].
  by destruct (decide (k' = k)).
Qed.

(** C9.  The result is [None], when the loop scores no key above zero,
    or else the very record the database stores under the winning key:
    the first key, in iteration order, among those the loop scores
    highest.  It is the same whatever [cls] is, and relabelling the
    records of the database relabels the result: the matcher builds no
    record and reads none, it hands a stored one through.  The database
    is read through [keys()] and one lookup. *)
Theorem find_by_model_hands_through (cls : C) (database : PyDict.dict str R)
    (unexact_model : str) :
  ((forall k, k ∈ PyDict.keys database -> match_size unexact_model k = 0) /\
   _find_by_model cls database unexact_model = Returned None \/
   exists pre k post r,
     PyDict.keys database = pre ++ k :: post /\
     0 < match_size unexact_model k /\
     (forall k', k' ∈ pre ->
         match_size unexact_model k' < match_size unexact_model k) /\
     (forall k', k' ∈ post ->
         match_size unexact_model k' <= match_size unexact_model k) /\
     PyDict.get database k = Some r /\
     _find_by_model cls database unexact_model = Returned (Some r)) /\
  (forall (C' : Type) (cls' : C'),
      _find_by_model cls' database unexact_model =
      _find_by_model cls database unexact_model) /\
  (forall (R' : Type) (f : R -> R'),
      _find_by_model cls (map (prod_map id f) database) unexact_model =
      match _find_by_model cls database unexact_model with
      | Returned r => Returned (f <$> r)
      | Raised e => Raised e
      end).
Proof.
  split; [ | split ].
  - rewrite find_by_model_track.
    destruct (track_fold (match_size unexact_model) (PyDict.keys database))
      as [Hle Hem].
    destruct (fold_left _ _ _) as [cs [k |]]; simpl in *.
    + right. destruct Hem as (Hpos & Hfk & pre & post & Hkeys & Hpre).
      assert (Hin : k ∈ PyDict.keys database).
      { rewrite Hkeys. apply elem_of_app. right. left. }
      destruct (dict_get_key _ _ Hin) as [r Hr].
      exists pre, k, post, r. rewrite Hr, Hfk.
      repeat split; try assumption.
      intros k' Hk'. apply Hle. rewrite Hkeys.
      apply elem_of_app. right. by right.
    + left. split; [ | reflexivity ].
      intros k Hk. specialize (Hle k Hk). lia.
  - intros C' cls'. by rewrite !find_by_model_track.
  - intros R' f. rewrite !find_by_model_track, dict_keys_map.
    destruct (fold_left _ _ _) as [cs [k |]]; simpl; [ | reflexivity ].
    rewrite dict_get_map. by destruct (PyDict.get database k).
Qed.

(** C2, at a query of 200 characters.  The only key, "ba", occurs in the
    query "abab...ab" (common substring of length 2), and the result is
    [None]: [autojunk] has removed both characters of the query from the
    index of the matcher. *)
Theorem find_by_model_long_query_none (cls : C) (r : R) :
  length query200 = 200 /\
  lcs_length (py "ba") query200 = 2 /\
  _find_by_model cls [(py "ba", r)] query200 = Returned None.
Proof. repeat split; vm_compute; reflexivity. Qed.

(** A model name inside a cluttered brand string is found. *)
Example find_by_model_brand_string (cls : C) (r1 r2 : R) :
  _find_by_model cls [(py "i9-1337m", r1); (py "i5-750", r2)]
    (py "Intel(R) Core(TM) i9-1337M CPU @ 4.20GHz") = Returned (Some r1).
Proof. vm_compute. reflexivity. Qed.

(** For a query shorter than 200 characters the score of a key is the
    length of its longest common substring with the query. *)
Lemma match_size_short (unexact_model model : str) :
  length unexact_model < 200 ->
  match_size unexact_model model = lcs_length model unexact_model.
Proof. apply find_longest_match_short. Qed.

Lemma match_size_le (unexact_model model : str) :
  match_size unexact_model model <= lcs_length model unexact_model.
Proof. apply find_longest_match_le. Qed.

(** For a query shorter than 200 characters the choice of key is the
    one the specification describes: if some key has a common substring
    of positive length with the query, the result is the record stored
    under the first key, in the iteration order of the database, among
    those whose longest common substring with the query (characters
    compared as they are) is longest, so a later key wins only with a
    strictly longer one; if no key has one, the result is [None]. *)
Theorem find_by_model_short_query (cls : C) (database : PyDict.dict str R)
    (unexact_model : str) :
  length unexact_model < 200 ->
  ((forall k, k ∈ PyDict.keys database -> lcs_length k unexact_model = 0) ->
   _find_by_model cls database unexact_model = Returned None) /\
  ((exists k, k ∈ PyDict.keys database /\ 0 < lcs_length k unexact_model) ->
   returns_first_longest database unexact_model
     (_find_by_model cls database unexact_model)).
Proof.
  intros Hlen. split.
  - intros Hzero. apply find_by_model_none. intros k Hk.
    rewrite match_size_short by assumption. auto.
  - intros (k1 & Hin1 & Hpos1).
    destruct (find_by_model_positive cls database unexact_model)
      as (pre & k & post & r & Hkeys & Hpre & Hpost & Hget & Hres).
    { exists k1. by rewrite match_size_short. }
    exists pre, k, post, r. repeat split; try assumption.
    + intros k' Hk'. rewrite <- !match_size_short by assumption. auto.
    + intros k' Hk'. rewrite <- !match_size_short by assumption. auto.
Qed.

(** The tie-break is decisive: for a query shorter than 200 characters, a
    key that is first among the longest, with positive length, is the one
    whose record is returned. *)
Lemma find_by_model_short_query_first (cls : C)
    (database : PyDict.dict str R) (unexact_model : str) pre k post :
  length unexact_model < 200 ->
  PyDict.keys database = pre ++ k :: post ->
  0 < lcs_length k unexact_model ->
  (forall k', k' ∈ pre ->
              lcs_length k' unexact_model < lcs_length k unexact_model) ->
  (forall k', k' ∈ post ->
              lcs_length k' unexact_model <= lcs_length k unexact_model) ->
  exists r, PyDict.get database k = Some r /\
            _find_by_model cls database unexact_model = Returned (Some r).
Proof.
  intros Hlen Hkeys Hpos Hpre Hpost.
  apply (find_by_model_first_max cls database unexact_model pre k post);
    try assumption; rewrite ?match_size_short by assumption; auto.
  - intros k' Hk'. rewrite !match_size_short by assumption. auto.
  - intros k' Hk'. rewrite !match_size_short by assumption. auto.
Qed.

(** For every query the function returns; [None] is returned when no key
    shares a character with the query, and a returned record belongs to a
    key that does. *)
Theorem find_by_model_any_query (cls : C) (database : PyDict.dict str R)
    (unexact_model : str) :
  returns (_find_by_model cls database unexact_model) /\
  ((forall k, k ∈ PyDict.keys database -> lcs_length k unexact_model = 0) ->
   _find_by_model cls database unexact_model = Returned None) /\
  (forall r, _find_by_model cls database unexact_model = Returned (Some r) ->
             exists k, k ∈ PyDict.keys database /\
                       0 < lcs_length k unexact_model).
Proof.
  split; [ | split ].
  - destruct (find_by_model_returns cls database unexact_model)
      as [-> | (k & r & _ & _ & _ & ->)]; eexists; reflexivity.
  - intros Hzero. apply find_by_model_none. intros k Hk.
    pose proof (match_size_le unexact_model k). rewrite Hzero in *; auto. lia.
  - intros r Hr.
    destruct (find_by_model_returns cls database unexact_model)
      as [Hnone | (k & r' & Hin & _ & Hpos & _)]; [ congruence | ].
    exists k. split; [ assumption | ].
    pose proof (match_size_le unexact_model k). lia.
Qed.

End FindByModelResults.

(** For instance "i5-760" and "i5-7600" both share "i5-76" with the
    query, and the first of them wins; no key shares a character with
    "???". *)
Lemma find_by_model_short_query_witness :
  _find_by_model tt [(py "i5-760", 1); (py "i5-7600", 2)] (py "???")
    = Returned None /\
  returns_first_longest [(py "i5-760", 1); (py "i5-7600", 2)]
    (py "Intel Core i5-76 CPU")
    (_find_by_model tt [(py "i5-760", 1); (py "i5-7600", 2)]
       (py "Intel Core i5-76 CPU")).
Proof.
  split.
  - apply (proj1 (find_by_model_short_query tt
                    [(py "i5-760", 1); (py "i5-7600", 2)] (py "???")
                    ltac:(vm_compute; lia))).
    intros k Hk. apply elem_of_cons in Hk as [-> | Hk]; [ reflexivity | ].
    apply list_elem_of_singleton in Hk as ->. reflexivity.
  - apply (proj2 (find_by_model_short_query tt
                    [(py "i5-760", 1); (py "i5-7600", 2)]
                    (py "Intel Core i5-76 CPU") ltac:(vm_compute; lia))).
    exists (py "i5-760"). split; [ left | vm_compute; lia ].
Defined.

(** C1, at a query of 200 characters.  Of the two keys, "ba" has the
    longest common substring with the query "abab...ab" (2 against 1),
    and it comes first; the record returned is the one of "a".
    [autojunk] has removed both characters of the query from the index of
    the matcher, and only the extension of the empty match at the start
    of the query still finds the "a". *)
Theorem find_by_model_long_query_wrong_key :
  length query200 = 200 /\
  lcs_length (py "ba") query200 = 2 /\
  lcs_length (py "a") query200 = 1 /\
  _find_by_model tt [(py "ba", 1); (py "a", 2)] query200
    = Returned (Some 2) /\
  ~ returns_first_longest [(py "ba", 1); (py "a", 2)] query200
      (_find_by_model tt [(py "ba", 1); (py "a", 2)] query200).
Proof.
  assert (Hres : _find_by_model tt [(py "ba", 1); (py "a", 2)] query200
                 = Returned (Some 2)) by (vm_compute; reflexivity).
  assert (Hba : lcs_length (py "ba") query200 = 2)
    by (vm_compute; reflexivity).
  assert (Ha : lcs_length (py "a") query200 = 1)
    by (vm_compute; reflexivity).
  split; [ vm_compute; reflexivity | ].
  do 3 (split; [ assumption | ]).
  rewrite Hres.
  intros (pre & k & post & r & Hkeys & Hpre & _ & Hget & Hr).
  injection Hr as <-. simpl in Hget.
  destruct (decide (py "ba" = k)) as [<- | Hne]; [ discriminate | ].
  destruct (decide (py "a" = k)) as [<- | Hne']; [ | discriminate ].
  destruct pre as [| p pre].
  - simpl in Hkeys. injection Hkeys as Hk _. vm_compute in Hk.
    discriminate.
  - injection Hkeys as <- _.
    specialize (Hpre (py "ba") ltac:(left)). rewrite Hba, Ha in Hpre. lia.
Qed.

(** * RAM extraction *)

Section RamExtraction.
Context {B : Builtins}.




End RamExtraction.



(** * Sorted database files *)

Section StrOrder.
Lemma str_ltb_irrefl s : str_ltb s s = false.
Proof.
  induction s as [| c s IH]; simpl; [ reflexivity | ].
  by rewrite N.ltb_irrefl, N.eqb_refl, IH.
Qed.

Lemma str_ltb_trans s t u :
  str_ltb s t = true -> str_ltb t u = true -> str_ltb s u = true.
Proof.
  revert t u. induction s as [| c s IH]; intros [| d t] [| e u]; simpl;
    try done.
  intros Hst Htu.
  apply orb_true_iff in Hst as [Hcd | [Hcd Hst]%andb_true_iff];
    apply orb_true_iff in Htu as [Hde | [Hde Htu]%andb_true_iff];
    rewrite ?N.ltb_lt, ?N.eqb_eq in *; apply orb_true_iff.
  - left. apply N.ltb_lt. lia.
  - left. apply N.ltb_lt. lia.
  - left. apply N.ltb_lt. lia.
  - right. apply andb_true_iff. split; [ apply N.eqb_eq; lia | eauto ].
Qed.

Lemma str_ltb_total s t :
  str_ltb s t = false -> str_ltb t s = false -> s = t.
Proof.
  revert t. induction s as [| c s IH]; intros [| d t]; simpl; try done.
  intros Hst Hts.
  apply orb_false_iff in Hst as [Hcd Hst].
  apply orb_false_iff in Hts as [Hdc Hts].
  apply N.ltb_ge in Hcd, Hdc. assert (c = d) as -> by lia.
  rewrite N.eqb_refl in Hst, Hts. simpl in *. f_equal. by apply IH.
Qed.

Lemma str_lt_le s t : str_lt s t -> str_le s t.
Proof.
  unfold str_lt, str_le. intros Hst.
  destruct (str_ltb t s) eqn:Hts; [ | reflexivity ].
  pose proof (str_ltb_trans _ _ _ Hst Hts) as Hss.
  by rewrite str_ltb_irrefl in Hss.
Qed.

Lemma str_le_trans s t u : str_le s t -> str_le t u -> str_le s u.
Proof.
  unfold str_le. intros Hst Htu.
  destruct (str_ltb u s) eqn:Hus; [ | reflexivity ].
  destruct (str_ltb s t) eqn:Hst'.
  - pose proof (str_ltb_trans _ _ _ Hus Hst') as Hut. congruence.
  - rewrite (str_ltb_total _ _ Hst' Hst) in Hus. congruence.
Qed.

Lemma str_le_neq_lt s t : str_le s t -> s <> t -> str_lt s t.
Proof.
  unfold str_le, str_lt. intros Hst Hne.
  destruct (str_ltb s t) eqn:Hst'; [ reflexivity | ].
  by destruct Hne; apply str_ltb_total.
Qed.
End StrOrder.

Section SortFacts.
Import DatabaseScripts.
Context {A : Type} (key : A -> str).

#[local] Abbreviation key_le := (fun x y : A => str_le (key x) (key y)).

Lemma insert_sorted_elem x y l :
  y ∈ insert_sorted str_ltb key x l <-> y = x \/ y ∈ l.
Proof.
  induction l as [| z l IH]; simpl.
  - rewrite list_elem_of_singleton, elem_of_nil. tauto.
  - destruct (str_ltb (key x) (key z)).
    + rewrite !elem_of_cons. tauto.
    + rewrite !elem_of_cons, IH. tauto.
Qed.

Lemma insert_sorted_sorted x l :
  StronglySorted key_le l ->
  StronglySorted key_le (insert_sorted str_ltb key x l).
Proof.
  induction 1 as [| z l Hl IH Hz]; simpl.
  - repeat constructor.
  - destruct (str_ltb (key x) (key z)) eqn:Hxz.
    + constructor; [ by constructor | ].
      constructor; [ by apply str_lt_le | ].
      eapply Forall_impl; [ exact Hz | ]. simpl. intros y Hy.
      eapply str_le_trans; [ by apply str_lt_le | exact Hy ].
    + constructor; [ assumption | ].
      apply Forall_forall. intros y Hy.
      apply insert_sorted_elem in Hy as [-> | Hy]; [ exact Hxz | ].
      by eapply Forall_forall in Hz.
Qed.

Lemma sort_sorted l : StronglySorted key_le (sort str_ltb key l).
Proof.
  unfold sort. generalize (@nil A) (SSorted_nil key_le).
  induction l as [| x l IH]; intros acc Hacc; simpl; [ assumption | ].
  apply IH. by apply insert_sorted_sorted.
Qed.

Lemma strongly_sorted_snoc (l : list str) k :
  StronglySorted str_lt l -> Forall (fun k' => str_lt k' k) l ->
  StronglySorted str_lt (l ++ [k]).
Proof.
  induction 1 as [| k' l Hl IH Hk']; intros Hall; simpl.
  - repeat constructor.
  - apply Forall_cons in Hall as [Hk'k Hall]. constructor; [ auto | ].
    apply Forall_app. split; [ assumption | by constructor ].
Qed.

(** Writing records sorted by key through a dict comprehension gives
    keys in strictly ascending order: repeated keys collapse. *)
Lemma comprehension_sorted_from {V} (value : A -> V) xs (d : PyDict.dict str V) :
  StronglySorted key_le xs ->
  StronglySorted str_lt (PyDict.keys d) ->
  (forall k x, k ∈ PyDict.keys d -> x ∈ xs -> str_le k (key x)) ->
  StronglySorted str_lt
    (PyDict.keys (fold_left (fun d x => PyDict.set d (key x) (value x)) xs d)).
Proof.
  intros Hxs. revert d. induction Hxs as [| x xs Hxs IH Hx]; intros d Hd Hle.
  - assumption.
  - simpl. apply IH.
    + destruct (decide (key x ∈ PyDict.keys d)) as [Hin | Hnin].
      * by rewrite dict_set_present.
      * rewrite dict_set_fresh by assumption.
        unfold PyDict.keys in *. rewrite map_app. simpl.
        apply strongly_sorted_snoc; [ assumption | ].
        apply Forall_forall. intros k Hk.
        apply str_le_neq_lt; [ apply Hle; [ assumption | left ] | ].
        intros ->. contradiction.
    + intros k y Hk Hy.
      destruct (decide (key x ∈ PyDict.keys d)) as [Hin | Hnin].
      * rewrite dict_set_present in Hk by assumption.
        apply Hle; [ assumption | by right ].
      * rewrite dict_set_fresh in Hk by assumption.
        unfold PyDict.keys in Hk. rewrite map_app in Hk. simpl in Hk.
        apply elem_of_app in Hk as [Hk | Hk].
        -- apply Hle; [ assumption | by right ].
        -- apply list_elem_of_singleton in Hk as ->.
           by eapply Forall_forall in Hx.
Qed.

Lemma comprehension_sorted {V} (value : A -> V) xs :
  StronglySorted str_lt
    (PyDict.keys (PyDict.comprehension key value (sort str_ltb key xs))).
Proof.
  apply comprehension_sorted_from.
  - apply sort_sorted.
  - constructor.
  - intros k x Hk. by apply elem_of_nil in Hk.
Qed.

End SortFacts.

Section ScriptFacts.
Import DatabaseScripts Scripts.

(** Whatever the scraper returns, [update-cpu-database.py] writes its
    keys in strictly ascending order. *)
Theorem update_cpu_database_sorted parse CPU_DATABASE file :
  update_cpu_database parse CPU_DATABASE = Returned file ->
  StronglySorted str_lt (PyDict.keys file).
Proof.
  unfold update_cpu_database. intros Hrun.
  apply bind_returned in Hrun as (old_cpus & _ & Hrun).
  apply bind_returned in Hrun as (cpus & _ & Hrun).
  injection Hrun as <-. apply comprehension_sorted.
Qed.

Theorem update_gpu_database_sorted parse GPU_DATABASE file :
  update_gpu_database parse GPU_DATABASE = Returned file ->
  StronglySorted str_lt (PyDict.keys file).
Proof.
  unfold update_gpu_database. intros Hrun.
  apply bind_returned in Hrun as (old_gpus & _ & Hrun).
  apply bind_returned in Hrun as (parsed & _ & Hrun).
  injection Hrun as <-. apply comprehension_sorted.
Qed.

End ScriptFacts.

(** C8, at [ark_source].  [convert-divinity76s-database.py] writes the
    keys "i5-750", "i5-650" in the order of its source, which is not
    ascending: there is no sort between [convert] and [save_cpus]. *)
Theorem convert_script_writes_unsorted (B : Builtins) :
  exists file,
    Scripts.convert_divinity76s_database ark_source = Returned file /\
    PyDict.keys file = [py "i5-750"; py "i5-650"] /\
    str_lt (py "i5-650") (py "i5-750") /\
    ~ StronglySorted str_lt (PyDict.keys file).
Proof.
  eexists. split; [ vm_compute; reflexivity | ].
  split; [ reflexivity | ]. split; [ reflexivity | ].
  intros Hs. apply StronglySorted_inv in Hs as [_ Hall].
  apply Forall_cons in Hall as [Hlt _]. vm_compute in Hlt. discriminate.
Qed.

(** * Further properties of the code *)

Section DictMore.
Context {K : Type} `{EqDecision K} {V : Type}.
Implicit Types d : PyDict.dict K V.

Lemma dict_get_set d k v k' :
  PyDict.get (PyDict.set d k v) k' =
  if decide (k = k') then Some v else PyDict.get d k'.
Proof.
  induction d as [| [k0 v0] d IH]; simpl.
  - reflexivity.
  - destruct (decide (k0 = k)) as [-> | Hne]; simpl.
    + destruct (decide (k = k')); reflexivity.
    + destruct (decide (k0 = k')) as [-> | Hne'].
      * by rewrite decide_False by congruence.
      * exact IH.
Qed.



Lemma comprehension_get_from {X} (key : X -> K) (value : X -> V) xs d m :
  PyDict.get (fold_left (fun d x => PyDict.set d (key x) (value x)) xs d) m =
  match last (filter (fun x => key x = m) xs) with
  | Some x => Some (value x)
  | None => PyDict.get d m
  end.
Proof.
  revert d. induction xs as [| x xs IH]; intros d; simpl; [ reflexivity | ].
  rewrite IH, filter_cons, dict_get_set.
  destruct (decide (key x = m)) as [Hx | Hx].
  - rewrite last_cons. by destruct (last (filter _ xs)).
  - reflexivity.
Qed.

End DictMore.

Section SaveFacts.
Import DatabaseScripts.

Lemma save_cpus_eq cpus :
  save_cpus cpus = PyDict.comprehension CPU.model cpu_entry cpus.
Proof. reflexivity. Qed.

Lemma save_gpus_eq gpus :
  save_gpus gpus = PyDict.comprehension GPU.model gpu_entry gpus.
Proof. reflexivity. Qed.





End SaveFacts.

Section SortMore.
Import DatabaseScripts.
Context {A K : Type} (ltb : K -> K -> bool) (key : A -> K).

Lemma insert_sorted_perm x l : insert_sorted ltb key x l ≡ₚ x :: l.
Proof.
  induction l as [| y l IH]; simpl; [ reflexivity | ].
  destruct (ltb (key x) (key y)); [ reflexivity | ].
  rewrite IH. apply Permutation_swap.
Qed.

Lemma sort_perm l : sort ltb key l ≡ₚ l.
Proof.
  unfold sort.
  enough (forall acc, fold_left (fun acc x => insert_sorted ltb key x acc) l acc
                      ≡ₚ acc ++ l) as Hgen by apply (Hgen []).
  induction l as [| x l IH]; intros acc; simpl.
  - by rewrite app_nil_r.
  - rewrite IH, insert_sorted_perm. simpl. apply Permutation_middle.
Qed.
End SortMore.

Lemma filter_none {A} (P : A -> Prop) `{forall x, Decision (P x)} (l : list A) :
  Forall (fun x => ~ P x) l -> filter P l = [].
Proof.
  induction 1 as [| x l Hx _ IH]; [ reflexivity | ].
  by rewrite filter_cons_False.
Qed.

Section SortStable.
Import DatabaseScripts.
Context {A : Type} (key : A -> str).

#[local] Abbreviation key_le' := (fun x y : A => str_le (key x) (key y)).

Lemma insert_sorted_named x l m :
  StronglySorted key_le' l ->
  filter (fun y => key y = m) (insert_sorted str_ltb key x l) =
  filter (fun y => key y = m) l ++ filter (fun y => key y = m) [x].
Proof.
  induction 1 as [| z l Hl IH Hz]; simpl; [ reflexivity | ].
  destruct (str_ltb (key x) (key z)) eqn:Hxz.
  - destruct (decide (key x = m)) as [Hx | Hx].
    + (* nothing from [z] on carries the name [m] *)
      assert (Hnone : filter (fun y => key y = m) (z :: l) = []).
      { apply filter_none. apply Forall_cons. split.
        - intros Hzm. rewrite Hx, <- Hzm, str_ltb_irrefl in Hxz. discriminate.
        - eapply Forall_impl; [ exact Hz | ]. simpl. intros y Hzy Hym.
          unfold str_le in Hzy. rewrite Hym, <- Hx in Hzy.
          pose proof (str_lt_le _ _ Hxz) as Hle. unfold str_le in Hle.
          rewrite (str_ltb_total _ _ Hle Hzy) in Hxz.
          by rewrite str_ltb_irrefl in Hxz. }
      rewrite (filter_cons _ x), decide_True by assumption.
      rewrite Hnone. simpl. by rewrite filter_cons_True.
    + rewrite (filter_cons _ x), decide_False by assumption.
      rewrite (filter_cons_False _ x []) by assumption.
      by rewrite filter_nil, app_nil_r.
  - rewrite (filter_cons _ z (insert_sorted _ _ _ _)), IH.
    rewrite (filter_cons _ z l). by destruct (decide (key z = m)).
Qed.

(** Sorting is stable: records with the same name keep their order. *)
Lemma sort_named l m :
  filter (fun y => key y = m) (sort str_ltb key l) =
  filter (fun y => key y = m) l.
Proof.
  unfold sort.
  enough (forall acc, StronglySorted key_le' acc ->
            filter (fun y => key y = m)
              (fold_left (fun acc x => insert_sorted str_ltb key x acc) l acc) =
            filter (fun y => key y = m) acc ++ filter (fun y => key y = m) l)
    as Hgen by (apply (Hgen []); constructor).
  induction l as [| x l IH]; intros acc Hacc; simpl.
  - by rewrite app_nil_r.
  - rewrite IH by (by apply insert_sorted_sorted).
    rewrite insert_sorted_named by assumption.
    rewrite <- app_assoc. f_equal.
    rewrite (filter_cons _ x l), (filter_cons _ x []).
    by destruct (decide (key x = m)).
Qed.
End SortStable.

Lemma dict_get_None {K} `{EqDecision K} {V} (d : PyDict.dict K V) k :
  PyDict.get d k = None <-> k ∉ PyDict.keys d.
Proof.
  induction d as [| [k0 v0] d IH]; simpl.
  - split; [ intros _; apply not_elem_of_nil | reflexivity ].
  - rewrite not_elem_of_cons. destruct (decide (k0 = k)) as [-> | Hne].
    + split; [ discriminate | intros [[] _]; reflexivity ].
    + rewrite IH. split; [ intros ?; split; congruence | tauto ].
Qed.

Lemma mapM_outcome_inv {X Y} (f : X -> outcome Y) l l' :
  mapM f l = Returned l' -> Forall2 (fun x y => f x = Returned y) l l'.
Proof.
  revert l'. induction l as [| x l IH]; intros l'; simpl.
  - intros [= <-]. constructor.
  - intros Hrun. apply bind_returned in Hrun as (y & Hy & Hrun).
    apply bind_returned in Hrun as (k & Hk & Hrun).
    injection Hrun as <-. constructor; auto.
Qed.

Section Loaded.
Context {V A : Type} (model : A -> str) (R : V -> A -> Prop).

Lemma loaded_named (file : PyDict.dict str V) (old : list A) m :
  Forall2 (fun me c => model c = me.1 /\ R me.2 c) file old ->
  NoDup (PyDict.keys file) ->
  match PyDict.get file m with
  | Some e => exists c, filter (fun c => model c = m) old = [c] /\ R e c
  | None => filter (fun c => model c = m) old = []
  end.
Proof.
  induction 1 as [| [k e] c file old [Hk HR] Hall IH]; intros Hnd; simpl.
  - reflexivity.
  - apply NoDup_cons in Hnd as [Hfresh Hnd]. specialize (IH Hnd).
    simpl in Hk, Hfresh. rewrite filter_cons.
    destruct (decide (k = m)) as [-> | Hne].
    + rewrite decide_True by assumption.
      apply dict_get_None in Hfresh. rewrite Hfresh in IH. rewrite IH.
      by exists c.
    + rewrite decide_False by congruence. exact IH.
Qed.

Lemma loaded_named_perm (file : PyDict.dict str V) (old olds : list A) m :
  Forall2 (fun me c => model c = me.1 /\ R me.2 c) file old ->
  NoDup (PyDict.keys file) ->
  olds ≡ₚ old ->
  match PyDict.get file m with
  | Some e => exists c, filter (fun c => model c = m) olds = [c] /\ R e c
  | None => filter (fun c => model c = m) olds = []
  end.
Proof.
  intros Hall Hnd Hperm. pose proof (loaded_named file old m Hall Hnd) as Hold.
  assert (Hf : filter (fun c => model c = m) olds ≡ₚ
               filter (fun c => model c = m) old) by (by rewrite Hperm).
  destruct (PyDict.get file m) as [e |].
  - destruct Hold as (c & Hc & HR). exists c. split; [ | assumption ].
    rewrite Hc in Hf. by apply Permutation_singleton_r.
  - rewrite Hold in Hf. by apply Permutation_nil_r.
Qed.
End Loaded.

Section UpdateFacts.
Import DatabaseScripts Scripts.

Lemma load_cpus_items file old :
  load_cpus (Some file) = Returned old ->
  Forall2 (fun me c => CPU.model c = me.1 /\ fresh_cpu_entry me.2 (cpu_entry c))
    file old.
Proof.
  unfold load_cpus, PyDict.items. intros Hload.
  apply mapM_outcome_inv in Hload.
  eapply Forall2_impl; [ exact Hload | ].
  intros [m e] c. rewrite cpu_init_eq. intros Hinit.
  apply bind_returned in Hinit as (fc & Hc & Hinit).
  apply bind_returned in Hinit as (fs & Hs & Hinit).
  injection Hinit as <-. split; [ reflexivity | ].
  exists fc, fs. auto.
Qed.

Lemma load_gpus_items file old :
  load_gpus (Some file) = Returned old ->
  Forall2 (fun me g => GPU.model g = me.1 /\ fresh_gpu_entry me.2 (gpu_entry g))
    file old.
Proof.
  unfold load_gpus, PyDict.items. intros Hload.
  apply mapM_outcome_inv in Hload.
  eapply Forall2_impl; [ exact Hload | ].
  intros [m e] g. rewrite gpu_init_eq. intros Hinit.
  apply bind_returned in Hinit as (fv & Hv & Hinit).
  apply bind_returned in Hinit as (fs & Hs & Hinit).
  injection Hinit as <-. split; [ reflexivity | ].
  exists fv, fs. auto.
Qed.

(** What is saved after the new records were put in front of the known
    ones and the whole was sorted by model name. *)
Lemma merged_lookup {V A} (model : A -> str) (entry : A -> V)
    (R : V -> A -> Prop) (file : option (PyDict.dict str V))
    (old olds scraped : list A) m :
  match file with
  | Some d => Forall2 (fun me c => model c = me.1 /\ R me.2 c) d old
  | None => old = []
  end ->
  NoDup (known_models file) ->
  olds ≡ₚ old ->
  match stored file m with
  | Some e =>
      exists c, R e c /\
        PyDict.get (PyDict.comprehension model entry
                      (sort str_ltb model (scraped ++ olds))) m = Some (entry c)
  | None =>
      PyDict.get (PyDict.comprehension model entry
                    (sort str_ltb model (scraped ++ olds))) m =
      entry <$> last_named model m scraped
  end.
Proof.
  intros Hload Hnd Hperm.
  assert (Hget : forall l,
            PyDict.get (PyDict.comprehension model entry l) m =
            entry <$> last (filter (fun x => model x = m) l)).
  { intros l. unfold PyDict.comprehension. rewrite comprehension_get_from.
    by destruct (last _). }
  rewrite Hget, sort_named, filter_app.
  destruct file as [d |]; simpl in *.
  - pose proof (loaded_named_perm model R d old olds m Hload Hnd Hperm) as Hm.
    destruct (PyDict.get d m) as [e |].
    + destruct Hm as (c & -> & HR). exists c. split; [ assumption | ].
      by rewrite last_snoc.
    + rewrite Hm, app_nil_r. reflexivity.
  - subst old. apply Permutation_nil_r in Hperm as ->.
    by rewrite filter_nil, app_nil_r.
Qed.

(** X2.  What the two update scripts write, entry by entry.  A model name
    already in the database file keeps its stored specs, whatever the
    scraper returned under that name, and gets a score computed afresh
    from them; a model name not in the file gets the entry of the last
    scraped record of that name, and is absent when nothing of that name
    was scraped.  The database file is a JSON object: its keys are
    pairwise distinct. *)
Theorem update_scripts_keep_known_models
    (intel_ark_parse : list CPU.t -> outcome (list CPU.t))
    (wiki_gpu_tables_parse : str -> list GPU.t -> str -> outcome (list GPU.t))
    (CPU_DATABASE : option cpu_file) (GPU_DATABASE : option gpu_file) :
  NoDup (known_models CPU_DATABASE) ->
  NoDup (known_models GPU_DATABASE) ->
  (forall file,
     update_cpu_database intel_ark_parse CPU_DATABASE = Returned file ->
     exists old_cpus cpus,
       load_cpus CPU_DATABASE = Returned old_cpus /\
       intel_ark_parse (sort Z.ltb CPU.product_id old_cpus) = Returned cpus /\
       forall m,
         match stored CPU_DATABASE m with
         | Some e =>
             exists e', fresh_cpu_entry e e' /\ PyDict.get file m = Some e'
         | None =>
             PyDict.get file m = cpu_entry <$> last_named CPU.model m cpus
         end) /\
  (forall file,
     update_gpu_database wiki_gpu_tables_parse GPU_DATABASE = Returned file ->
     exists old_gpus parsed,
       load_gpus GPU_DATABASE = Returned old_gpus /\
       mapM (fun '(vendor, url) =>
               wiki_gpu_tables_parse url (sort str_ltb GPU.model old_gpus)
                 vendor) gpu_vendors = Returned parsed /\
       forall m,
         match stored GPU_DATABASE m with
         | Some e =>
             exists e', fresh_gpu_entry e e' /\ PyDict.get file m = Some e'
         | None =>
             PyDict.get file m =
             gpu_entry <$> last_named GPU.model m (concat parsed)
         end).
Proof.
  intros Hcpu Hgpu. split.
  - intros file Hrun. unfold update_cpu_database in Hrun.
    apply bind_returned in Hrun as (old_cpus & Hload & Hrun).
    apply bind_returned in Hrun as (cpus & Hparse & Hrun).
    injection Hrun as <-. exists old_cpus, cpus.
    split; [ assumption | ]. split; [ assumption | ]. intros m.
    pose proof (merged_lookup CPU.model cpu_entry
                  (fun e c => fresh_cpu_entry e (cpu_entry c))
                  CPU_DATABASE old_cpus
                  (sort Z.ltb CPU.product_id old_cpus) cpus m) as Hm.
    rewrite <- save_cpus_eq in Hm.
    destruct CPU_DATABASE as [d |]; simpl in *.
    + specialize (Hm (load_cpus_items _ _ Hload) Hcpu (sort_perm _ _ _)).
      destruct (PyDict.get d m) as [e |]; [ | exact Hm ].
      destruct Hm as (c & HR & Hget). eauto.
    + injection Hload as <-. exact (Hm eq_refl Hcpu (sort_perm _ _ _)).
  - intros file Hrun. unfold update_gpu_database in Hrun.
    apply bind_returned in Hrun as (old_gpus & Hload & Hrun).
    apply bind_returned in Hrun as (parsed & Hparse & Hrun).
    injection Hrun as <-. exists old_gpus, parsed.
    split; [ assumption | ]. split; [ assumption | ]. intros m.
    pose proof (merged_lookup GPU.model gpu_entry
                  (fun e g => fresh_gpu_entry e (gpu_entry g))
                  GPU_DATABASE old_gpus
                  (sort str_ltb GPU.model old_gpus) (concat parsed) m) as Hm.
    rewrite <- save_gpus_eq in Hm.
    destruct GPU_DATABASE as [d |]; simpl in *.
    + specialize (Hm (load_gpus_items _ _ Hload) Hgpu (sort_perm _ _ _)).
      destruct (PyDict.get d m) as [e |]; [ | exact Hm ].
      destruct Hm as (g & HR & Hget). eauto.
    + injection Hload as <-. exact (Hm eq_refl Hgpu (sort_perm _ _ _)).
Qed.

(** X3.  Whatever the scrapers return, both update scripts write the model
    names in strictly ascending order. *)
Theorem update_scripts_write_sorted
    (intel_ark_parse : list CPU.t -> outcome (list CPU.t))
    (wiki_gpu_tables_parse : str -> list GPU.t -> str -> outcome (list GPU.t))
    (CPU_DATABASE : option cpu_file) (GPU_DATABASE : option gpu_file) :
  (forall file,
     update_cpu_database intel_ark_parse CPU_DATABASE = Returned file ->
     StronglySorted str_lt (PyDict.keys file)) /\
  (forall file,
     update_gpu_database wiki_gpu_tables_parse GPU_DATABASE = Returned file ->
     StronglySorted str_lt (PyDict.keys file)).
Proof.
  split; intros file Hrun.
  - eapply update_cpu_database_sorted; eassumption.
  - eapply update_gpu_database_sorted; eassumption.
Qed.
End UpdateFacts.

Lemma bind_raised {A C} (m : outcome A) (k : A -> outcome C) e :
  m ≫= k = Raised e ->
  m = Raised e \/ exists a, m = Returned a /\ k a = Raised e.
Proof. destruct m as [a | e']; [ eauto | intros [= ->]; auto ]. Qed.

Section ConvertFacts.
Context {B : Builtins}.
Import DatabaseScripts Scripts.

Lemma int_of_str_raises s e : int_of_str s = Raised e -> e = ValueError.
Proof.
  unfold int_of_str. destruct (_ && _); [ discriminate | ].
  destruct (int_other s); [ discriminate | congruence ].
Qed.

Lemma float_of_str_raises s e : float_of_str s = Raised e -> e = ValueError.
Proof.
  unfold float_of_str. destruct (short_decimal s) as [[m k] |];
    [ discriminate | ].
  destruct (float_other s); [ discriminate | congruence ].
Qed.

Lemma cpu_init_raises model product_id vendor corecount corespeed e :
  CPU.__init__ model product_id vendor corecount corespeed = Raised e ->
  e = OverflowError.
Proof.
  rewrite cpu_init_eq. intros Hinit.
  apply bind_raised in Hinit as [Hc | (fc & _ & Hinit)];
    [ by eapply to_float_raises | ].
  apply bind_raised in Hinit as [Hs | (fs & _ & Hinit)];
    [ by eapply to_float_raises | discriminate ].
Qed.


Lemma subscript_returned {A} (field : option A) x :
  subscript field = Returned x -> field = Some x.
Proof. destruct field; simpl; congruence. Qed.

Lemma item_raises {A} (l : list A) i e : item l i = Raised e -> e = IndexError.
Proof. unfold item. destruct (l !! i); congruence. Qed.

Lemma item_returned {A} (l : list A) i x : item l i = Returned x -> l !! i = Some x.
Proof. unfold item. destruct (l !! i); congruence. Qed.

(** The entries [convert_entry] turns into a record. *)
Lemma convert_entry_some key specs cpu :
  convert_entry key specs = Returned (Some cpu) <-> converted (key, specs) cpu.
Proof.
  unfold convert_entry, converted, parsed_entry. simpl. split.
  - intros Hrun.
    apply bind_returned in Hrun as (product_id & Hid & Hrun).
    apply bind_returned in Hrun as (ess & Hess%subscript_returned & Hrun).
    destruct ess as [model |]; [ | discriminate ].
    apply bind_returned in Hrun as (perf & Hperf%subscript_returned & Hrun).
    apply bind_returned in Hrun as (cores & Hcores%subscript_returned & Hrun).
    apply bind_returned in Hrun as (corecount & Hcount & Hrun).
    apply bind_returned in Hrun as (perf' & Hperf'%subscript_returned & Hrun).
    assert (perf' = perf) as -> by congruence.
    apply bind_returned in Hrun as (freq & Hfreq%subscript_returned & Hrun).
    apply bind_returned in Hrun as (raw0 & Hraw0%item_returned & Hrun).
    apply bind_returned in Hrun as (value & Hvalue & Hrun).
    apply bind_returned in Hrun as (unit & Hunit%item_returned & Hrun).
    apply bind_returned in Hrun as (cpu' & Hinit & Hrun).
    injection Hrun as ->.
    exists product_id, model, corecount, value, unit.
    split; [ | assumption ]. split; [ assumption | ]. split; [ assumption | ].
    destruct (split_space freq) as [| r0 [| u rest]] eqn:Hraw; try discriminate.
    injection Hraw0 as ->. injection Hunit as ->.
    exists perf, cores, freq, raw0, rest. auto 10.
  - intros (product_id & model & corecount & value & unit & Hparsed & Hinit).
    destruct Hparsed as (Hid & Hess &
      perf & cores & freq & raw0 & rest &
      Hperf & Hcores & Hcount & Hfreq & Hraw & Hvalue).
    rewrite Hid, Hess. simpl. rewrite Hperf. simpl. rewrite Hcores. simpl.
    rewrite Hcount. simpl. rewrite Hfreq. simpl. rewrite Hraw.
    unfold item. simpl. rewrite Hvalue. simpl. rewrite Hinit. reflexivity.
Qed.

(** An entry that has everything never takes the [continue]. *)
Lemma convert_entry_parsed entry product_id model corecount value unit :
  parsed_entry entry product_id model corecount value unit ->
  convert_entry entry.1 entry.2 =
  cpu ← CPU.__init__ model product_id (py "intel") (PyInt corecount)
          (human_readable_to_hertz (PyFloat value) unit);
  Returned (Some cpu).
Proof.
  intros (Hid & Hess & perf & cores & freq & raw0 & rest &
          Hperf & Hcores & Hcount & Hfreq & Hraw & Hvalue).
  unfold convert_entry.
  rewrite Hid, Hess. simpl. rewrite Hperf. simpl. rewrite Hcores. simpl.
  rewrite Hcount. simpl. rewrite Hfreq. simpl. rewrite Hraw.
  unfold item. simpl. rewrite Hvalue. reflexivity.
Qed.





Lemma convert_loop_returned entries cpus0 cpus :
  foldlM convert_step cpus0 entries = Returned cpus ->
  exists kept new,
    cpus = cpus0 ++ new /\ kept `sublist_of` entries /\
    Forall2 converted kept new /\
    forall entry product_id model corecount value unit,
      entry ∈ entries ->
      parsed_entry entry product_id model corecount value unit ->
      exists cpu, cpu ∈ new /\ converted entry cpu.
Proof.
  revert cpus0. induction entries as [| [key specs] entries IH];
    intros cpus0; simpl.
  - intros [= <-]. exists [], []. rewrite app_nil_r.
    split; [ reflexivity | ]. split; [ constructor | ].
    split; [ constructor | ]. intros entry ? ? ? ? ? Hin.
    by apply elem_of_nil in Hin.
  - intros Hrun. apply bind_returned in Hrun as (cpus1 & Hstep & Hrun).
    apply IH in Hrun as (kept & new & -> & Hsub & Hconv & Hall).
    unfold convert_step in Hstep. simpl in Hstep.
    destruct (convert_entry key specs) as [[cpu |] | e] eqn:Hentry.
    + injection Hstep as <-. apply convert_entry_some in Hentry.
      exists ((key, specs) :: kept), (cpu :: new).
      split; [ by rewrite <- app_assoc | ].
      split; [ by constructor | ]. split; [ by constructor | ].
      intros entry product_id model corecount value unit Hin Hparsed.
      apply elem_of_cons in Hin as [-> | Hin].
      * exists cpu. split; [ left | assumption ].
      * destruct (Hall _ _ _ _ _ _ Hin Hparsed) as (cpu' & Hcpu' & Hconv').
        exists cpu'. split; [ by right | assumption ].
    + injection Hstep as <-. exists kept, new.
      split; [ reflexivity | ]. split; [ by constructor | ].
      split; [ assumption | ].
      intros entry product_id model corecount value unit Hin Hparsed.
      apply elem_of_cons in Hin as [-> | Hin]; [ | eauto ].
      pose proof (convert_entry_parsed _ _ _ _ _ _ Hparsed) as Hcomplete.
      simpl in Hcomplete. rewrite Hcomplete in Hentry. simpl in Hentry. destruct (CPU.__init__ _ _ _ _ _); discriminate.
    + assert (cpus1 = cpus0) as ->
        by (destruct e; congruence).
      exists kept, new.
      split; [ reflexivity | ]. split; [ by constructor | ].
      split; [ assumption | ].
      intros entry product_id model corecount value unit Hin Hparsed.
      apply elem_of_cons in Hin as [-> | Hin]; [ | eauto ].
      pose proof (convert_entry_parsed _ _ _ _ _ _ Hparsed) as Hcomplete.
      simpl in Hcomplete. rewrite Hcomplete in Hentry. simpl in Hentry.
      destruct (CPU.__init__ _ _ _ _ _) as [cpu | e'] eqn:Hinit;
        [ discriminate | ].
      apply cpu_init_raises in Hinit as ->. injection Hentry as <-.
      discriminate.
Qed.

(** X4.  When [convert] returns, its records are built, in the order of
    the source, from entries of the source that have everything the loop
    reads (integer key, processor number, integer core count, base
    frequency written as a number, a space and a unit), with vendor
    "intel"; and every such entry of the source has its record in the
    result.  Entries that lack something are skipped. *)
Theorem convert_keeps_complete_entries
    (source : PyDict.dict str ark_specs) (cpus : list CPU.t) :
  convert source = Returned cpus ->
  (exists kept,
      kept `sublist_of` PyDict.items source /\ Forall2 converted kept cpus) /\
  (forall entry product_id model corecount value unit,
      entry ∈ PyDict.items source ->
      parsed_entry entry product_id model corecount value unit ->
      exists cpu, cpu ∈ cpus /\ converted entry cpu).
Proof.
  unfold convert. intros Hrun.
  apply convert_loop_returned in Hrun as (kept & new & -> & Hsub & Hconv & Hall).
  simpl. split; [ by exists kept | assumption ].
Qed.

End ConvertFacts.

Section Lookup.
Context {C R : Type}.

Lemma lcs_length_nil_r (k : str) : lcs_length k [] = 0.
Proof.
  destruct (lcs_length_matched k []) as (i & j & Hm).
  destruct (lcs_length k []) as [| n]; [ reflexivity | ].
  apply matched_bound_r in Hm; [ simpl in Hm; lia | lia ].
Qed.

(** X6.  [_find_by_model] never raises, whatever the database and the
    query: it returns [None] or a record that the database stores under a
    key sharing at least one character with the query.  It returns [None]
    for an empty database, for an empty query, and whenever no key shares
    a character with the query. *)
Theorem find_by_model_never_raises (cls : C) (database : PyDict.dict str R)
    (unexact_model : str) :
  (_find_by_model cls database unexact_model = Returned None \/
   exists k r,
     PyDict.get database k = Some r /\ 0 < lcs_length k unexact_model /\
     _find_by_model cls database unexact_model = Returned (Some r)) /\
  _find_by_model cls (@nil (str * R)) unexact_model = Returned None /\
  _find_by_model cls database [] = Returned None /\
  ((forall k, k ∈ PyDict.keys database -> lcs_length k unexact_model = 0) ->
   _find_by_model cls database unexact_model = Returned None).
Proof.
  assert (Hnone : forall q,
            (forall k, k ∈ PyDict.keys database -> lcs_length k q = 0) ->
            _find_by_model cls database q = Returned None).
  { intros q Hzero. apply find_by_model_none. intros k Hk.
    pose proof (match_size_le q k) as Hle. rewrite (Hzero k Hk) in Hle. lia. }
  split; [ | split; [ | split ] ].
  - destruct (find_by_model_returns cls database unexact_model)
      as [Hn | (k & r & Hin & Hget & Hpos & Hres)]; [ by left | ].
    right. exists k, r. split; [ assumption | ]. split; [ | assumption ].
    pose proof (match_size_le unexact_model k). lia.
  - apply find_by_model_none. intros k Hk. by apply elem_of_nil in Hk.
  - apply Hnone. intros k _. apply lcs_length_nil_r.
  - apply Hnone.
Qed.
End Lookup.

Section SetupFacts.
Context {B : Builtins} {CPU GPU Setup : Type}.
Variable MODEL_TO_CPU : PyDict.dict str CPU.
Variable MODEL_TO_GPU : PyDict.dict str GPU.
Variable SystemSetup : option CPU -> option GPU -> option number -> Setup.

Lemma find_by_model_result {C R} (cls : C) (database : PyDict.dict str R) q :
  exists res,
    _find_by_model cls database q = Returned res /\
    forall r, res = Some r ->
      exists k, PyDict.get database k = Some r /\ 0 < lcs_length k q.
Proof.
  destruct (find_by_model_returns cls database q)
    as [Hn | (k & r & Hin & Hget & Hpos & Hres)].
  - exists None. split; [ assumption | discriminate ].
  - exists (Some r). split; [ assumption | ]. intros r' [= <-].
    exists k. split; [ assumption | ].
    pose proof (match_size_le q k). lia.
Qed.

(** X7.  [setup_from_clutter] never raises, whatever the three strings:
    it returns the setup made of what [find_cpu_by_model] and
    [find_gpu_by_model] return and of the RAM read from the third string,
    each of the three being [None] on its own when it cannot be
    determined.  A CPU or GPU in the setup is a record of the database
    whose model name shares a character with the string given. *)
Theorem setup_from_clutter_returns (cpu_clutter gpu_clutter ram_clutter : str) :
  exists cpu gpu,
    setup_from_clutter MODEL_TO_CPU MODEL_TO_GPU SystemSetup
      cpu_clutter gpu_clutter ram_clutter =
    Returned (SystemSetup cpu gpu (ram_from_clutter ram_clutter)) /\
    find_cpu_by_model MODEL_TO_CPU cpu_clutter = Returned cpu /\
    find_gpu_by_model MODEL_TO_GPU gpu_clutter = Returned gpu /\
    (forall c, cpu = Some c ->
       exists k, PyDict.get MODEL_TO_CPU k = Some c /\
                 0 < lcs_length k cpu_clutter) /\
    (forall g, gpu = Some g ->
       exists k, PyDict.get MODEL_TO_GPU k = Some g /\
                 0 < lcs_length k gpu_clutter).
Proof.
  unfold setup_from_clutter, find_cpu_by_model, find_gpu_by_model.
  destruct (find_by_model_result CPU MODEL_TO_CPU cpu_clutter)
    as (cpu & Hcpu & Hc).
  destruct (find_by_model_result GPU MODEL_TO_GPU gpu_clutter)
    as (gpu & Hgpu & Hg).
  exists cpu, gpu. rewrite Hcpu, Hgpu. simpl. auto.
Qed.
End SetupFacts.

Section SplitFacts.
Lemma split_char_aux_free sep cur s :
  free_of sep s -> split_char_aux sep cur s = [rev cur ++ s].
Proof.
  unfold free_of. revert cur. induction s as [| c s IH]; intros cur Hfree; simpl.
  - by rewrite app_nil_r.
  - apply not_elem_of_cons in Hfree as [Hne Hfree].
    destruct (N.eqb_spec c sep) as [-> | _]; [ done | ].
    rewrite IH by assumption. simpl. by rewrite <- app_assoc.
Qed.

Lemma split_char_aux_nonempty sep cur s : split_char_aux sep cur s <> [].
Proof.
  revert cur. induction s as [| c s IH]; intros cur; simpl; [ done | ].
  destruct (c =? sep)%N; [ done | apply IH ].
Qed.

Lemma last_cons_nonempty {A} (x d : A) l :
  l <> [] -> List.last (x :: l) d = List.last l d.
Proof. destruct l; [ done | reflexivity ]. Qed.

(** The last piece of a split is what follows the last separator. *)
Lemma split_char_aux_last sep cur p t :
  free_of sep t ->
  List.last (split_char_aux sep cur (p ++ sep :: t)) [] = t.
Proof.
  intros Hfree. revert cur. induction p as [| c p IH]; intros cur; simpl.
  - rewrite N.eqb_refl.
    rewrite last_cons_nonempty by apply split_char_aux_nonempty.
    by rewrite split_char_aux_free.
  - destruct (c =? sep)%N; [ | apply IH ].
    rewrite last_cons_nonempty by apply split_char_aux_nonempty. apply IH.
Qed.

Lemma split_char_last sep p t :
  free_of sep t -> List.last (split_char sep (p ++ sep :: t)) [] = t.
Proof. apply split_char_aux_last. Qed.

Lemma split_crlf_aux_nonempty skip cur s : split_crlf_aux skip cur s <> [].
Proof.
  revert skip cur. induction s as [| c s IH]; intros skip cur; simpl; [ done | ].
  destruct skip; [ apply IH | ].
  destruct (_ && _); [ done | apply IH ].
Qed.

Lemma starts_with_crlf c s :
  starts_with [13; 10]%N (c :: s) =
  (c =? 13)%N && bool_decide (head s = Some 10%N).
Proof.
  cbn [starts_with]. rewrite (N.eqb_sym 13 c). f_equal.
  destruct s as [| d s]; cbn [starts_with head].
  - by rewrite bool_decide_eq_false_2.
  - rewrite andb_true_r. destruct (N.eqb_spec 10 d) as [<- | Hne].
    + by rewrite bool_decide_eq_true_2.
    + rewrite bool_decide_eq_false_2; [ done | congruence ].
Qed.

Lemma split_crlf_aux_none cur s :
  contains [13; 10]%N s = false -> split_crlf_aux false cur s = [rev cur ++ s].
Proof.
  revert cur. induction s as [| c s IH]; intros cur Hno.
  - simpl. by rewrite app_nil_r.
  - cbn [contains] in Hno. apply orb_false_iff in Hno as [Hhere Hlater].
    rewrite starts_with_crlf in Hhere. cbn [split_crlf_aux].
    rewrite Hhere, IH by assumption. simpl. by rewrite <- app_assoc.
Qed.

Lemma split_crlf_aux_some cur s :
  contains [13; 10]%N s = true -> 2 <= length (split_crlf_aux false cur s).
Proof.
  revert cur. induction s as [| c s IH]; intros cur Hyes.
  - discriminate.
  - cbn [contains] in Hyes. rewrite starts_with_crlf in Hyes.
    cbn [split_crlf_aux].
    destruct ((c =? 13)%N && bool_decide (head s = Some 10%N)).
    + simpl. pose proof (split_crlf_aux_nonempty true [] s).
      destruct (split_crlf_aux true [] s); [ done | simpl; lia ].
    + simpl in Hyes. by apply IH.
Qed.
End SplitFacts.

Section StripFacts.
Context {W : Whitespace}.

Lemma lstrip_nil s : lstrip s = [] -> Forall (fun c => isspace_cp c = true) s.
Proof.
  induction s as [| c s IH]; simpl; [ constructor | ].
  destruct (isspace_cp c) eqn:Hc; [ | discriminate ].
  intros Hs. constructor; auto.
Qed.

Lemma lstrip_head s c t : lstrip s = c :: t -> isspace_cp c = false.
Proof.
  induction s as [| d s IH]; simpl; [ discriminate | ].
  destruct (isspace_cp d) eqn:Hd; [ assumption | ]. by intros [= -> ->].
Qed.

Lemma lstrip_suffix s : exists pre, s = pre ++ lstrip s /\
                                   Forall (fun c => isspace_cp c = true) pre.
Proof.
  induction s as [| c s (pre & Hs & Hpre)]; simpl.
  - exists []. split; [ reflexivity | constructor ].
  - destruct (isspace_cp c) eqn:Hc.
    + exists (c :: pre). split; [ simpl; by f_equal | by constructor ].
    + exists []. split; [ reflexivity | constructor ].
Qed.

Lemma strip_nil s : strip s = [] -> Forall (fun c => isspace_cp c = true) s.
Proof.
  unfold strip, rstrip. intros Hs.
  apply (f_equal (@rev _)) in Hs. rewrite rev_involutive in Hs. simpl in Hs.
  apply lstrip_nil in Hs. apply Forall_rev in Hs. rewrite rev_involutive in Hs.
  destruct (lstrip s) as [| c t] eqn:Hl; [ by apply lstrip_nil | ].
  apply lstrip_head in Hl. apply Forall_cons in Hs as [Hc _]. congruence.
Qed.

Lemma starts_with_app p s : starts_with p s = true -> exists t, s = p ++ t.
Proof.
  revert s. induction p as [| c p IH]; intros s; simpl; [ by exists s | ].
  destruct s as [| d s]; [ discriminate | ].
  intros [Hcd Hp]%andb_true_iff. apply N.eqb_eq in Hcd as ->.
  destruct (IH _ Hp) as [t ->]. by exists t.
Qed.

Lemma contains_app needle hay :
  contains needle hay = true -> exists pre post, hay = pre ++ needle ++ post.
Proof.
  induction hay as [| c hay IH]; simpl.
  - rewrite orb_false_r. intros [t Ht]%starts_with_app. by exists [], t.
  - intros [Hhere | Hlater]%orb_true_iff.
    + apply starts_with_app in Hhere as [t Ht]. by exists [], t.
    + destruct (IH Hlater) as (pre & post & ->). by exists (c :: pre), post.
Qed.

(** A blank line names no graphics card. *)
Lemma blank_not_vga line : strip line = [] -> ~ vga_line line.
Proof.
  intros Hblank%strip_nil Hvga. apply contains_app in Hvga as (pre & post & ->).
  apply Forall_app in Hblank as [_ Hblank].
  apply Forall_app in Hblank as [Hblank _].
  apply Forall_cons in Hblank as [HV _]. discriminate.
Qed.
End StripFacts.

Section LspciFacts.
Context {W : Whitespace}.
Import ComphardwareUser.

Lemma scan_model_clean (consumed clean rest : str) :
  free_of 40 clean -> free_of 93 clean ->
  scan_model (consumed ++ clean ++ rest) (length consumed) consumed
    (clean ++ rest) =
  scan_model (consumed ++ clean ++ rest) (length (consumed ++ clean))
    (consumed ++ clean) rest.
Proof.
  unfold free_of. revert consumed.
  induction clean as [| c clean IH]; intros consumed H40 H93.
  - simpl. by rewrite !app_nil_r.
  - apply not_elem_of_cons in H40 as [Hc40 H40].
    apply not_elem_of_cons in H93 as [Hc93 H93].
    cbn [app scan_model].
    destruct (N.eqb_spec c 40) as [-> | _]; [ done | ].
    destruct (N.eqb_spec c 93) as [-> | _]; [ done | ].
    specialize (IH (consumed ++ [c]) H40 H93).
    replace (length (consumed ++ [c])) with (S (length consumed)) in IH
      by (rewrite length_app; simpl; lia).
    replace ((consumed ++ [c]) ++ clean ++ rest)
      with (consumed ++ c :: clean ++ rest) in IH
      by (by rewrite <- app_assoc).
    replace ((consumed ++ [c]) ++ clean) with (consumed ++ c :: clean) in IH
      by (by rewrite <- app_assoc).
    exact IH.
Qed.

Lemma scan_model_plain name :
  free_of 40 name -> free_of 93 name -> scan_model name 0 [] name = name.
Proof.
  intros H40 H93.
  pose proof (scan_model_clean [] name [] H40 H93) as Hs.
  simpl in Hs. rewrite app_nil_r in Hs. by rewrite Hs.
Qed.

Lemma scan_model_paren name post :
  free_of 40 name -> free_of 93 name ->
  scan_model (name ++ 40%N :: post) 0 [] (name ++ 40%N :: post) = name.
Proof.
  intros H40 H93.
  pose proof (scan_model_clean [] name (40%N :: post) H40 H93) as Hs.
  simpl in Hs. by rewrite Hs.
Qed.

Lemma scan_model_bracket text post :
  free_of 40 text -> free_of 93 text ->
  scan_model (text ++ 93%N :: post) 0 [] (text ++ 93%N :: post) =
  List.last (split_char 91 text) [].
Proof.
  intros H40 H93.
  pose proof (scan_model_clean [] text (93%N :: post) H40 H93) as Hs.
  simpl in Hs. rewrite Hs. by rewrite take_app_length.
Qed.

Lemma free_of_app c s t : free_of c (s ++ t) <-> free_of c s /\ free_of c t.
Proof. unfold free_of. rewrite elem_of_app. tauto. Qed.

Lemma free_of_cons c d s : free_of c (d :: s) <-> c <> d /\ free_of c s.
Proof. unfold free_of. rewrite elem_of_cons. tauto. Qed.

(** X8.  What [_user_gpu_by_platform] reads from one line of [lspci]:
    of the text after the last colon, the name between the last "[" and
    the first "]" when a "]" comes before any "("; otherwise everything
    up to the first "(", or the whole text when there is neither.  The
    result is not stripped of its surrounding spaces. *)
Theorem lspci_model_of_line (before : str) :
  (forall pre name post,
      free_of 58 (pre ++ name ++ post) ->
      free_of 40 (pre ++ name) -> free_of 93 (pre ++ name) ->
      free_of 91 name ->
      lspci_model (before ++ [58%N] ++ pre ++ [91%N] ++ name ++ [93%N] ++ post)
      = name) /\
  (forall name post,
      free_of 58 (name ++ post) ->
      free_of 40 name -> free_of 93 name ->
      lspci_model (before ++ [58%N] ++ name ++ [40%N] ++ post) = name) /\
  (forall name,
      free_of 58 name -> free_of 40 name -> free_of 93 name ->
      lspci_model (before ++ [58%N] ++ name) = name).
Proof.
  unfold lspci_model. split; [ | split ].
  - intros pre name post H58 H40 H93 H91.
    apply free_of_app in H58 as [H58pre H58].
    apply free_of_app in H58 as [H58name H58post].
    simpl. rewrite split_char_last.
    2:{ apply free_of_app. split; [ assumption | ].
        apply free_of_cons. split; [ done | ].
        apply free_of_app. split; [ assumption | ].
        apply free_of_cons. split; [ done | assumption ]. }
    replace (pre ++ 91%N :: name ++ 93%N :: post)
      with ((pre ++ 91%N :: name) ++ 93%N :: post)
      by (by rewrite <- app_assoc).
    apply free_of_app in H40 as [H40pre H40name].
    apply free_of_app in H93 as [H93pre H93name].
    rewrite scan_model_bracket.
    + by apply split_char_last.
    + apply free_of_app. split; [ assumption | ].
      apply free_of_cons. split; [ done | assumption ].
    + apply free_of_app. split; [ assumption | ].
      apply free_of_cons. split; [ done | assumption ].
  - intros name post H58 H40 H93.
    apply free_of_app in H58 as [H58name H58post].
    simpl. rewrite split_char_last.
    + by apply scan_model_paren.
    + apply free_of_app. split; [ assumption | ].
      apply free_of_cons. split; [ done | assumption ].
  - intros name H58 H40 H93. simpl. rewrite split_char_last by assumption.
    by apply scan_model_plain.
Qed.

Lemma lspci_line_spec acc line :
  lspci_line acc line =
  if decide (vga_line line) then Some (lspci_model line) else acc.
Proof.
  unfold lspci_line, lspci_model.
  destruct (bool_decide (strip line = [])) eqn:Hblank.
  - apply bool_decide_eq_true in Hblank. apply blank_not_vga in Hblank.
    by rewrite decide_False.
  - destruct (decide (vga_line line)) as [Hvga | Hvga]; unfold vga_line in Hvga.
    + by rewrite Hvga.
    + by apply not_true_is_false in Hvga as ->.
Qed.

Lemma lspci_fold lines acc :
  fold_left lspci_line lines acc =
  match last (filter vga_line lines) with
  | Some line => Some (lspci_model line)
  | None => acc
  end.
Proof.
  revert acc. induction lines as [| line lines IH]; intros acc; simpl;
    [ reflexivity | ].
  rewrite IH, lspci_line_spec, filter_cons.
  destruct (decide (vga_line line)); [ | reflexivity ].
  rewrite last_cons. by destruct (last (filter vga_line lines)).
Qed.

(** X9.  On Linux [_user_gpu_by_platform] takes the model from the last
    line of the [lspci] output that contains "VGA compatible controller"
    (blank lines never count), and returns [None] when no line does. *)
Theorem lspci_last_card_wins (m : machine) (output : str) :
  system m = py "Linux" ->
  lspci m = Some output ->
  _user_gpu_by_platform m =
  inr (lspci_model <$> last (filter vga_line (split_char 10 output))).
Proof.
  intros Hsys Hout. unfold _user_gpu_by_platform.
  rewrite Hsys, Hout. simpl. f_equal.
  rewrite lspci_fold. by destruct (last _).
Qed.

(** X10.  On Windows [_user_gpu_by_platform] returns what stands between
    the first and the second CR LF of the WMIC output, and fails (with
    an [IndexError]) exactly when the output holds no CR LF at all. *)
Theorem wmic_second_line (m : machine) (wmic_query_output : str) :
  system m = py "Windows" ->
  wmic m = Some wmic_query_output ->
  (contains [13; 10]%N wmic_query_output = false ->
   _user_gpu_by_platform m = inl NoSecondLine) /\
  (contains [13; 10]%N wmic_query_output = true ->
   exists gpu_model,
     split_crlf wmic_query_output !! 1 = Some gpu_model /\
     _user_gpu_by_platform m = inr (Some gpu_model)).
Proof.
  intros Hsys Hout. unfold _user_gpu_by_platform.
  rewrite Hsys, Hout. simpl. split; intros Hcrlf.
  - unfold split_crlf. by rewrite split_crlf_aux_none.
  - pose proof (split_crlf_aux_some [] _ Hcrlf) as Hlen.
    fold (split_crlf wmic_query_output) in Hlen.
    destruct (split_crlf wmic_query_output !! 1) as [gpu_model |] eqn:Hl.
    + by exists gpu_model.
    + apply lookup_ge_None in Hl. lia.
Qed.
End LspciFacts.

Section UserFacts.
Context {W : Whitespace} {CPU GPU Setup : Type}.
Variable MODEL_TO_CPU : PyDict.dict str CPU.
Variable MODEL_TO_GPU : PyDict.dict str GPU.
Variable SystemSetup : option CPU -> option GPU -> option number -> Setup.
Import ComphardwareUser.

#[local] Abbreviation user_cpu := (user_cpu MODEL_TO_CPU).
#[local] Abbreviation user_gpu := (user_gpu MODEL_TO_GPU).
#[local] Abbreviation user_setup :=
  (user_setup MODEL_TO_CPU MODEL_TO_GPU SystemSetup).

Lemma find_cpu_returns brand :
  exists cpu, Comphardware.find_cpu_by_model MODEL_TO_CPU brand = Returned cpu.
Proof.
  destruct (find_by_model_result CPU MODEL_TO_CPU brand) as (cpu & Hcpu & _).
  by exists cpu.
Qed.

Lemma find_gpu_returns model :
  exists gpu, Comphardware.find_gpu_by_model MODEL_TO_GPU model = Returned gpu.
Proof.
  destruct (find_by_model_result GPU MODEL_TO_GPU model) as (gpu & Hgpu & _).
  by exists gpu.
Qed.

(** What [user_cpu] returns and what it leaves in the cache. *)
Lemma user_cpu_cached (m m' : machine) (st : caches CPU GPU) :
  exists cpu st',
    user_cpu m st = (Returned cpu, st') /\
    (_cached_gpu st' = _cached_gpu st) /\
    ((_cached_cpu st <> None \/
      exists brand, brand_raw m = Some brand /\ brand <> []) ->
     _cached_cpu st' = Some cpu /\
     user_cpu m' st' = (Returned cpu, st')) /\
    (_cached_cpu st = None ->
     brand_raw m = None \/ brand_raw m = Some [] ->
     cpu = None /\ st' = st).
Proof.
  unfold ComphardwareUser.user_cpu.
  destruct (_cached_cpu st) as [cached |] eqn:Hcache.
  - exists cached, st. rewrite Hcache.
    split; [ reflexivity | ]. split; [ reflexivity | ].
    split; [ auto | discriminate ].
  - destruct (brand_raw m) as [[| c brand] |] eqn:Hbrand.
    + exists None, st. rewrite Hcache.
      split; [ reflexivity | ]. split; [ reflexivity | ].
      split; [ | auto ].
      intros [Hc | (brand & [= <-] & Hne)]; congruence.
    + destruct (find_cpu_returns (c :: brand)) as [cpu Hcpu].
      rewrite Hcpu. exists cpu, (mk_caches (Some cpu) (_cached_gpu st)).
      simpl. split; [ reflexivity | ]. split; [ reflexivity | ].
      split; [ auto | ]. intros _ [? | ?]; discriminate.
    + exists None, st. rewrite Hcache.
      split; [ reflexivity | ]. split; [ reflexivity | ].
      split; [ | auto ].
      intros [Hc | (brand & [=] & Hne)]; congruence.
Qed.

(** X11.  [user_cpu] never raises.  Once it has looked a non-empty brand
    string up, the result, also a [None] for a CPU that is not in the
    database, is remembered: every later call returns it without looking
    at the machine again.  With no brand string, or an empty one, it
    returns [None] and remembers nothing, so the next call probes
    again. *)
Theorem user_cpu_remembers (m m' : machine) (st : caches CPU GPU) :
  exists cpu st',
    user_cpu m st = (Returned cpu, st') /\
    (_cached_gpu st' = _cached_gpu st) /\
    ((_cached_cpu st <> None \/
      exists brand, brand_raw m = Some brand /\ brand <> []) ->
     _cached_cpu st' = Some cpu /\
     user_cpu m' st' = (Returned cpu, st')) /\
    (_cached_cpu st = None ->
     brand_raw m = None \/ brand_raw m = Some [] ->
     cpu = None /\ st' = st).
Proof. exact (user_cpu_cached m m' st). Qed.

(** X12.  [user_gpu] asks the platform only when there is no OpenGL
    renderer string (or [force_no_window] is set).  A model string from
    either source is looked up and the result, also a [None], is
    remembered for all later calls, whatever their argument; when the
    platform finds no card, [None] is returned and nothing is
    remembered. *)
Theorem user_gpu_remembers (force_no_window force' : bool) (m m' : machine)
    (st : caches CPU GPU) (gpu_model : str) :
  _cached_gpu st = None ->
  ((force_no_window = false /\ opengl_renderer m = Some gpu_model) \/
   ((force_no_window = true \/ opengl_renderer m = None) /\
    _user_gpu_by_platform m = inr (Some gpu_model))) ->
  exists gpu st',
    Comphardware.find_gpu_by_model MODEL_TO_GPU gpu_model = Returned gpu /\
    user_gpu force_no_window m st = (Returned gpu, st') /\
    _cached_cpu st' = _cached_cpu st /\
    _cached_gpu st' = Some gpu /\
    user_gpu force' m' st' = (Returned gpu, st').
Proof.
  intros Hcache Hmodel.
  destruct (find_gpu_returns gpu_model) as [gpu Hgpu].
  exists gpu, (mk_caches (_cached_cpu st) (Some gpu)).
  split; [ assumption | ]. unfold ComphardwareUser.user_gpu. rewrite Hcache.
  simpl. split; [ | auto ].
  destruct Hmodel as [[-> Hgl] | [Hno Hplat]].
  - rewrite Hgl, Hgpu. reflexivity.
  - assert ((if force_no_window then None else opengl_renderer m) = None)
      as -> by (destruct Hno as [-> | ->]; [ | destruct force_no_window ];
                reflexivity).
    rewrite Hplat, Hgpu. reflexivity.
Qed.

(** The outcomes of [user_gpu] when only the platform probe is left. *)
Lemma user_gpu_probe_cases (force_no_window : bool) (m : machine)
    (st : caches CPU GPU) :
  _cached_gpu st = None ->
  force_no_window = true \/ opengl_renderer m = None ->
  (forall err, _user_gpu_by_platform m = inl err ->
               user_gpu force_no_window m st = (Raised TypeError, st)) /\
  (system m <> py "Linux" -> system m <> py "Windows" ->
   user_gpu force_no_window m st = (Raised TypeError, st)) /\
  (_user_gpu_by_platform m = inr None ->
   user_gpu force_no_window m st = (Returned None, st)).
Proof.
  intros Hcache Hno.
  assert (Hgl : (if force_no_window then None else opengl_renderer m) = None)
    by (destruct Hno as [-> | ->]; [ | destruct force_no_window ];
        reflexivity).
  assert (Herr : forall err, _user_gpu_by_platform m = inl err ->
                 user_gpu force_no_window m st = (Raised TypeError, st)).
  { intros err Hplat. unfold ComphardwareUser.user_gpu.
    by rewrite Hcache, Hgl, Hplat. }
  split; [ assumption | ]. split.
  - intros Hlinux Hwindows. apply (Herr NameNotDefined).
    unfold _user_gpu_by_platform.
    rewrite !bool_decide_eq_false_2 by assumption. reflexivity.
  - intros Hplat. unfold ComphardwareUser.user_gpu.
    by rewrite Hcache, Hgl, Hplat.
Qed.

(** X13.  When there is no renderer string and the platform probe fails
    (the platform is neither Linux nor Windows, the command cannot be
    run, or the WMIC output has a single line), [user_gpu] does not
    return [None]: the handler [except NotImplemented] names something
    that is no exception class, so a [TypeError] is raised; nothing is
    remembered.  When the probe runs and finds no card, [None] is
    returned. *)
Theorem user_gpu_probe_failure (force_no_window : bool) (m : machine)
    (st : caches CPU GPU) :
  _cached_gpu st = None ->
  force_no_window = true \/ opengl_renderer m = None ->
  (forall err, _user_gpu_by_platform m = inl err ->
               user_gpu force_no_window m st = (Raised TypeError, st)) /\
  (system m <> py "Linux" -> system m <> py "Windows" ->
   user_gpu force_no_window m st = (Raised TypeError, st)) /\
  (_user_gpu_by_platform m = inr None ->
   user_gpu force_no_window m st = (Returned None, st)).
Proof. exact (user_gpu_probe_cases force_no_window m st). Qed.

(** X14.  [user_setup] fails exactly when [user_gpu] does, that is when
    no GPU is remembered, there is no renderer string and the platform
    probe fails; the error is a [TypeError].  Otherwise it returns the
    setup of what [user_cpu] and [user_gpu] return and of the machine's
    total RAM as it is at this call: the RAM is never remembered. *)
Theorem user_setup_outcome (m : machine) (st : caches CPU GPU) :
  ((exists err,
       _cached_gpu st = None /\ opengl_renderer m = None /\
       _user_gpu_by_platform m = inl err) ->
   exists st', user_setup m st = (Raised TypeError, st')) /\
  (~ (exists err,
        _cached_gpu st = None /\ opengl_renderer m = None /\
        _user_gpu_by_platform m = inl err) ->
   exists cpu gpu st1 st2,
     user_cpu m st = (Returned cpu, st1) /\
     user_gpu false m st1 = (Returned gpu, st2) /\
     user_setup m st =
     (Returned (SystemSetup cpu gpu (Some (PyInt (total_ram m)))), st2)).
Proof.
  destruct (user_cpu_cached m m st) as (cpu & st1 & Hcpu & Hkeep & _).
  unfold ComphardwareUser.user_setup. rewrite Hcpu. split.
  - intros (err & Hcache & Hgl & Hplat).
    rewrite <- Hkeep in Hcache.
    destruct (user_gpu_probe_cases false m st1 Hcache (or_intror Hgl))
      as (Herr & _).
    rewrite (Herr err Hplat). by exists st1.
  - intros Hok. exists cpu.
    assert (Hgpu : exists gpu st2,
               ComphardwareUser.user_gpu MODEL_TO_GPU false m st1 =
               (Returned gpu, st2)).
    { unfold ComphardwareUser.user_gpu. rewrite Hkeep.
      destruct (_cached_gpu st) as [cached |] eqn:Hcache; [ eauto | ].
      destruct (opengl_renderer m) as [renderer |] eqn:Hgl.
      - destruct (find_gpu_returns renderer) as [gpu ->]. eauto.
      - destruct (_user_gpu_by_platform m) as [err | [gpu_model |]] eqn:Hplat.
        + destruct Hok. by exists err.
        + destruct (find_gpu_returns gpu_model) as [gpu ->]. eauto.
        + eauto. }
    destruct Hgpu as (gpu & st2 & Hgpu). exists gpu, st1, st2.
    split; [ reflexivity | ]. split; [ assumption | ]. by rewrite Hgpu.
Qed.
End UserFacts.

Section StripMore.
Context {W : Whitespace}.

Lemma lstrip_idem s : lstrip (lstrip s) = lstrip s.
Proof.
  induction s as [| c s IH]; simpl; [ reflexivity | ].
  destruct (isspace_cp c) eqn:Hc; [ assumption | ]. simpl. by rewrite Hc.
Qed.

Lemma lstrip_snoc u c :
  isspace_cp c = false -> lstrip (u ++ [c]) = lstrip u ++ [c].
Proof.
  intros Hc. induction u as [| d u IH]; simpl.
  - by rewrite Hc.
  - destruct (isspace_cp d); [ assumption | reflexivity ].
Qed.

Lemma lstrip_fixed s : lstrip s = s -> lstrip (rstrip s) = rstrip s.
Proof.
  destruct s as [| c s]; [ reflexivity | ]. intros Hs.
  assert (Hc : isspace_cp c = false) by (by eapply lstrip_head).
  unfold rstrip. simpl. rewrite lstrip_snoc by assumption.
  rewrite rev_app_distr. simpl. by rewrite Hc.
Qed.

Lemma strip_stripped s :
  lstrip (strip s) = strip s /\ lstrip (rev (strip s)) = rev (strip s).
Proof.
  unfold strip. split.
  - apply lstrip_fixed, lstrip_idem.
  - unfold rstrip. rewrite rev_involutive. apply lstrip_idem.
Qed.

Lemma strip_fixed r : lstrip r = r -> lstrip (rev r) = rev r -> strip r = r.
Proof.
  intros Hl Hr. unfold strip, rstrip. by rewrite Hl, Hr, rev_involutive.
Qed.

Lemma strip_idem s : strip (strip s) = strip s.
Proof. destruct (strip_stripped s). by apply strip_fixed. Qed.

Lemma elem_of_rev (c : codepoint) l : c ∈ rev l <-> c ∈ l.
Proof. rewrite !list_elem_of_In. symmetry. apply in_rev. Qed.

Lemma lstrip_sub s c : c ∈ lstrip s -> c ∈ s.
Proof.
  destruct (lstrip_suffix s) as (pre & Hs & _). intros Hc.
  rewrite Hs. apply elem_of_app. by right.
Qed.

Lemma strip_sub s c : c ∈ strip s -> c ∈ s.
Proof.
  unfold strip, rstrip. intros Hc.
  rewrite elem_of_rev in Hc. apply lstrip_sub in Hc.
  rewrite elem_of_rev in Hc. by apply lstrip_sub in Hc.
Qed.
End StripMore.

Section TableFacts.
Context {B : Builtins} {W : Whitespace}.
Import DatabaseScripts WikiGpuTables.

(** What the loop of [strip_unimportant] lets through. *)
#[local] Abbreviation kept_char :=
  (fun c : codepoint =>
     c <> 91%N /\ c <> 40%N /\ (isspace_cp c = true -> c = 32%N)).

Lemma strip_loop_app stripped source :
  strip_unimportant_loop stripped source =
  stripped ++ strip_unimportant_loop [] source.
Proof.
  revert stripped. induction source as [| c source IH]; intros stripped; simpl.
  - by rewrite app_nil_r.
  - destruct ((c =? 91)%N || (c =? 40)%N); [ by rewrite app_nil_r | ].
    rewrite (IH (_ ++ _)), (IH [_]). by rewrite <- app_assoc.
Qed.

Lemma strip_loop_kept source :
  Forall kept_char (strip_unimportant_loop [] source).
Proof.
  induction source as [| c source IH]; simpl; [ constructor | ].
  destruct (N.eqb_spec c 91) as [-> | H91]; [ constructor | ].
  destruct (N.eqb_spec c 40) as [-> | H40]; [ constructor | ]. simpl.
  rewrite strip_loop_app. simpl. constructor; [ | assumption ].
  destruct (isspace_cp c) eqn:Hc; [ | by rewrite Hc ].
  repeat split; done.
Qed.

Lemma strip_loop_fixed r :
  Forall kept_char r -> strip_unimportant_loop [] r = r.
Proof.
  induction 1 as [| c r (H91 & H40 & Hsp) _ IH]; simpl; [ reflexivity | ].
  destruct (N.eqb_spec c 91) as [-> | _]; [ done | ].
  destruct (N.eqb_spec c 40) as [-> | _]; [ done | ]. simpl.
  rewrite strip_loop_app, IH. simpl. f_equal.
  destruct (isspace_cp c); [ by rewrite Hsp | reflexivity ].
Qed.

(** X15.  The result of [strip_unimportant] holds no "[" and no "(",
    no white space other than the plain space, and neither begins nor
    ends with white space; applying the function again changes
    nothing. *)
Theorem strip_unimportant_result (source : str) :
  free_of 91 (strip_unimportant source) /\
  free_of 40 (strip_unimportant source) /\
  Forall (fun c => isspace_cp c = true -> c = 32%N)
    (strip_unimportant source) /\
  strip (strip_unimportant source) = strip_unimportant source /\
  strip_unimportant (strip_unimportant source) = strip_unimportant source.
Proof.
  assert (Hkept : Forall kept_char (strip_unimportant source)).
  { apply Forall_forall. intros c Hc. apply strip_sub in Hc.
    pose proof (strip_loop_kept source) as Hall.
    by eapply Forall_forall in Hall. }
  split; [ | split; [ | split; [ | split ] ] ].
  - intros Hin. eapply Forall_forall in Hkept as (H91 & _); eauto.
  - intros Hin. eapply Forall_forall in Hkept as (_ & H40 & _); eauto.
  - eapply Forall_impl; [ exact Hkept | ]. simpl. tauto.
  - apply strip_idem.
  - unfold strip_unimportant at 1. rewrite strip_loop_fixed by assumption.
    apply strip_idem.
Qed.

Lemma first_digit_none i value :
  first_digit i value = None -> Forall (fun c => isdigit_cp c = false) value.
Proof.
  revert i. induction value as [| c value IH]; intros i; simpl;
    [ constructor | ].
  destruct (isdigit_cp c) eqn:Hc; [ discriminate | ].
  intros Hnone. constructor; eauto.
Qed.

Lemma first_digit_some i value n :
  first_digit i value = Some n ->
  exists k, n = i + k /\ drop k value = skip_non_digits value.
Proof.
  revert i. induction value as [| c value IH]; intros i; simpl;
    [ discriminate | ].
  destruct (isdigit_cp c) eqn:Hc.
  - intros [= <-]. exists 0. split; [ lia | reflexivity ].
  - intros Hsome. destruct (IH _ Hsome) as (k & -> & Hdrop).
    exists (S k). split; [ lia | assumption ].
Qed.

Lemma first_non_digit_none i value :
  first_non_digit i value = None -> leading_digits value = value.
Proof.
  revert i. induction value as [| c value IH]; intros i; simpl;
    [ reflexivity | ].
  destruct (isdigit_cp c) eqn:Hc; simpl; [ | discriminate ].
  intros Hnone. f_equal. eauto.
Qed.

Lemma first_non_digit_some i value n :
  first_non_digit i value = Some n ->
  exists k, n = i + k /\ take k value = leading_digits value.
Proof.
  revert i. induction value as [| c value IH]; intros i; simpl;
    [ discriminate | ].
  destruct (isdigit_cp c) eqn:Hc; simpl.
  - intros Hsome. destruct (IH _ Hsome) as (k & -> & Htake).
    exists (S k). split; [ lia | ]. simpl. by f_equal.
  - intros [= <-]. exists 0. split; [ lia | reflexivity ].
Qed.

Lemma no_digit_skip value :
  Forall (fun c => isdigit_cp c = false) value <-> skip_non_digits value = [].
Proof.
  induction value as [| c value IH]; simpl.
  - split; [ reflexivity | constructor ].
  - destruct (isdigit_cp c) eqn:Hc.
    + split; [ | discriminate ]. intros [Hc' _]%Forall_cons. congruence.
    + rewrite <- IH. rewrite Forall_cons. tauto.
Qed.

Lemma no_digit_leading value :
  Forall (fun c => isdigit_cp c = false) value -> leading_digits value = [].
Proof. destruct 1 as [| c value Hc _]; simpl; [ | rewrite Hc ]; reflexivity. Qed.

Lemma skip_non_digits_head value :
  match skip_non_digits value with
  | [] => True
  | c :: _ => isdigit_cp c = true
  end.
Proof.
  induction value as [| c value IH]; simpl; [ exact I | ].
  destruct (isdigit_cp c) eqn:Hc; assumption.
Qed.

Lemma leading_digits_all value :
  Forall (fun c => isdigit_cp c = true) (leading_digits value).
Proof.
  induction value as [| c value IH]; simpl; [ constructor | ].
  destruct (isdigit_cp c) eqn:Hc; by constructor.
Qed.

Lemma all_digits_first_number s :
  Forall (fun c => isdigit_cp c = true) s -> first_number s = s.
Proof.
  unfold first_number. intros Hall.
  assert (skip_non_digits s = s) as ->.
  { destruct Hall as [| c s Hc _]; simpl; [ | rewrite Hc ]; reflexivity. }
  induction Hall as [| c s Hc _ IH]; simpl; [ reflexivity | ].
  by rewrite Hc, IH.
Qed.

Lemma first_number_idem value :
  first_number (first_number value) = first_number value.
Proof. apply all_digits_first_number, leading_digits_all. Qed.

Lemma first_number_nil value :
  first_number value = [] <-> Forall (fun c => isdigit_cp c = false) value.
Proof.
  rewrite no_digit_skip. unfold first_number.
  pose proof (skip_non_digits_head value) as Hhead.
  destruct (skip_non_digits value) as [| c s]; simpl; [ tauto | ].
  rewrite Hhead. split; discriminate.
Qed.

(** The two loops at the head of [guess_newline] leave the first run of
    digits. *)
Lemma guess_newline_loops value :
  match first_non_digit 0 (drop (default 0 (first_digit 0 value)) value) with
  | Some i => take i (drop (default 0 (first_digit 0 value)) value)
  | None => drop (default 0 (first_digit 0 value)) value
  end = first_number value.
Proof.
  unfold first_number.
  destruct (first_digit 0 value) as [n |] eqn:Hfirst; simpl.
  - apply first_digit_some in Hfirst as (k & -> & Hdrop). simpl.
    rewrite Hdrop.
    destruct (first_non_digit 0 (skip_non_digits value)) as [j |] eqn:Hnon.
    + by apply first_non_digit_some in Hnon as (k' & -> & Htake).
    + by apply first_non_digit_none in Hnon.
  - apply first_digit_none in Hfirst. rewrite drop_0.
    rewrite (proj1 (no_digit_skip value) Hfirst). simpl.
    destruct (first_non_digit 0 value) as [j |] eqn:Hnon.
    + apply first_non_digit_some in Hnon as (k' & -> & Htake). simpl.
      rewrite Htake. by apply no_digit_leading.
    + apply first_non_digit_none in Hnon. rewrite <- Hnon.
      by apply no_digit_leading.
Qed.

Lemma last_char_nil value : last_char value = Raised IndexError <-> value = [].
Proof.
  unfold last_char. split; [ | by intros -> ].
  destruct value as [| c value] using rev_ind; [ reflexivity | ].
  rewrite map_app. simpl. rewrite last_last. discriminate.
Qed.

Lemma last_char_raises value e : last_char value = Raised e -> e = IndexError.
Proof. unfold last_char. destruct (List.last _ _); congruence. Qed.

(** The result and the failures of [guess_newline]. *)
Lemma guess_newline_cases (value unit : str) :
  guess_newline value unit = guess_newline (first_number value) unit /\
  (guess_newline value unit = Raised IndexError <->
   Forall (fun c => isdigit_cp c = false) value) /\
  (forall e, guess_newline value unit = Raised e ->
             e = IndexError \/ e = ValueError).
Proof.
  assert (Herr : forall e, guess_newline value unit = Raised e ->
                 (e = IndexError /\ first_number value = []) \/
                 (e = ValueError /\ first_number value <> [])).
  { intros e. unfold guess_newline. cbv zeta. rewrite guess_newline_loops.
    destruct (last_char (first_number value)) as [last | e'] eqn:Hlast; simpl.
    - intros Hfloat. right. split.
      + repeat match type of Hfloat with
               | (if ?b then _ else _) = _ => destruct b
               end; by apply float_of_str_raises in Hfloat.
      + intros Hnil. rewrite Hnil in Hlast. discriminate.
    - intros [= ->]. left. pose proof (last_char_raises _ _ Hlast) as ->.
      split; [ reflexivity | ]. by apply last_char_nil. }
  split; [ | split ].
  - unfold guess_newline. cbv zeta.
    by rewrite !guess_newline_loops, first_number_idem.
  - rewrite <- first_number_nil. split.
    + intros Hraise. destruct (Herr _ Hraise) as [[_ Hnil] | [[=] _]].
      assumption.
    + intros Hnil. unfold guess_newline. cbv zeta.
      rewrite guess_newline_loops, Hnil. reflexivity.
  - intros e He. destruct (Herr e He) as [[-> _] | [-> _]]; auto.
Qed.

(** X16.  [guess_newline] reads the first run of digits of the value and
    nothing else.  It fails with an [IndexError] exactly when the value
    holds no digit; the only other failure is the [ValueError] of
    [float]. *)
Theorem guess_newline_first_number (value unit : str) :
  guess_newline value unit = guess_newline (first_number value) unit /\
  (guess_newline value unit = Raised IndexError <->
   Forall (fun c => isdigit_cp c = false) value) /\
  (forall e, guess_newline value unit = Raised e ->
             e = IndexError \/ e = ValueError).
Proof. exact (guess_newline_cases value unit). Qed.

Lemma bytes_of_float raw unit :
  exists f, human_readable_to_bytes (PyFloat raw) unit = PyFloat f.
Proof.
  unfold human_readable_to_bytes.
  repeat match goal with
         | |- context [if ?b then _ else _] => destruct b
         end; simpl; eauto.
Qed.

Lemma hertz_of_float raw unit :
  exists f, human_readable_to_hertz (PyFloat raw) unit = PyFloat f.
Proof.
  unfold human_readable_to_hertz.
  repeat match goal with
         | |- context [if ?b then _ else _] => destruct b
         end; simpl; eauto.
Qed.

Lemma fixed_vram :
  human_readable_to_bytes (PyInt 3000) (py "mib") = PyInt 3145728000.
Proof. reflexivity. Qed.

Lemma gpu_init_returns model vendor vram f codename :
  (vram = PyInt 3145728000 \/ exists v, vram = PyFloat v) ->
  returns (GPU.__init__ model vendor vram (PyFloat f) codename).
Proof.
  intros [-> | [v ->]]; eexists; vm_compute; reflexivity.
Qed.

Lemma row_item_raises row i e : row_item row i = Raised e -> e = IndexError.
Proof. unfold row_item. destruct (row !! i); congruence. Qed.

Lemma strip_cell_raises raw e :
  strip_unimportant_cell raw = Raised e -> e = TypeError.
Proof. destruct raw; simpl; congruence. Qed.

Lemma guess_newline_raises value unit e :
  guess_newline value unit = Raised e -> e = IndexError \/ e = ValueError.
Proof. apply guess_newline_cases. Qed.

Lemma parse_gpu_raises row indices vendor e :
  parse_gpu row indices vendor = Raised e ->
  e = ValueError \/ e = IndexError \/ e = TypeError.
Proof.
  unfold parse_gpu. intros Hrun.
  apply bind_raised in Hrun as [He%row_item_raises | (raw0 & _ & Hrun)];
    [ auto | ].
  apply bind_raised in Hrun as [He%strip_cell_raises | (model & _ & Hrun)];
    [ auto | ].
  apply bind_raised in Hrun as [Hvram | (vram & Hvram & Hrun)].
  { destruct (WikiGpuTables.vram indices) as [[i unit] |]; [ | discriminate ].
    apply bind_raised in Hvram as [He%row_item_raises | (raw & _ & Hvram)];
      [ auto | ].
    apply bind_raised in Hvram as [He%guess_newline_raises | (f & _ & Hvram)];
      [ tauto | discriminate ]. }
  apply bind_raised in Hrun as [He%row_item_raises | (raw & _ & Hrun)];
    [ auto | ].
  apply bind_raised in Hrun as [He%guess_newline_raises | (f & _ & Hrun)];
    [ tauto | ].
  apply bind_raised in Hrun as [He%row_item_raises | (raw' & _ & Hrun)];
    [ auto | ].
  apply bind_raised in Hrun as [He%strip_cell_raises | (codename & _ & Hrun)];
    [ auto | ].
  exfalso.
  destruct (hertz_of_float f (corespeed indices).2) as [hz Hhz].
  rewrite Hhz in Hrun.
  assert (Hv : vram = PyInt 3145728000 \/ exists v, vram = PyFloat v).
  { destruct (WikiGpuTables.vram indices) as [[i unit] |].
    - apply bind_returned in Hvram as (raw1 & _ & Hvram).
      apply bind_returned in Hvram as (f1 & _ & Hvram).
      injection Hvram as <-. right. apply bytes_of_float.
    - injection Hvram as <-. by left. }
  destruct (gpu_init_returns (casefold model) vendor vram hz codename Hv)
    as [gpu Hgpu].
  congruence.
Qed.

Lemma parse_gpu_text row indices vendor :
  Forall is_text row -> parse_gpu row indices vendor <> Raised TypeError.
Proof.
  intros Htext. unfold parse_gpu. intros Hrun.
  assert (Hcell : forall i raw, row_item row i = Returned raw ->
            exists s, strip_unimportant_cell raw = Returned s).
  { intros i raw Hitem. unfold row_item in Hitem.
    destruct (row !! i) as [raw' |] eqn:Hi; [ | discriminate ].
    injection Hitem as ->. eapply Forall_lookup in Htext; [ | exact Hi ].
    destruct raw; [ by eexists | done ]. }
  apply bind_raised in Hrun as [He%row_item_raises | (raw0 & H0 & Hrun)];
    [ discriminate | ].
  destruct (Hcell _ _ H0) as [model Hmodel]. rewrite Hmodel in Hrun.
  simpl in Hrun.
  apply bind_raised in Hrun as [Hvram | (vram & Hvram & Hrun)].
  { destruct (WikiGpuTables.vram indices) as [[i unit] |]; [ | discriminate ].
    apply bind_raised in Hvram as [He%row_item_raises | (raw & _ & Hvram)];
      [ discriminate | ].
    apply bind_raised in Hvram as [He%guess_newline_raises | (f & _ & Hvram)];
      [ | discriminate ].
    destruct He; discriminate. }
  apply bind_raised in Hrun as [He%row_item_raises | (raw & _ & Hrun)];
    [ discriminate | ].
  apply bind_raised in Hrun as [He%guess_newline_raises | (f & _ & Hrun)];
    [ destruct He; discriminate | ].
  apply bind_raised in Hrun as [He%row_item_raises | (raw' & Hc & Hrun)];
    [ discriminate | ].
  destruct (Hcell _ _ Hc) as [codename Hcodename]. rewrite Hcodename in Hrun.
  simpl in Hrun.
  destruct (hertz_of_float f (corespeed indices).2) as [hz Hhz].
  rewrite Hhz in Hrun.
  assert (Hv : vram = PyInt 3145728000 \/ exists v, vram = PyFloat v).
  { destruct (WikiGpuTables.vram indices) as [[i unit] |].
    - apply bind_returned in Hvram as (raw1 & _ & Hvram).
      apply bind_returned in Hvram as (f1 & _ & Hvram).
      injection Hvram as <-. right. apply bytes_of_float.
    - injection Hvram as <-. by left. }
  destruct (gpu_init_returns (casefold model) vendor vram hz codename Hv)
    as [gpu Hgpu].
  congruence.
Qed.

(** X17.  The row loop of [extract_gpus] reads a table from the top and
    leaves it at the first row that [parse_gpu] rejects with a
    [ValueError] or an [IndexError]: the GPUs added are those of the rows
    before it, in order, and no later row is looked at.  The only error
    that escapes the loop is a [TypeError], raised for a model or code
    name cell that is not a string; on a table whose cells are all
    strings the loop returns. *)
Theorem parse_rows_stops_at_bad_row (gpus : list GPU.t)
    (rows : list (list cell)) (indices : indices) (vendor : str) :
  (forall e, parse_rows gpus rows indices vendor = Raised e -> e = TypeError) /\
  (forall out,
      parse_rows gpus rows indices vendor = Returned out ->
      exists k new,
        out = gpus ++ new /\
        Forall2 (fun row gpu => parse_gpu row indices vendor = Returned gpu)
          (take k rows) new /\
        forall row, rows !! k = Some row ->
          parse_gpu row indices vendor = Raised ValueError \/
          parse_gpu row indices vendor = Raised IndexError) /\
  (Forall (Forall is_text) rows ->
   returns (parse_rows gpus rows indices vendor)).
Proof.
  revert gpus. induction rows as [| row rows IH]; intros gpus.
  - simpl. split; [ discriminate | ]. split; [ | by eexists ].
    intros out [= <-]. exists 0, []. rewrite app_nil_r.
    split; [ reflexivity | ]. split; [ constructor | ]. discriminate.
  - cbn [parse_rows].
    destruct (parse_gpu row indices vendor) as [gpu | e] eqn:Hrow.
    + destruct (IH (gpus ++ [gpu])) as (Herr & Hout & Hret).
      split; [ assumption | ]. split.
      * intros out Hrun.
        destruct (Hout out Hrun) as (k & new & -> & Hall & Hstop).
        exists (S k), (gpu :: new). rewrite <- app_assoc.
        split; [ reflexivity | ]. split; [ by constructor | ].
        intros row'. simpl. apply Hstop.
      * intros [_ Htext]%Forall_cons. auto.
    + assert (Hbad : forall row', (row :: rows) !! 0 = Some row' ->
                parse_gpu row' indices vendor = Raised e)
        by (by intros row' [= <-]).
      pose proof (parse_gpu_raises _ _ _ _ Hrow) as He.
      destruct e; try (destruct He as [? | [? | ?]]; discriminate).
      * split; [ discriminate | ]. split; [ | by eexists ].
        intros out [= <-]. exists 0, []. rewrite app_nil_r.
        split; [ reflexivity | ]. split; [ constructor | ].
        intros row' Hrow'. left. auto.
      * split; [ discriminate | ]. split; [ | by eexists ].
        intros out [= <-]. exists 0, []. rewrite app_nil_r.
        split; [ reflexivity | ]. split; [ constructor | ].
        intros row' Hrow'. right. auto.
      * split; [ by intros e [= <-] | ]. split; [ discriminate | ].
        intros [Htext _]%Forall_cons.
        by apply parse_gpu_text in Hrow.
Qed.
End TableFacts.

(** Witness of X3. *)
Lemma update_scripts_write_sorted_witness :
  (exists file,
      Scripts.update_cpu_database (fun _ => Returned scraped_cpus)
        (Some known_cpus) = Returned file /\
      StronglySorted str_lt (PyDict.keys file)) /\
  (exists file,
      Scripts.update_gpu_database scraped_gpus (Some known_gpus)
        = Returned file /\
      StronglySorted str_lt (PyDict.keys file)).
Proof.
  split; eexists.
  - split; [ vm_compute; reflexivity | ].
    apply (proj1 (update_scripts_write_sorted (fun _ => Returned scraped_cpus)
                    scraped_gpus (Some known_cpus) (Some known_gpus))).
    vm_compute. reflexivity.
  - split; [ vm_compute; reflexivity | ].
    apply (proj2 (update_scripts_write_sorted (fun _ => Returned scraped_cpus)
                    scraped_gpus (Some known_cpus) (Some known_gpus))).
    vm_compute. reflexivity.
Defined.

(** Witness of X2. *)
Lemma update_scripts_keep_known_models_witness :
  (exists file,
      Scripts.update_cpu_database (fun _ => Returned scraped_cpus)
        (Some known_cpus) = Returned file /\
      (exists e e',
          PyDict.get known_cpus (py "i5-750") = Some e /\
          fresh_cpu_entry e e' /\
          PyDict.get file (py "i5-750") = Some e') /\
      PyDict.get file (py "i3-530") =
      cpu_entry <$> last_named DatabaseScripts.CPU.model (py "i3-530")
                      scraped_cpus) /\
  (exists file,
      Scripts.update_gpu_database scraped_gpus None = Returned file /\
      PyDict.get file (py "geforce gt 650m") <> None).
Proof.
  pose proof (update_scripts_keep_known_models
                (fun _ => Returned scraped_cpus) scraped_gpus
                (Some known_cpus) None) as Hkeep.
  destruct Hkeep as [Hcpu Hgpu].
  { refine (bool_decide_unpack _ _). vm_compute. exact I. }
  { constructor. }
  split.
  - eexists. split; [ vm_compute; reflexivity | ].
    destruct (Hcpu _ ltac:(vm_compute; reflexivity))
      as (old_cpus & cpus & _ & Hparse & Hm).
    injection Hparse as <-. split.
    + specialize (Hm (py "i5-750")).
      destruct (stored (Some known_cpus) (py "i5-750")) as [e |] eqn:He;
        [ | vm_compute in He; discriminate ].
      destruct Hm as (e' & Hfresh & Hget). by exists e, e'.
    + specialize (Hm (py "i3-530")).
      destruct (stored (Some known_cpus) (py "i3-530")) as [e |] eqn:He;
        [ vm_compute in He; discriminate | ].
      exact Hm.
  - eexists. split; [ vm_compute; reflexivity | ].
    destruct (Hgpu _ ltac:(vm_compute; reflexivity))
      as (old_gpus & parsed & _ & Hparse & Hm).
    specialize (Hm (py "geforce gt 650m")). cbn [stored] in Hm.
    vm_compute in Hparse. injection Hparse as <-.
    intros Hnone. rewrite Hnone in Hm. vm_compute in Hm. discriminate.
Defined.

(** Witness of X4. *)
Lemma convert_keeps_complete_entries_witness :
  exists cpus,
    Scripts.convert (B := ascii_builtins) ark_source = Returned cpus /\
    (exists kept,
        kept `sublist_of` PyDict.items ark_source /\
        Forall2 (converted (B := ascii_builtins)) kept cpus) /\
    (forall entry product_id model corecount value unit,
        entry ∈ PyDict.items ark_source ->
        parsed_entry (B := ascii_builtins) entry product_id model corecount
          value unit ->
        exists cpu, cpu ∈ cpus /\ converted (B := ascii_builtins) entry cpu).
Proof.
  eexists. split; [ vm_compute; reflexivity | ].
  apply (convert_keeps_complete_entries (B := ascii_builtins) ark_source).
  vm_compute. reflexivity.
Defined.


(** Witness of X9. *)
Lemma lspci_last_card_wins_witness :
  ComphardwareUser._user_gpu_by_platform (W := ascii_whitespace) linux_machine
  = inr (Some lspci_name).
Proof.
  rewrite (lspci_last_card_wins (W := ascii_whitespace) linux_machine
             (default [] (ComphardwareUser.lspci linux_machine))
             eq_refl eq_refl).
  vm_compute. reflexivity.
Defined.

(** Witness of X8. *)
Lemma lspci_model_of_line_witness :
  lspci_model
    (py "01:00.0 VGA compatible controller: NVIDIA Corporation GF119M [NVS 4200M] (rev a1)")
  = py "NVS 4200M".
Proof.
  apply (proj1 (lspci_model_of_line lspci_before)
           lspci_pre lspci_name lspci_post);
    refine (bool_decide_unpack _ _); vm_compute; exact I.
Defined.

(** Witness of X10. *)
Lemma wmic_second_line_witness :
  exists gpu_model,
    split_crlf (default [] (ComphardwareUser.wmic windows_machine)) !! 1
      = Some gpu_model /\
    ComphardwareUser._user_gpu_by_platform (W := ascii_whitespace)
      windows_machine = inr (Some gpu_model).
Proof.
  apply (proj2 (wmic_second_line (W := ascii_whitespace) windows_machine
                  (default [] (ComphardwareUser.wmic windows_machine))
                  eq_refl eq_refl)).
  vm_compute. reflexivity.
Defined.

(** Witness of X12. *)
Lemma user_gpu_remembers_witness :
  exists gpu st',
    find_gpu_by_model two_gpus lspci_name = Returned gpu /\
    ComphardwareUser.user_gpu (W := ascii_whitespace) two_gpus false
      linux_machine (ComphardwareUser.mk_caches (CPU := nat) None None)
      = (Returned gpu, st') /\
    ComphardwareUser._cached_cpu st' = None /\
    ComphardwareUser._cached_gpu st' = Some gpu /\
    ComphardwareUser.user_gpu (W := ascii_whitespace) two_gpus true
      other_machine st' = (Returned gpu, st').
Proof.
  apply (user_gpu_remembers (W := ascii_whitespace) two_gpus false true
           linux_machine other_machine
           (ComphardwareUser.mk_caches None None) lspci_name eq_refl).
  right. split; [ by right | ]. vm_compute. reflexivity.
Defined.

(** Witness of X13. *)
Lemma user_gpu_probe_failure_witness :
  ComphardwareUser.user_gpu (W := ascii_whitespace) two_gpus false
    other_machine (ComphardwareUser.mk_caches (CPU := nat) None None)
  = (Raised TypeError, ComphardwareUser.mk_caches None None).
Proof.
  apply (proj1 (proj2 (user_gpu_probe_failure (W := ascii_whitespace)
                         two_gpus false other_machine
                         (ComphardwareUser.mk_caches None None)
                         eq_refl (or_intror eq_refl))));
    vm_compute; discriminate.
Defined.

Section IntelArkFacts.
Context {B : Builtins} {W : Whitespace}.
Import DatabaseScripts IntelArk.
Variable requests_get : list event -> Z -> response.

Lemma requested_app ev1 ev2 :
  requested (ev1 ++ ev2) = requested ev1 ++ requested ev2.
Proof. apply omap_app. Qed.

Lemma requested_get product_id events :
  requested (Get product_id :: events) = product_id :: requested events.
Proof. reflexivity. Qed.

Lemma parse_cpu_returned website product_id cpu :
  parse_cpu website product_id = Returned (Some cpu) ->
  CPU.product_id cpu = product_id /\ CPU.vendor cpu = py "intel".
Proof.
  unfold parse_cpu. destruct (ProcessorNumber website) as [raw |];
    [ | discriminate ].
  intros Hrun.
  apply bind_returned in Hrun as (model & _ & Hrun).
  apply bind_returned in Hrun as (raw1 & _ & Hrun).
  apply bind_returned in Hrun as (corecount & _ & Hrun).
  apply bind_returned in Hrun as (raw2 & _ & Hrun).
  apply bind_returned in Hrun as (raw3 & _ & Hrun).
  apply bind_returned in Hrun as (raw0 & _ & Hrun).
  apply bind_returned in Hrun as (value & _ & Hrun).
  apply bind_returned in Hrun as (unit & _ & Hrun).
  apply bind_returned in Hrun as (cpu' & Hinit & Hrun).
  injection Hrun as ->. rewrite cpu_init_eq in Hinit.
  apply bind_returned in Hinit as (fc & _ & Hinit).
  apply bind_returned in Hinit as (fs & _ & Hinit).
  by injection Hinit as <-.
Qed.

#[local] Abbreviation gathered := (gathered requests_get).

(** One turn of the loop of [parse]. *)
Lemma scan_step (old_cpus : list Z) product_id rest cpus events :
  scan requests_get old_cpus (product_id :: rest) cpus events =
  if bool_decide (product_id ∈ old_cpus) then
    scan requests_get old_cpus rest cpus events
  else
    let r := requests_get events product_id in
    let events' := events ++ Get product_id :: sleeps r in
    match ends r product_id with
    | Some None => (inr cpus, events')
    | Some (Some e) => (inl e, events')
    | None =>
        scan requests_get old_cpus rest (cpus ++ taken r product_id) events'
    end.
Proof.
  simpl. destruct (bool_decide (product_id ∈ old_cpus)); [ reflexivity | ].
  destruct (requests_get events product_id) as [| | | | status_code website];
    simpl; rewrite ?app_nil_r; try reflexivity.
  unfold processor_page.
  destruct (status_code =? 404)%Z; simpl; rewrite ?app_nil_r;
    [ reflexivity | ].
  assert (Hev : (if (status_code =? 200)%Z then events ++ [Get product_id]
                 else (events ++ [Get product_id]) ++ [Sleep RATE_LIMIT_DELAY])
                = events ++ Get product_id ::
                    (if (status_code =? 200)%Z then []
                     else [Sleep RATE_LIMIT_DELAY])).
  { destruct (status_code =? 200)%Z; [ reflexivity | ].
    by rewrite <- app_assoc. }
  rewrite Hev.
  destruct (title website) as [title |]; [ | by rewrite app_nil_r ].
  destruct (contains (py "Processor") title); simpl;
    [ | by rewrite app_nil_r ].
  destruct (parse_cpu website product_id) as [[cpu |] | e];
    rewrite ?app_nil_r; reflexivity.
Qed.

Lemma gathered_get history product_id events :
  gathered history (Get product_id :: events) =
  taken (requests_get history product_id) product_id
  ++ gathered (history ++ [Get product_id]) events.
Proof. reflexivity. Qed.

Lemma requested_sleeps r : requested (sleeps r) = [].
Proof.
  destruct r as [| | | | status_code website]; try reflexivity.
  simpl. by destruct (_ || _).
Qed.

Lemma gathered_sleeps history r events :
  gathered history (sleeps r ++ events) = gathered (history ++ sleeps r) events.
Proof.
  destruct r as [| | | | status_code website]; simpl;
    rewrite ?app_nil_r; try reflexivity.
  destruct (_ || _); simpl; by rewrite ?app_nil_r.
Qed.

Lemma gathered_app history ev1 ev2 :
  gathered history (ev1 ++ ev2) =
  gathered history ev1 ++ gathered (history ++ ev1) ev2.
Proof.
  revert history. induction ev1 as [| ev ev1 IH]; intros history; simpl.
  - by rewrite app_nil_r.
  - destruct ev as [product_id | seconds]; rewrite IH, <- ?app_assoc;
      reflexivity.
Qed.

Lemma gathered_no_request history events :
  requested events = [] -> gathered history events = [].
Proof.
  revert history. induction events as [| [product_id | seconds] events IH];
    intros history; simpl; [ reflexivity | discriminate | apply IH ].
Qed.

(** A split of [sl ++ new] at a request, where [sl] holds none. *)
Lemma split_after_sleeps (sl new before after : list event) product_id :
  requested sl = [] ->
  sl ++ new = before ++ Get product_id :: after ->
  exists before', before = sl ++ before' /\
                  new = before' ++ Get product_id :: after.
Proof.
  revert before. induction sl as [| ev sl IH]; intros before Hreq Hsplit.
  - by exists before.
  - destruct ev as [id | seconds]; [ discriminate | ].
    destruct before as [| ev' before]; simpl in Hsplit; [ discriminate | ].
    injection Hsplit as <- Hsplit.
    destruct (IH before Hreq Hsplit) as (before' & -> & ->).
    by exists before'.
Qed.

(** What a run of the loop adds to the records and to the events. *)
#[local] Abbreviation trace_of old_cpus product_ids cpus events res events' :=
  (exists new,
      events' = events ++ new /\
      requested new `prefix_of`
        filter (fun product_id => product_id ∉ old_cpus) product_ids /\
      goes_on (filter (fun product_id => product_id ∉ old_cpus) product_ids)
        cpus res new /\
      (forall cpus', res = inr cpus' -> cpus' = cpus ++ gathered events new) /\
      (forall before product_id after,
         new = before ++ Get product_id :: after ->
         exists todo,
           filter (fun product_id => product_id ∉ old_cpus) product_ids =
           requested before ++ product_id :: todo /\
           answered (requests_get (events ++ before) product_id) product_id
             (cpus ++ gathered events before) todo res after)).

Lemma gathered_request events product_id new :
  gathered events
    (Get product_id :: sleeps (requests_get events product_id) ++ new) =
  taken (requests_get events product_id) product_id
  ++ gathered (events ++ Get product_id
                 :: sleeps (requests_get events product_id)) new.
Proof.
  simpl. rewrite gathered_sleeps. by rewrite <- app_assoc.
Qed.

Lemma ends_taken r product_id outcome :
  ends r product_id = Some outcome -> taken r product_id = [].
Proof.
  destruct r as [| | | | status_code website]; simpl; try done.
  destruct (status_code =? 404)%Z; [ done | ].
  destruct (processor_page website); [ | done ].
  by destruct (parse_cpu website product_id) as [[cpu |] | e].
Qed.

(** The scan stops at the request for [product_id]. *)
Lemma trace_stop (old_cpus : list Z) product_id rest cpus events res outcome :
  product_id ∉ old_cpus ->
  ends (requests_get events product_id) product_id = Some outcome ->
  res = match outcome with Some e => inl e | None => inr cpus end ->
  trace_of old_cpus (product_id :: rest) cpus events res
    (events ++ Get product_id :: sleeps (requests_get events product_id)).
Proof.
  intros Hnew Hends Hres. rewrite filter_cons_True by assumption.
  set (r := requests_get events product_id) in *.
  exists (Get product_id :: sleeps r).
  split; [ reflexivity | ]. split; [ | split; [ reflexivity | split ] ].
  - rewrite requested_get, requested_sleeps. apply prefix_cons, prefix_nil.
  - intros cpus' ->. rewrite <- (app_nil_r (sleeps r)), gathered_request.
    fold r. rewrite (ends_taken _ _ _ Hends). simpl.
    destruct outcome; [ discriminate | ]. injection Hres as <-.
    by rewrite app_nil_r.
  - intros before id after Hsplit.
    destruct before as [| ev before]; simpl in Hsplit.
    + injection Hsplit as <- <-. eexists. split; [ reflexivity | ].
      rewrite !app_nil_r. fold r. unfold answered. rewrite Hends.
      by destruct outcome.
    + injection Hsplit as <- Hsplit. exfalso.
      apply (f_equal requested) in Hsplit.
      rewrite requested_sleeps, requested_app in Hsplit. simpl in Hsplit.
      by destruct (requested before).
Qed.

(** The scan goes on after the request for [product_id]. *)
Lemma trace_step (old_cpus : list Z) product_id rest cpus events res events' :
  product_id ∉ old_cpus ->
  ends (requests_get events product_id) product_id = None ->
  trace_of old_cpus rest
    (cpus ++ taken (requests_get events product_id) product_id)
    (events ++ Get product_id :: sleeps (requests_get events product_id))
    res events' ->
  trace_of old_cpus (product_id :: rest) cpus events res events'.
Proof.
  intros Hnew Hends (new & -> & Hprefix & Hgo & Hres & Hlater).
  rewrite filter_cons_True by assumption.
  set (r := requests_get events product_id) in *.
  exists (Get product_id :: sleeps r ++ new).
  split; [ by rewrite <- app_assoc | ].
  split; [ | split; [ reflexivity | split ] ].
  - rewrite requested_get, requested_app, requested_sleeps.
    by apply prefix_cons.
  - intros cpus' ->%Hres. unfold r. rewrite gathered_request.
    by rewrite <- app_assoc.
  - intros before id after Hsplit.
    destruct before as [| ev before]; simpl in Hsplit.
    + injection Hsplit as <- <-. eexists. split; [ reflexivity | ].
      rewrite !app_nil_r. fold r. unfold answered. rewrite Hends.
      by exists new.
    + injection Hsplit as <- Hsplit.
      apply split_after_sleeps in Hsplit as (before' & -> & ->);
        [ | apply requested_sleeps ].
      destruct (Hlater before' id after eq_refl) as (todo & Htodo & Hnow).
      exists todo. split.
      * rewrite requested_get, requested_app, requested_sleeps. simpl.
        by rewrite Htodo.
      * unfold r. rewrite gathered_request. fold r.
        rewrite <- !app_assoc in Hnow. simpl in Hnow. exact Hnow.
Qed.

Lemma scan_trace (old_cpus : list Z) product_ids cpus events res events' :
  scan requests_get old_cpus product_ids cpus events = (res, events') ->
  trace_of old_cpus product_ids cpus events res events'.
Proof.
  revert cpus events.
  induction product_ids as [| product_id rest IH]; intros cpus events.
  - simpl. intros [= <- <-]. exists []. rewrite app_nil_r.
    split; [ reflexivity | ]. split; [ apply prefix_nil | ].
    split; [ by split | ]. split.
    + intros cpus' [= <-]. by rewrite app_nil_r.
    + intros before id after Hsplit. by destruct before.
  - rewrite scan_step.
    destruct (bool_decide (product_id ∈ old_cpus)) eqn:Hold.
    { apply bool_decide_eq_true in Hold. intros Hrun.
      rewrite filter_cons_False by (intros Hn; contradiction).
      by apply IH. }
    apply bool_decide_eq_false in Hold. cbv zeta.
    destruct (ends (requests_get events product_id) product_id)
      as [[e |] |] eqn:Hends.
    + intros [= <- <-]. by eapply trace_stop.
    + intros [= <- <-]. by eapply trace_stop.
    + intros Hrun. apply trace_step; auto.
Qed.

Lemma parse_trace old_cpus :
  trace_of (map CPU.product_id old_cpus)
    (seqZ STARTID (ENDID + 1 - STARTID)) [] []
    (parse requests_get old_cpus).1 (parse requests_get old_cpus).2.
Proof. apply scan_trace. unfold parse. by destruct (scan _ _ _ _ _). Qed.

Lemma taken_record r product_id cpu :
  cpu ∈ taken r product_id ->
  taken r product_id = [cpu] /\
  CPU.product_id cpu = product_id /\ CPU.vendor cpu = py "intel".
Proof.
  destruct r as [| | | | status_code website]; simpl;
    try (intros Hin; by apply elem_of_nil in Hin).
  destruct (status_code =? 404)%Z;
    [ intros Hin; by apply elem_of_nil in Hin | ].
  destruct (processor_page website);
    [ | intros Hin; by apply elem_of_nil in Hin ].
  destruct (parse_cpu website product_id) as [[cpu' |] | e] eqn:Hcpu;
    try (intros Hin; by apply elem_of_nil in Hin).
  intros ->%list_elem_of_singleton.
  split; [ reflexivity | ]. by apply parse_cpu_returned in Hcpu.
Qed.

(** The records gathered carry IDs that were asked for, in that order,
    and Intel as vendor. *)
Lemma gathered_ids history events :
  map CPU.product_id (gathered history events) `sublist_of` requested events /\
  Forall (fun cpu => CPU.vendor cpu = py "intel") (gathered history events).
Proof.
  revert history.
  induction events as [| [product_id | seconds] events IH]; intros history.
  - split; constructor.
  - destruct (IH (history ++ [Get product_id])) as [Hsub Hall].
    rewrite requested_get, gathered_get.
    destruct (taken (requests_get history product_id) product_id)
      as [| cpu l] eqn:Htaken; simpl.
    + split; [ by apply sublist_cons | assumption ].
    + destruct (taken_record (requests_get history product_id) product_id cpu)
        as (Hone & Hid & Hintel); [ rewrite Htaken; left | ].
      rewrite Htaken in Hone. injection Hone as ->. simpl.
      rewrite Hid. split; [ by apply sublist_skip | by constructor ].
  - apply IH.
Qed.

Lemma prefix_NoDup (l1 l2 : list Z) :
  l1 `prefix_of` l2 -> NoDup l2 -> NoDup l1.
Proof. intros [k ->] Hnd. by apply NoDup_app in Hnd as (? & _). Qed.

(** The requests of [parse] and the product IDs of its result. *)
Lemma parse_requests (old_cpus : list CPU.t) :
  requested (parse requests_get old_cpus).2 `prefix_of` unknown_ids old_cpus /\
  NoDup (requested (parse requests_get old_cpus).2) /\
  (forall product_id,
      product_id ∈ requested (parse requests_get old_cpus).2 ->
      (STARTID <= product_id <= ENDID)%Z /\
      product_id ∉ map CPU.product_id old_cpus) /\
  (forall cpus,
      (parse requests_get old_cpus).1 = inr cpus ->
      map CPU.product_id cpus
        `sublist_of` requested (parse requests_get old_cpus).2 /\
      NoDup (map CPU.product_id cpus) /\
      Forall (fun cpu => CPU.vendor cpu = py "intel" /\
                         CPU.product_id cpu ∉ map CPU.product_id old_cpus)
        cpus).
Proof.
  destruct (parse_trace old_cpus) as (new & Hev & Hprefix & _ & Hcpus & _).
  simpl in Hev. rewrite Hev. fold (unknown_ids old_cpus) in Hprefix.
  assert (Hnd : NoDup (requested new)).
  { eapply prefix_NoDup; [ exact Hprefix | ].
    apply NoDup_filter, NoDup_seqZ. }
  assert (Hin : forall product_id,
             product_id ∈ requested new ->
             (STARTID <= product_id <= ENDID)%Z /\
             product_id ∉ map CPU.product_id old_cpus).
  { intros product_id Hreq.
    eapply elem_of_prefix in Hreq; [ | exact Hprefix ].
    apply list_elem_of_filter in Hreq as [Hnew Hrange].
    apply elem_of_seqZ in Hrange. split; [ lia | assumption ]. }
  split; [ assumption | ]. split; [ assumption | ]. split; [ assumption | ].
  intros cpus Hres. rewrite (Hcpus cpus Hres). simpl.
  destruct (gathered_ids [] new) as [Hsub Hall].
  split; [ assumption | ].
  split; [ by eapply sublist_NoDup | ].
  apply Forall_forall. intros cpu Hcpu. split.
  - by eapply Forall_forall in Hall.
  - apply Hin. eapply elem_of_sublist; [ | exact Hsub ].
    apply list_elem_of_fmap. by exists cpu.
Qed.

(** X18.  [intel_ark.parse] asks the server for the product IDs from
    [STARTID] to [ENDID] that no known CPU carries, in ascending order
    and each at most once, up to the point where it stops; a known ID is
    never asked for again.  The CPUs it returns are Intel's, and their
    product IDs are among those asked for, in the same order: pairwise
    distinct and different from every known one. *)
Theorem parse_asks_unknown_ids (old_cpus : list CPU.t) :
  requested (parse requests_get old_cpus).2 `prefix_of` unknown_ids old_cpus /\
  NoDup (requested (parse requests_get old_cpus).2) /\
  (forall product_id,
      product_id ∈ requested (parse requests_get old_cpus).2 ->
      (STARTID <= product_id <= ENDID)%Z /\
      product_id ∉ map CPU.product_id old_cpus) /\
  (forall cpus,
      (parse requests_get old_cpus).1 = inr cpus ->
      map CPU.product_id cpus
        `sublist_of` requested (parse requests_get old_cpus).2 /\
      NoDup (map CPU.product_id cpus) /\
      Forall (fun cpu => CPU.vendor cpu = py "intel" /\
                         CPU.product_id cpu ∉ map CPU.product_id old_cpus)
        cpus).
Proof. exact (parse_requests old_cpus). Qed.

(** X19.  How [intel_ark.parse] goes on after each request, and what it
    returns.  When it returns, the result holds exactly the records
    [parse_cpu] read from the processor pages among the answers, in the
    order of the requests.  After a request the scan sleeps once if the
    status is neither 200 nor 404, and then reads the very response it
    got; as no ID is asked for twice, there is no second attempt.  A
    keyboard interrupt ends the scan, which returns the records it holds;
    any other exception of the request that is no timeout and no
    connection error leaves [parse], and so does an exception raised by
    [parse_cpu] on a page whose title holds "Processor": nothing is
    returned and nothing more is asked for.  In every other case the
    scan, with the record of the page added if there is one, asks for the
    next unknown ID, and returns what it holds when none is left. *)
Theorem parse_answers_each_request (old_cpus : list CPU.t) :
  (forall cpus,
      (parse requests_get old_cpus).1 = inr cpus ->
      cpus = gathered [] (parse requests_get old_cpus).2) /\
  (forall before after product_id,
      (parse requests_get old_cpus).2 = before ++ Get product_id :: after ->
      (exists todo,
          unknown_ids old_cpus = requested before ++ product_id :: todo /\
          answered (requests_get before product_id) product_id
            (gathered [] before) todo (parse requests_get old_cpus).1 after) /\
      (product_id ∉ requested before) /\ (product_id ∉ requested after)).
Proof.
  destruct (parse_trace old_cpus) as (new & Hev & _ & _ & Hres & Hlater).
  simpl in Hev. split.
  - intros cpus ->%Hres. by rewrite Hev.
  - intros before after product_id Hsplit. rewrite Hev in Hsplit. split.
    + exact (Hlater before product_id after Hsplit).
    + destruct (parse_requests old_cpus) as (_ & Hnd & _).
      rewrite Hev, Hsplit, requested_app, requested_get in Hnd.
      apply NoDup_app in Hnd as (_ & Hdis & [Hafter _]%NoDup_cons).
      split; [ | assumption ].
      intros Hin. apply (Hdis _ Hin). left.
Qed.
(** X20.  The exceptions [parse_cpu] raises on a page are
    [AttributeError], [TypeError], [ValueError], [IndexError] and
    [OverflowError]; a page without a "ProcessorNumber" tag gives [None]
    instead.  With that tag present, a missing "CoreCount" or
    "ClockSpeed" tag raises [AttributeError], and a clock speed that is
    a lone number, with no unit after it, raises [IndexError]. *)
Theorem parse_cpu_failures (website : website) (product_id : Z) :
  (forall e,
      parse_cpu website product_id = Raised e ->
      e = AttributeError \/ e = TypeError \/ e = ValueError \/
      e = IndexError \/ e = OverflowError) /\
  (ProcessorNumber website = None ->
   parse_cpu website product_id = Returned None) /\
  (forall model,
      ProcessorNumber website = Some (Some model) ->
      CoreCount website = None ->
      parse_cpu website product_id = Raised AttributeError) /\
  (forall model cores corecount,
      ProcessorNumber website = Some (Some model) ->
      CoreCount website = Some (Some cores) ->
      int_of_str cores = Returned corecount ->
      (ClockSpeed website = None ->
       parse_cpu website product_id = Raised AttributeError) /\
      (forall speed number,
          ClockSpeed website = Some (Some speed) ->
          split (strip speed) = [number] ->
          returns (float_of_str number) ->
          parse_cpu website product_id = Raised IndexError)).
Proof.
  split; [ | split; [ | split ] ].
  - unfold parse_cpu. intros e Hrun.
    destruct (ProcessorNumber website) as [raw |]; [ | discriminate ].
    apply bind_raised in Hrun as [He | (model & _ & Hrun)].
    { destruct raw; simpl in He; [ discriminate | ]. injection He as <-. auto. }
    apply bind_raised in Hrun as [He | (raw1 & _ & Hrun)].
    { destruct (CoreCount website); simpl in He; [ discriminate | ].
      injection He as <-. auto. }
    apply bind_raised in Hrun as [He | (corecount & _ & Hrun)].
    { destruct raw1 as [raw1 |].
      - apply int_of_str_raises in He as ->. auto.
      - injection He as <-. auto. }
    apply bind_raised in Hrun as [He | (raw2 & _ & Hrun)].
    { destruct (ClockSpeed website); simpl in He; [ discriminate | ].
      injection He as <-. auto. }
    apply bind_raised in Hrun as [He | (raw3 & _ & Hrun)].
    { destruct raw2; simpl in He; [ discriminate | ]. injection He as <-. auto. }
    apply bind_raised in Hrun as [He%item_raises | (raw0 & _ & Hrun)];
      [ subst; auto 10 | ].
    apply bind_raised in Hrun as [He%float_of_str_raises | (value & _ & Hrun)];
      [ subst; auto 10 | ].
    apply bind_raised in Hrun as [He%item_raises | (unit & _ & Hrun)];
      [ subst; auto 10 | ].
    apply bind_raised in Hrun as [He%cpu_init_raises | (cpu & _ & Hrun)];
      [ subst; auto 10 | discriminate ].
  - unfold parse_cpu. by intros ->.
  - unfold parse_cpu. intros model -> ->. reflexivity.
  - intros model cores corecount Hmodel Hcores Hcount. split.
    + unfold parse_cpu. intros Hspeed.
      rewrite Hmodel, Hcores, Hspeed. simpl. by rewrite Hcount.
    + intros speed number Hspeed Hsplit [value Hvalue]. unfold parse_cpu.
      rewrite Hmodel, Hcores, Hspeed. simpl. rewrite Hcount. simpl.
      rewrite Hsplit. unfold Scripts.item. simpl. by rewrite Hvalue.
Qed.
End IntelArkFacts.

(** Witness of X19. *)
Lemma parse_answers_each_request_witness :
  exists todo,
    unknown_ids [] = requested [] ++ IntelArk.STARTID :: todo /\
    answered (B := ascii_builtins) (W := ascii_whitespace)
      (ark_server [] IntelArk.STARTID) IntelArk.STARTID
      (gathered (B := ascii_builtins) (W := ascii_whitespace) ark_server [] [])
      todo
      (IntelArk.parse (B := ascii_builtins) (W := ascii_whitespace)
         ark_server []).1
      [IntelArk.Sleep IntelArk.RATE_LIMIT_DELAY].
Proof.
  apply (proj1 (proj2 (parse_answers_each_request (B := ascii_builtins)
                         (W := ascii_whitespace) ark_server [])
                  [] [IntelArk.Sleep IntelArk.RATE_LIMIT_DELAY]
                  IntelArk.STARTID
                  ltac:(unfold IntelArk.parse;
                        rewrite seqZ_cons
                          by (unfold IntelArk.STARTID, IntelArk.ENDID; lia);
                        reflexivity))).
Defined.

Section DogelogFacts.
Variable now : nat -> str.
Import Dogelog.

#[local] Abbreviation log := (log now).
#[local] Abbreviation format_level := (format_level now).
#[local] Abbreviation _redraw := (_redraw now).

Lemma format_level_text level w :
  (format_level level w).1 = info_of now (mode w) (ticks w) level.
Proof. unfold info_of, Dogelog.format_level. simpl. by destruct (mode w). Qed.

Lemma format_level_world level w :
  mode (format_level level w).2 = mode w /\
  filterlevel (format_level level w).2 = filterlevel w /\
  logfile (format_level level w).2 = logfile w /\
  progress (format_level level w).2 = progress w /\
  objects (format_level level w).2 = objects w /\
  stdout (format_level level w).2 = stdout w /\
  stderr (format_level level w).2 = stderr w.
Proof. unfold Dogelog.format_level. destruct (mode w) eqn:Hm; simpl; auto 10. Qed.

(** The entry in terms of the message. *)
Lemma entry_of_eq mode ticks level message :
  entry_of now mode ticks level message =
  join_lines
    ((info_of now mode ticks level ++ py " "
      ++ hd [] (split_char 10 message))
     :: map (fun part =>
               repeat 32%N (visible_width mode (info_of now mode ticks level))
               ++ py " " ++ part)
          (tl (split_char 10 message)))
  ++ [10%N].
Proof.
  unfold entry_of, info_of, Dogelog.log, Dogelog.format_level.
  destruct mode, level; simpl; try reflexivity; by rewrite app_nil_r.
Qed.

Lemma log_unfold message level w :
  (value (filterlevel w) <= value level)%Z ->
  log message level w =
  let w1 := (format_level level w).2 in
  let text := entry_of now (mode w) (ticks w) level message in
  match logfile w with
  | None =>
      match progress w with
      | None =>
          match level with
          | ERROR => (None, write_stderr text w1)
          | _ => (None, write_stdout text w1)
          end
      | Some self =>
          let w2 := _delete_on_stdout self w1 in
          let p := deref self w2 in
          let w3 :=
            assign self (mk_progress (Dogelog.message p) (end_ p) (current p) 0)
              w2 in
          _redraw self (write_stdout text w3)
      end
  | Some _ => (None, write_logfile text w1)
  end.
Proof.
  intros Hpass. unfold Dogelog.log.
  destruct (Z.ltb_spec (value level) (value (filterlevel w))); [ lia | ].
  rewrite entry_of_eq, <- (format_level_text level w).
  destruct (format_level_world level w) as (Hmode & _ & Hfile & Hprog & _).
  destruct (format_level level w) as [formatted_info w1] eqn:Hf.
  simpl in *. rewrite Hmode, Hfile, Hprog.
  unfold visible_width. by destruct (mode w).
Qed.

Lemma delete_spec self w :
  logfile w = None ->
  _delete_on_stdout self w =
  write_stdout (wipe (last_print_len (deref self w))) w.
Proof.
  intros Hfile. unfold _delete_on_stdout, wipe. rewrite Hfile.
  rewrite bool_decide_eq_false_2 by (intros Hn; by apply Hn).
  rewrite orb_false_r.
  destruct (last_print_len (deref self w)) as [| n] eqn:Hn; simpl.
  - unfold write_stdout. rewrite app_nil_r. by destruct w.
  - unfold write_stdout. simpl. f_equal. by rewrite <- !app_assoc.
Qed.

Lemma deref_assign self p w :
  valid self w -> deref self (assign self p w) = p.
Proof.
  unfold valid, deref, assign. intros Hvalid. simpl.
  by rewrite list_lookup_insert_eq.
Qed.

(** Redrawing on the terminal: the old status is wiped, and the new one
    is written unless the bar cannot be computed. *)
Lemma redraw_terminal self w :
  logfile w = None -> valid self w ->
  stderr (_redraw self w).2 = stderr w /\
  logfile (_redraw self w).2 = None /\
  progress (_redraw self w).2 = progress w /\
  exists status,
    stdout (_redraw self w).2 =
    stdout w ++ wipe (last_print_len (deref self w)) ++ status /\
    ((_redraw self w).1 = None ->
     last_print_len (deref self (_redraw self w).2) = length status).
Proof.
  intros Hfile Hvalid. unfold Dogelog._redraw.
  rewrite delete_spec by assumption.
  set (w1 := write_stdout _ w).
  pose proof (format_level_world INFO w1) as Hworld.
  destruct (format_level INFO w1) as [prefix w2] eqn:Hf.
  cbn [fst snd] in Hworld.
  destruct Hworld as (_ & _ & Hfile2 & Hprog2 & Hobj2 & Hout2 & Herr2).
  assert (Hvalid2 : valid self w2) by (unfold valid; by rewrite Hobj2).
  assert (Hstop : forall e : failure,
             stderr (Some e, w2).2 = stderr w /\
             logfile (Some e, w2).2 = None /\
             progress (Some e, w2).2 = progress w /\
             exists status,
               stdout (Some e, w2).2 =
               stdout w ++ wipe (last_print_len (deref self w)) ++ status /\
               ((Some e, w2).1 = None ->
                last_print_len (deref self (Some e, w2).2) = length status)).
  { intros e. cbn [fst snd]. rewrite Herr2, Hfile2, Hprog2, Hout2.
    repeat split; try done.
    exists []. rewrite !app_nil_r. split; [ reflexivity | discriminate ]. }
  destruct (fraction_text _ _) as [fraction | e]; [ | apply Hstop ].
  match goal with
  | |- context [match ?b with inl _ => _ | inr _ => _ end] =>
      destruct b as [e | bar]
  end.
  - apply Hstop.
  - rewrite Hfile2. change (logfile w1) with (logfile w). rewrite Hfile.
    cbn [fst snd].
    match goal with
    | |- context [assign self ?p ?w'] =>
        rewrite (deref_assign self p w') by (unfold valid; simpl; exact Hvalid2)
    end.
    cbn [assign set_objects write_stdout stderr logfile progress stdout
         last_print_len].
    rewrite Herr2, Hfile2, Hprog2, Hout2.
    repeat split; try done.
    change (stdout w1) with (stdout w ++ wipe (last_print_len (deref self w))).
    eexists. split; [ by rewrite <- app_assoc | ]. reflexivity.
Qed.

(** The streams [log] writes to, by case on the log file and the bar. *)
Lemma log_cases (message : str) (level : Level) (w : world) :
  ((value level < value (filterlevel w))%Z -> log message level w = (None, w)) /\
  ((value (filterlevel w) <= value level)%Z ->
   (forall written,
       logfile w = Some written ->
       (log message level w).1 = None /\
       logfile (log message level w).2 =
       Some (written ++ entry_of now (mode w) (ticks w) level message) /\
       stdout (log message level w).2 = stdout w /\
       stderr (log message level w).2 = stderr w /\
       objects (log message level w).2 = objects w /\
       progress (log message level w).2 = progress w) /\
   (logfile w = None -> progress w = None ->
    (log message level w).1 = None /\
    stdout (log message level w).2 =
    stdout w ++ match level with
                | ERROR => []
                | _ => entry_of now (mode w) (ticks w) level message
                end /\
    stderr (log message level w).2 =
    stderr w ++ match level with
                | ERROR => entry_of now (mode w) (ticks w) level message
                | _ => []
                end /\
    logfile (log message level w).2 = None /\
    objects (log message level w).2 = objects w) /\
   (forall self,
       logfile w = None -> progress w = Some self -> valid self w ->
       stderr (log message level w).2 = stderr w /\
       exists status,
         stdout (log message level w).2 =
         stdout w ++ wipe (last_print_len (deref self w))
         ++ entry_of now (mode w) (ticks w) level message ++ status /\
         ((log message level w).1 = None ->
          last_print_len (deref self (log message level w).2)
          = length status))).
Proof.
  split.
  - intros Hlow. unfold Dogelog.log.
    by destruct (Z.ltb_spec (value level) (value (filterlevel w))); [ | lia ].
  - intros Hpass. rewrite (log_unfold message level w Hpass). cbv zeta.
    destruct (format_level_world level w) as (_ & _ & Hfile & Hprog & Hobj
                                              & Hout & Herr).
    set (w1 := (format_level level w).2) in *.
    split; [ | split ].
    + intros written Hw. rewrite Hw. simpl.
      rewrite Hfile, Hw, Hout, Herr, Hobj, Hprog. auto 10.
    + intros Hnone Hprogress. rewrite Hnone, Hprogress.
      destruct level; simpl;
        rewrite ?Hfile, ?Hnone, ?Hout, ?Herr, ?Hobj, ?app_nil_r; auto 10.
    + intros self Hnone Hself Hvalid. rewrite Hnone, Hself.
      assert (Hderef : deref self w1 = deref self w)
        by (unfold deref; by rewrite Hobj).
      rewrite delete_spec by (by rewrite Hfile). rewrite Hderef.
      set (w2 := write_stdout (wipe _) w1).
      set (w3 := assign self _ w2).
      set (w4 := write_stdout _ w3).
      assert (Hvalid4 : valid self w4).
      { unfold valid, w4, w3, w2. simpl. rewrite length_insert, Hobj.
        exact Hvalid. }
      assert (Hfile4 : logfile w4 = None) by (simpl; by rewrite Hfile).
      destruct (redraw_terminal self w4 Hfile4 Hvalid4)
        as (Herr4 & _ & _ & status & Hout4 & Hlen).
      split; [ rewrite Herr4; simpl; exact Herr | ].
      exists status. split; [ | exact Hlen ].
      rewrite Hout4.
      assert (Hzero : last_print_len (deref self w4) = 0).
      { unfold w4. change (deref self (write_stdout ?t w3)) with (deref self w3).
        unfold w3. rewrite deref_assign; [ reflexivity | ].
        unfold valid, w2. simpl. by rewrite Hobj. }
      rewrite Hzero. change (wipe 0 ++ status) with status.
      simpl. rewrite Hout. by rewrite <- !app_assoc.
Qed.

(** X21.  Where [log] writes.  A message below the filter level changes
    nothing.  Otherwise the same entry text goes to exactly one place:
    with a log file open, to the file, leaving both terminal streams and
    the progress bars alone; on a terminal without progress bar, to
    [stderr] for an error and to [stdout] for everything else; with a
    progress bar on the terminal, to [stdout] also for an error, after
    the characters that wipe the bar as it stands and before the bar
    redrawn, whose length is remembered as [last_print_len].  Only the
    redrawing can fail. *)
Theorem log_destination (message : str) (level : Level) (w : world) :
  ((value level < value (filterlevel w))%Z -> log message level w = (None, w)) /\
  ((value (filterlevel w) <= value level)%Z ->
   (forall written,
       logfile w = Some written ->
       (log message level w).1 = None /\
       logfile (log message level w).2 =
       Some (written ++ entry_of now (mode w) (ticks w) level message) /\
       stdout (log message level w).2 = stdout w /\
       stderr (log message level w).2 = stderr w /\
       objects (log message level w).2 = objects w /\
       progress (log message level w).2 = progress w) /\
   (logfile w = None -> progress w = None ->
    (log message level w).1 = None /\
    stdout (log message level w).2 =
    stdout w ++ match level with
                | ERROR => []
                | _ => entry_of now (mode w) (ticks w) level message
                end /\
    stderr (log message level w).2 =
    stderr w ++ match level with
                | ERROR => entry_of now (mode w) (ticks w) level message
                | _ => []
                end /\
    logfile (log message level w).2 = None /\
    objects (log message level w).2 = objects w) /\
   (forall self,
       logfile w = None -> progress w = Some self -> valid self w ->
       stderr (log message level w).2 = stderr w /\
       exists status,
         stdout (log message level w).2 =
         stdout w ++ wipe (last_print_len (deref self w))
         ++ entry_of now (mode w) (ticks w) level message ++ status /\
         ((log message level w).1 = None ->
          last_print_len (deref self (log message level w).2)
          = length status))).
Proof. exact (log_cases message level w). Qed.

Lemma redraw_result self w :
  (_redraw self w).1 =
  match fraction_text (current (deref self w)) (end_ (deref self w)) with
  | Raised e => Some (Other e)
  | Returned _ =>
      match (if (end_ (deref self w) <=? current (deref self w))%Z
             then inr (py "[" ++ times_char 47 23 ++ py "]")
             else partial_bar (current (deref self w)) (end_ (deref self w)))
      with
      | inl e => Some e
      | inr _ => None
      end
  end.
Proof.
  unfold Dogelog._redraw.
  assert (Hobj1 : objects (_delete_on_stdout self w) = objects w).
  { unfold _delete_on_stdout. by destruct (_ || _). }
  set (w1 := _delete_on_stdout self w) in *.
  pose proof (format_level_world INFO w1) as Hworld.
  destruct (format_level INFO w1) as [prefix w2] eqn:Hf.
  cbn [fst snd] in Hworld.
  destruct Hworld as (_ & _ & _ & _ & Hobj2 & _).
  assert (Hderef : deref self w2 = deref self w)
    by (unfold deref; by rewrite Hobj2, Hobj1).
  rewrite Hderef.
  destruct (fraction_text _ _) as [fraction | e]; [ | reflexivity ].
  destruct (if (end_ (deref self w) <=? current (deref self w))%Z
            then _ else _) as [e | bar]; [ reflexivity | ].
  by destruct (logfile w2).
Qed.

Lemma fraction_text_cases current end_ :
  (exceeds_str_digits current || exceeds_str_digits end_ = true ->
   fraction_text current end_ = Raised ValueError) /\
  (exceeds_str_digits current || exceeds_str_digits end_ = false ->
   fraction_text current end_ =
   Returned (rjust (decimal_of_int current) (length (decimal_of_int end_))
             ++ py "/" ++ decimal_of_int end_)).
Proof.
  unfold fraction_text, str_of_int.
  destruct (exceeds_str_digits current), (exceeds_str_digits end_);
    simpl; split; intros; try discriminate; reflexivity.
Qed.

Lemma partial_bar_zero current : partial_bar current 0 = inl ZeroDivisionError.
Proof. reflexivity. Qed.

(** X22.  When [_redraw] fails.  A progress or an end of more than 4300
    digits has no decimal text: the call raises [ValueError] before the
    bar is computed.  Otherwise a bar whose progress has reached its end
    is drawn, and a bar with [end = 0] whose progress is negative cannot
    be: [_redraw] raises [ZeroDivisionError], as does every [log] call on
    the terminal that passes the filter while that bar is the active
    one; after [finish] logging works again.  So does [increase] by a
    negative amount, of at most 4300 digits, on a fresh
    [Progress(message, 0)]. *)
Theorem empty_bar_division_by_zero (self : nat) (w : world) :
  (exceeds_str_digits (current (deref self w))
   || exceeds_str_digits (end_ (deref self w)) = true ->
   (_redraw self w).1 = Some (Other ValueError)) /\
  (exceeds_str_digits (current (deref self w))
   || exceeds_str_digits (end_ (deref self w)) = false ->
   ((end_ (deref self w) <= current (deref self w))%Z ->
    (_redraw self w).1 = None) /\
   (end_ (deref self w) = 0%Z -> (current (deref self w) < 0)%Z ->
    (_redraw self w).1 = Some ZeroDivisionError /\
    (forall message level,
        valid self w -> logfile w = None -> progress w = Some self ->
        (value (filterlevel w) <= value level)%Z ->
        (log message level w).1 = Some ZeroDivisionError /\
        (log message level (finish self w)).1 = None))) /\
  (forall message amount,
      (amount < 0)%Z -> exceeds_str_digits amount = false ->
      (increase now (Progress__init__ message 0 w).1 amount
         (Progress__init__ message 0 w).2).1 = Some ZeroDivisionError).
Proof.
  split; [ | split ].
  - intros Hlong. rewrite redraw_result.
    by rewrite (proj1 (fraction_text_cases _ _) Hlong).
  - intros Hshort. split.
    + intros Hdone. rewrite redraw_result.
      rewrite (proj2 (fraction_text_cases _ _) Hshort).
      by destruct (Z.leb_spec (end_ (deref self w)) (current (deref self w)));
        [ | lia ].
    + intros Hend Hneg.
      assert (Hbar : forall w', deref self w' = deref self w \/
                                (exists n, deref self w' =
                                   mk_progress (Dogelog.message (deref self w))
                                     (end_ (deref self w))
                                     (current (deref self w)) n) ->
                     (_redraw self w').1 = Some ZeroDivisionError).
      { intros w' Hsame. rewrite redraw_result.
        assert (end_ (deref self w') = end_ (deref self w) /\
                current (deref self w') = current (deref self w))
          as [-> ->].
        { destruct Hsame as [-> | [n ->]]; simpl; auto. }
        rewrite (proj2 (fraction_text_cases _ _) Hshort). rewrite Hend.
        destruct (Z.leb_spec 0 (current (deref self w))); [ lia | ].
        reflexivity. }
      split; [ apply Hbar; by left | ].
      intros message level Hvalid Hfile Hprog Hpass. split.
      * rewrite (log_unfold message level w Hpass). cbv zeta.
        rewrite Hfile, Hprog.
        destruct (format_level_world level w)
          as (_ & _ & Hfile1 & _ & Hobj1 & _).
        set (w1 := (format_level level w).2) in *.
        apply Hbar. right. eexists.
        rewrite delete_spec by (by rewrite Hfile1).
        change (deref self (write_stdout ?t ?w')) with (deref self w').
        rewrite deref_assign by (unfold valid; simpl; by rewrite Hobj1).
        change (deref self (write_stdout ?t ?w')) with (deref self w').
        assert (deref self w1 = deref self w) as ->
          by (unfold deref; by rewrite Hobj1).
        reflexivity.
      * assert (Hpass' :
                  (value (filterlevel (finish self w)) <= value level)%Z).
        { unfold finish. simpl. rewrite Hfile. exact Hpass. }
        destruct (log_cases message level (finish self w))
          as [_ Hdest].
        destruct (Hdest Hpass') as (_ & Hplain & _).
        apply Hplain; unfold finish; simpl; by rewrite Hfile.
  - intros message amount Hneg Hshort. unfold increase. rewrite redraw_result.
    match goal with
    | |- context [assign ?self ?p ?w'] =>
        rewrite (deref_assign self p w')
          by (unfold valid, Progress__init__; simpl;
              rewrite length_app; simpl; lia)
    end.
    assert (Hnew : deref (Progress__init__ message 0 w).1
                     (Progress__init__ message 0 w).2 =
                   mk_progress message 0 0 0).
    { unfold deref, Progress__init__. simpl.
      by rewrite lookup_app_r, Nat.sub_diag by lia. }
    rewrite Hnew. cbn [current end_ Dogelog.message last_print_len].
    rewrite (proj2 (fraction_text_cases _ _)).
    + destruct (Z.leb_spec 0 (0 + amount)); [ lia | reflexivity ].
    + change (0 + amount)%Z with amount. rewrite Hshort.
      vm_compute. reflexivity.
Qed.

Lemma init_file_fields w :
  mode (init_file now w) = EXTENSIVE /\
  filterlevel (init_file now w) = DEBUG /\
  ticks (init_file now w) = S (ticks w) /\
  stdout (init_file now w) = stdout w /\
  stderr (init_file now w) = stderr w /\
  logfile (init_file now w) =
  Some (py "   >>> NEW LOG BEGINS AT " ++ now (ticks w) ++ py " <<<"
        ++ [10%N]).
Proof.
  unfold init_file, close_if_needed. destruct (logfile w); simpl; auto 10.
Qed.

(** X23.  After [init_file] every message, whatever its level, is
    appended to the log file after the header line, and nothing reaches
    the terminal.  After [init] and [init_colorless] debug messages are
    dropped; these two and [init_debug] also close a log file that was
    open, so that later messages go to the terminal again. *)
Theorem init_sets_destination (message : str) (level : Level) (w : world) :
  (exists header,
      logfile (init_file now w) = Some header /\
      (log message level (init_file now w)).1 = None /\
      logfile (log message level (init_file now w)).2 =
      Some (header ++ entry_of now EXTENSIVE (S (ticks w)) level message) /\
      stdout (log message level (init_file now w)).2 = stdout w /\
      stderr (log message level (init_file now w)).2 = stderr w) /\
  debug now message (init w) = (None, init w) /\
  debug now message (init_colorless w) = (None, init_colorless w) /\
  logfile (init w) = None /\
  logfile (init_debug w) = None /\
  logfile (init_colorless w) = None.
Proof.
  split; [ | split; [ | split; [ | split; [ | split ] ] ] ].
  - destruct (init_file_fields w) as (Hmode & Hfilter & Hticks & Hout & Herr
                                      & Hfile).
    eexists. split; [ exact Hfile | ].
    destruct (log_cases message level (init_file now w)) as [_ Hdest].
    assert (Hpass : (value (filterlevel (init_file now w)) <= value level)%Z)
      by (rewrite Hfilter; destruct level; simpl; lia).
    destruct (Hdest Hpass) as (Hwritten & _).
    destruct (Hwritten _ Hfile) as (Hres & Hlog & Hout' & Herr' & _).
    rewrite Hmode, Hticks in Hlog. rewrite Hout', Herr', Hout, Herr. auto.
  - reflexivity.
  - reflexivity.
  - unfold init, close_if_needed. by destruct (logfile w) eqn:Hfile.
  - unfold init_debug, close_if_needed. by destruct (logfile w) eqn:Hfile.
  - unfold init_colorless, close_if_needed. by destruct (logfile w) eqn:Hfile.
Qed.
End DogelogFacts.

Section JoinSplit.
Import Dogelog.

Lemma join_lines_cons l L :
  L <> [] -> join_lines (l :: L) = l ++ 10%N :: join_lines L.
Proof. destruct L; [ done | reflexivity ]. Qed.

Lemma join_lines_snoc_empty L :
  L <> [] -> join_lines (L ++ [[]]) = join_lines L ++ [10%N].
Proof.
  induction L as [| l L IH]; [ done | ]. intros _.
  destruct L as [| l' L].
  - reflexivity.
  - change ((l :: l' :: L) ++ [[]]) with (l :: ((l' :: L) ++ [[]])).
    rewrite join_lines_cons by (by destruct L).
    rewrite join_lines_cons by done.
    rewrite IH by done. by rewrite <- app_assoc.
Qed.

Lemma split_char_aux_cut sep cur l rest :
  free_of sep l ->
  split_char_aux sep cur (l ++ sep :: rest) =
  (rev cur ++ l) :: split_char_aux sep [] rest.
Proof.
  unfold free_of. revert cur. induction l as [| c l IH]; intros cur Hfree; simpl.
  - by rewrite N.eqb_refl, app_nil_r.
  - apply not_elem_of_cons in Hfree as [Hne Hfree].
    destruct (N.eqb_spec c sep) as [-> | _]; [ done | ].
    rewrite IH by assumption. simpl. by rewrite <- app_assoc.
Qed.

Lemma split_join L :
  L <> [] -> Forall (free_of 10) L -> split_char 10 (join_lines L) = L.
Proof.
  induction L as [| l L IH]; [ done | ]. intros _ [Hl HL]%Forall_cons.
  destruct L as [| l' L].
  - simpl. unfold split_char. by rewrite split_char_aux_free.
  - rewrite join_lines_cons by done. unfold split_char.
    rewrite split_char_aux_cut by assumption. simpl. f_equal.
    by apply IH.
Qed.

Lemma join_split_aux cur s :
  join_lines (split_char_aux 10%N cur s) = rev cur ++ s.
Proof.
  revert cur. induction s as [| c s IH]; intros cur; simpl.
  - by rewrite app_nil_r.
  - destruct (N.eqb_spec c 10) as [-> | _].
    + rewrite join_lines_cons by apply split_char_aux_nonempty.
      by rewrite IH.
    + rewrite IH. simpl. by rewrite <- app_assoc.
Qed.

Lemma join_split s : join_lines (split_char 10 s) = s.
Proof. apply join_split_aux. Qed.

Lemma split_pieces_free sep cur s :
  free_of sep cur -> Forall (free_of sep) (split_char_aux sep cur s).
Proof.
  unfold free_of. revert cur. induction s as [| c s IH]; intros cur Hcur; simpl.
  - constructor; [ | constructor ]. by rewrite elem_of_rev.
  - destruct (N.eqb_spec c sep) as [-> | Hne].
    + constructor; [ by rewrite elem_of_rev | ].
      apply IH, not_elem_of_nil.
    + apply IH. apply not_elem_of_cons. split; [ congruence | assumption ].
Qed.

Lemma split_hd_tl s :
  split_char 10 s = hd [] (split_char 10 s) :: tl (split_char 10 s).
Proof.
  pose proof (split_char_aux_nonempty 10%N [] s) as Hne.
  fold (split_char 10 s) in Hne. by destruct (split_char 10 s).
Qed.

Lemma free_of_repeat c d n : c <> d -> free_of c (repeat d n).
Proof.
  unfold free_of. intros Hne Hin. apply list_elem_of_In, repeat_spec in Hin.
  congruence.
Qed.
End JoinSplit.

Section EntryFacts.
Variable now : nat -> str.
Import Dogelog.

Lemma indent_spaces width (part : str) :
  repeat 32%N width ++ py " " ++ part = repeat 32%N (width + 1) ++ part.
Proof. rewrite repeat_app, <- app_assoc. reflexivity. Qed.

Lemma indent_spaces_cons width (part : str) :
  repeat 32%N width ++ 32%N :: part = repeat 32%N (width + 1) ++ part.
Proof. apply indent_spaces. Qed.

Lemma info_of_free mode ticks level :
  (mode = EXTENSIVE -> free_of 10 (now ticks)) ->
  free_of 10 (info_of now mode ticks level).
Proof.
  intros Hclock. unfold info_of, Dogelog.format_level.
  destruct mode; simpl.
  - destruct level; refine (bool_decide_unpack _ _); vm_compute; exact I.
  - destruct level; refine (bool_decide_unpack _ _); vm_compute; exact I.
  - specialize (Hclock eq_refl).
    destruct level; apply free_of_cons; (split; [ done | ]);
      apply free_of_app; (split; [ assumption | ]);
      refine (bool_decide_unpack _ _); vm_compute; exact I.
Qed.

(** X24.  A log entry keeps the message as it is: it has one line for
    every line of the message and ends with a line feed; the first line
    carries the level prefix and a space, every further line as many
    spaces as the prefix is wide on the terminal plus one, so that the
    text of all lines begins in the same column; and taking these
    prefixes off the lines gives the message back.  In the extensive
    mode this needs a clock whose text holds no line feed. *)
Theorem log_entry_keeps_message (mode : Mode) (ticks : nat) (level : Level)
    (message : str) :
  (mode = EXTENSIVE -> free_of 10 (now ticks)) ->
  let formatted_info := info_of now mode ticks level in
  let width := visible_width mode formatted_info in
  let lines :=
    removelast (split_char 10 (entry_of now mode ticks level message)) in
  split_char 10 (entry_of now mode ticks level message) = lines ++ [[]] /\
  length lines = length (split_char 10 message) /\
  (forall i line,
      lines !! S i = Some line ->
      take (width + 1) line = repeat 32%N (width + 1)) /\
  join_lines (unindent (length formatted_info + 1) (width + 1) lines)
  = message.
Proof.
  intros Hclock formatted_info width lines.
  pose proof (info_of_free mode ticks level Hclock) as Hinfo.
  fold formatted_info in Hinfo.
  assert (Hpieces : Forall (free_of 10) (split_char 10 message))
    by apply split_pieces_free, not_elem_of_nil.
  rewrite (split_hd_tl message) in Hpieces.
  apply Forall_cons in Hpieces as [Hfirst Hrest].
  set (L := (formatted_info ++ py " " ++ hd [] (split_char 10 message))
            :: map (fun part => repeat 32%N width ++ py " " ++ part)
                 (tl (split_char 10 message))).
  assert (Hentry : entry_of now mode ticks level message
                   = join_lines (L ++ [[]])).
  { rewrite join_lines_snoc_empty by done. apply entry_of_eq. }
  assert (HL : Forall (free_of 10) (L ++ [[]])).
  { apply Forall_app. split; [ | repeat constructor; apply not_elem_of_nil ].
    constructor.
    - apply free_of_app. split; [ assumption | ].
      apply free_of_cons. split; [ done | assumption ].
    - apply Forall_map. eapply Forall_impl; [ exact Hrest | ].
      intros part Hpart. simpl. apply free_of_app.
      split; [ by apply free_of_repeat | ].
      apply free_of_cons. split; [ done | assumption ]. }
  assert (Hsplit : split_char 10 (entry_of now mode ticks level message)
                   = L ++ [[]]).
  { rewrite Hentry. apply split_join; [ by destruct L | assumption ]. }
  assert (Hlines : lines = L).
  { unfold lines. rewrite Hsplit. apply removelast_last. }
  rewrite Hlines. split; [ assumption | ]. split; [ | split ].
  - unfold L. simpl. rewrite length_map.
    rewrite (split_hd_tl message) at 2. reflexivity.
  - intros i line Hline. unfold L in Hline. simpl in Hline.
    apply list_lookup_fmap_Some in Hline as (part & -> & _).
    rewrite indent_spaces_cons.
    rewrite take_app_length'; [ reflexivity | by rewrite repeat_length ].
  - unfold L, unindent.
    replace (drop (length formatted_info + 1)
               (formatted_info ++ py " " ++ hd [] (split_char 10 message)))
      with (hd [] (split_char 10 message)).
    2:{ replace (formatted_info ++ py " " ++ hd [] (split_char 10 message))
          with ((formatted_info ++ py " ") ++ hd [] (split_char 10 message))
          by (by rewrite <- app_assoc).
        rewrite drop_app_length'; [ reflexivity | ].
        rewrite length_app. reflexivity. }
    rewrite map_map.
    rewrite (map_ext _ id), map_id.
    + rewrite <- split_hd_tl. apply join_split.
    + intros part. unfold id. rewrite indent_spaces.
      rewrite drop_app_length'; [ reflexivity | by rewrite repeat_length ].
Qed.
End EntryFacts.

(** Witness of X24. *)
Lemma log_entry_keeps_message_witness :
  Dogelog.join_lines
    (unindent (length (info_of still_clock Dogelog.EXTENSIVE 0 Dogelog.INFO) + 1)
       (visible_width Dogelog.EXTENSIVE
          (info_of still_clock Dogelog.EXTENSIVE 0 Dogelog.INFO) + 1)
       (removelast
          (split_char 10
             (entry_of still_clock Dogelog.EXTENSIVE 0 Dogelog.INFO
                (py "wow" ++ [10%N] ++ py "many newline")))))
  = py "wow" ++ [10%N] ++ py "many newline".
Proof.
  apply (log_entry_keeps_message still_clock Dogelog.EXTENSIVE 0 Dogelog.INFO
           (py "wow" ++ [10%N] ++ py "many newline")).
  intros _. refine (bool_decide_unpack _ _). vm_compute. exact I.
Defined.

(** Witness of X21. *)
Lemma log_destination_witness :
  Dogelog.stderr (Dogelog.log still_clock (py "oh no") Dogelog.ERROR bar_drawn).2
  = [] /\
  exists status,
    Dogelog.stdout
      (Dogelog.log still_clock (py "oh no") Dogelog.ERROR bar_drawn).2 =
    Dogelog.stdout bar_drawn
    ++ wipe (Dogelog.last_print_len (Dogelog.deref 0 bar_drawn))
    ++ entry_of still_clock Dogelog.NORMAL 0 Dogelog.ERROR (py "oh no")
    ++ status /\
    ((Dogelog.log still_clock (py "oh no") Dogelog.ERROR bar_drawn).1 = None ->
     Dogelog.last_print_len
       (Dogelog.deref 0
          (Dogelog.log still_clock (py "oh no") Dogelog.ERROR bar_drawn).2)
     = length status).
Proof.
  apply (proj2 (proj2 (proj2 (log_destination still_clock (py "oh no")
                                Dogelog.ERROR bar_drawn)
                         ltac:(vm_compute; discriminate)))
           0 eq_refl eq_refl).
  unfold valid. vm_compute. lia.
Defined.

(** Witness of X22. *)
Lemma empty_bar_division_by_zero_witness :
  (Dogelog.log still_clock (py "hello") Dogelog.INFO bar_broken).1
  = Some Dogelog.ZeroDivisionError /\
  (Dogelog.log still_clock (py "hello") Dogelog.INFO
     (Dogelog.finish 0 bar_broken)).1 = None.
Proof.
  apply (proj2 (proj2 (proj1 (proj2 (empty_bar_division_by_zero still_clock 0
                                       bar_broken))
                         ltac:(vm_compute; reflexivity))
                  eq_refl ltac:(vm_compute; reflexivity))
           (py "hello") Dogelog.INFO).
  - unfold valid. vm_compute. lia.
  - reflexivity.
  - reflexivity.
  - vm_compute. discriminate.
Defined.
